(** * DeepState test-case reducer: a shallow embedding of [bin/deepstate/reducer.py]

    The reducer shrinks a failing test input (a [bytearray]) by proposing
    mutations, running the instrumented binary on each one and keeping a
    mutation when the binary's output still satisfies the reduction
    criteria.  This file translates the nested functions of [main]
    ([runCandidate], [checks], [writeAndRunCandidate], [structure],
    [rangeConversions], [fixRangeConversions], [updateCurrent]) and the
    pass loop of [main] itself, and proves properties of them.

    Conventions of the embedding:
    - a [bytearray] is a [list Z]; a store of a value outside [0,255]
      raises [ValueError] as in Python;
    - Python integers (offsets read from the trace) are [Z], and Python's
      treatment of negative subscripts and of slice bounds is written out;
    - a trace is the list of lines [runCandidate] returns, each a [string];
    - Python exceptions are values of [exn]; fallible code without
      effects returns [res], effectful code runs in the monad [M] over
      [State];
    - [while] loops take a bound on their number of rounds; exhausting it
      is the outcome [Fuel]. *)

From Stdlib Require Import ZArith List String Ascii Bool Lia QArith.
Import ListNotations.
Open Scope string_scope.
Open Scope list_scope.
Open Scope Z_scope.

(* ================================================================== *)
(** ** Python lists, subscripts and slices *)

Definition bytes := list Z.

Definition len {A : Type} (l : list A) : Z := Z.of_nat (List.length l).

(** [range(a, b)] *)
Definition range (a b : Z) : list Z :=
  map (fun i => a + Z.of_nat i) (seq 0 (Z.to_nat (b - a))).

(** Normalisation of a slice bound against a sequence of length [n]:
    a negative bound counts from the end; the result is clamped. *)
Definition slice_index (n i : Z) : Z :=
  if i <? 0 then Z.max 0 (i + n) else Z.min i n.

(** [l[:hi]] *)
Definition slice_to {A : Type} (l : list A) (hi : Z) : list A :=
  firstn (Z.to_nat (slice_index (len l) hi)) l.

(** [l[lo:]] *)
Definition slice_from {A : Type} (l : list A) (lo : Z) : list A :=
  skipn (Z.to_nat (slice_index (len l) lo)) l.

(** [l[lo:hi]] *)
Definition slice {A : Type} (l : list A) (lo hi : Z) : list A :=
  let a := slice_index (len l) lo in
  let b := slice_index (len l) hi in
  firstn (Z.to_nat (b - a)) (skipn (Z.to_nat a) l).

(** Normalisation of a subscript: [None] is Python's [IndexError]. *)
Definition subscript (n i : Z) : option nat :=
  if (0 <=? i) && (i <? n) then Some (Z.to_nat i)
  else if (i <? 0) && (0 <=? i + n) then Some (Z.to_nat (i + n))
  else None.

(** [l[i]] *)
Definition getitem {A : Type} (l : list A) (i : Z) : option A :=
  match subscript (len l) i with
  | Some k => nth_error l k
  | None => None
  end.

Fixpoint update_nth {A : Type} (k : nat) (v : A) (l : list A) : list A :=
  match l, k with
  | [], _ => []
  | _ :: l', O => v :: l'
  | x :: l', S k' => x :: update_nth k' v l'
  end.

(** [l[-1]] on a list, [None] when the list is empty. *)
Fixpoint last_item {A : Type} (l : list A) : option A :=
  match l with
  | [] => None
  | [x] => Some x
  | _ :: l' => last_item l'
  end.

(** [l[-1] = v] on a non-empty list. *)
Fixpoint set_last {A : Type} (l : list A) (v : A) : list A :=
  match l with
  | [] => []
  | [_] => [v]
  | x :: l' => x :: set_last l' v
  end.

Fixpoint bytes_eqb (a b : bytes) : bool :=
  match a, b with
  | [], [] => true
  | x :: a', y :: b' => (x =? y) && bytes_eqb a' b'
  | _, _ => false
  end.

(** [a > b] on bytearrays: lexicographic order. *)
Fixpoint bytes_gtb (a b : bytes) : bool :=
  match a, b with
  | [], _ => false
  | _ :: _, [] => true
  | x :: a', y :: b' => (y <? x) || ((x =? y) && bytes_gtb a' b')
  end.

(* ================================================================== *)
(** ** Exceptions and results *)

(** The built-in exceptions the code can raise. *)
Inductive error : Type :=
| UnboundLocalError
| IndexError
| ValueError
| TypeError
| AssertionError
| ZeroDivisionError.

(** The exceptions of [main]: its own [TimeoutException], raised by
    [runCandidate] only, and the built-in ones. *)
Inductive exn : Type :=
| TimeoutException
| Error (e : error).

(** The result of code that changes no state and can only fail with a
    built-in exception. *)
Inductive res (A : Type) : Type :=
| Ok (a : A)
| Raise (e : error).
Arguments Ok {A} a.
Arguments Raise {A} e.

Definition rbind {A B : Type} (x : res A) (f : A -> res B) : res B :=
  match x with
  | Ok a => f a
  | Raise e => Raise e
  end.

Definition of_option {A : Type} (e : error) (o : option A) : res A :=
  match o with
  | Some a => Ok a
  | None => Raise e
  end.

(** [l[i] = v] on a bytearray. *)
Definition setitem (l : bytes) (i v : Z) : res bytes :=
  match subscript (len l) i with
  | None => Raise IndexError
  | Some k =>
      if (0 <=? v) && (v <? 256) then Ok (update_nth k v l)
      else Raise ValueError
  end.

(* ================================================================== *)
(** ** Strings: [in], [split], [int] *)

Fixpoint starts_with (pat s : string) : bool :=
  match pat, s with
  | EmptyString, _ => true
  | String _ _, EmptyString => false
  | String a pat', String b s' => Ascii.eqb a b && starts_with pat' s'
  end.

(** [pat in s] *)
Fixpoint contains (pat s : string) : bool :=
  starts_with pat s ||
  match s with
  | EmptyString => false
  | String _ s' => contains pat s'
  end.

(** ASCII whitespace, the separators of [str.split()]. *)
Definition is_space (c : ascii) : bool :=
  let n := nat_of_ascii c in
  (((9 <=? n) && (n <=? 13)) || (n =? 32))%nat.

Definition flush (word : string) (rest : list string) : list string :=
  match word with
  | EmptyString => rest
  | _ => word :: rest
  end.

Fixpoint split_from (s word : string) : list string :=
  match s with
  | EmptyString => flush word []
  | String c s' =>
      if is_space c then flush word (split_from s' EmptyString)
      else split_from s' (word ++ String c EmptyString)%string
  end.

(** [s.split()] *)
Definition split (s : string) : list string := split_from s EmptyString.

Definition digit_of (c : ascii) : option Z :=
  let n := Z.of_nat (nat_of_ascii c) in
  if (48 <=? n) && (n <=? 57) then Some (n - 48) else None.

Fixpoint digits (s : string) (acc : Z) : option Z :=
  match s with
  | EmptyString => Some acc
  | String c s' =>
      match digit_of c with
      | Some d => digits s' (10 * acc + d)
      | None => None
      end
  end.

(** [int(s)] for a token without whitespace: an optional sign and one or
    more decimal digits; anything else is [ValueError] ([None]). *)
Definition int_of (s : string) : option Z :=
  match s with
  | EmptyString => None
  | String c s' =>
      if Ascii.eqb c "-" then
        match s' with
        | EmptyString => None
        | _ => option_map Z.opp (digits s' 0)
        end
      else if Ascii.eqb c "+" then
        match s' with
        | EmptyString => None
        | _ => digits s' 0
        end
      else digits s 0
  end.

(** [int(line.split()[-1])] *)
Definition last_int (line : string) : res Z :=
  match last_item (split line) with
  | None => Raise IndexError
  | Some tok => of_option ValueError (int_of tok)
  end.

Definition trace := list string.

(** The newline that ends every line read back from the output file. *)
Definition nl : string := String (ascii_of_nat 10) EmptyString.

(* ================================================================== *)
(** ** The feedback parsers *)

(** Local variables of [structure].  [lastRead] is [None] while the
    Python variable is unbound. *)
Record structure_vars : Type := {
  OneOfs : list (Z * Z);
  currentOneOf : list Z;
  lastRead : option Z
}.

Definition structure_line (v : structure_vars) (line : string)
  : res structure_vars :=
  if contains "STARTING OneOf CALL" line then
    Ok {| OneOfs := OneOfs v;
          currentOneOf := currentOneOf v ++ [-1];
          lastRead := lastRead v |}
  else if contains "Reading byte at" line then
    rbind (last_int line) (fun n =>
      Ok {| OneOfs := OneOfs v;
            currentOneOf :=
              match last_item (currentOneOf v) with
              | Some top => if top =? -1 then set_last (currentOneOf v) n
                            else currentOneOf v
              | None => currentOneOf v
              end;
            lastRead := Some n |})
  else if contains "FINISHED OneOf CALL" line then
    rbind (of_option IndexError (last_item (currentOneOf v))) (fun top =>
    rbind (of_option UnboundLocalError (lastRead v)) (fun lr =>
      Ok {| OneOfs := OneOfs v ++ [(top, lr)];
            currentOneOf := removelast (currentOneOf v);
            lastRead := lastRead v |}))
  else Ok v.

Fixpoint structure_loop (v : structure_vars) (result : trace)
  : res structure_vars :=
  match result with
  | [] => Ok v
  | line :: rest => rbind (structure_line v line) (fun v' => structure_loop v' rest)
  end.

(** [structure(result)]; [noStructure] is [args.noStructure] and
    [currentTest] the global it reads in that case. *)
Definition structure (noStructure : bool) (currentTest : bytes) (result : trace)
  : res (list (Z * Z) * Z) :=
  if noStructure then Ok ([], len currentTest)
  else
    rbind (structure_loop
             {| OneOfs := []; currentOneOf := []; lastRead := None |} result)
          (fun v =>
    rbind (of_option UnboundLocalError (lastRead v)) (fun lr =>
      Ok (OneOfs v, lr))).

(** A multi-byte group [(multiFirst, lastRead)]; [multiFirst] may be the
    Python [None]. *)
Definition group := (option Z * Z)%type.
Definition conversion := (group * Z)%type.

(** Local variables of [rangeConversions]; [rc_lastRead] and
    [currentMulti] are [None] while unbound. *)
Record conv_vars : Type := {
  conversions : list conversion;
  startedMulti : bool;
  multiFirst : option Z;
  rc_lastRead : option Z;
  currentMulti : option group
}.

Definition conv_line (v : conv_vars) (line : string) : res conv_vars :=
  let reading := contains "Reading byte at" line in
  (* if "Reading byte at" in line: lastRead = int(line.split()[-1]) *)
  rbind (if reading then rbind (last_int line) (fun n => Ok (Some n))
         else Ok (rc_lastRead v)) (fun lr =>
  (* if "STARTING MULTI-BYTE READ" in line: startedMulti = True *)
  let started :=
    if contains "STARTING MULTI-BYTE READ" line then true else startedMulti v in
  (* if startedMulti and (multiFirst is None) and (...): multiFirst = lastRead *)
  let first :=
    if started && (match multiFirst v with None => true | Some _ => false end)
       && reading
    then lr else multiFirst v in
  (* if "FINISHED MULTI-BYTE READ" in line: ... *)
  rbind (if contains "FINISHED MULTI-BYTE READ" line then
           rbind (of_option UnboundLocalError lr) (fun l =>
             Ok (Some (first, l), false, None))
         else Ok (currentMulti v, started, first)) (fun '(multi, started', first') =>
  (* if "Converting out-of-range value" in line: conversions.append(...) *)
  rbind (if contains "Converting out-of-range value" line then
           rbind (of_option UnboundLocalError multi) (fun g =>
           rbind (last_int line) (fun value =>
             Ok (conversions v ++ [(g, value)])))
         else Ok (conversions v)) (fun convs =>
  Ok {| conversions := convs;
        startedMulti := started';
        multiFirst := first';
        rc_lastRead := lr;
        currentMulti := multi |}))).

Fixpoint conv_loop (v : conv_vars) (result : trace) : res conv_vars :=
  match result with
  | [] => Ok v
  | line :: rest => rbind (conv_line v line) (fun v' => conv_loop v' rest)
  end.

(** [rangeConversions(result)] *)
Definition rangeConversions (result : trace) : res (list conversion) :=
  rbind (conv_loop {| conversions := []; startedMulti := false;
                      multiFirst := None; rc_lastRead := None;
                      currentMulti := None |} result)
        (fun v => Ok (conversions v)).

(* ================================================================== *)
(** ** Conversion normalisation *)

(** [for b in range(...): test[b] = 0] *)
Fixpoint zero_range (test : bytes) (bs : list Z) : res bytes :=
  match bs with
  | [] => Ok test
  | b :: bs' => rbind (setitem test b 0) (fun t => zero_range t bs')
  end.

(** The [for (pos, value) in conversions] loop of [fixRangeConversions],
    on the current contents of [test] and the running [numConversions]. *)
Fixpoint fix_loop (test : bytes) (numConversions : Z) (convs : list conversion)
  : res (bytes * Z) :=
  match convs with
  | [] => Ok (test, numConversions)
  | (pos, value) :: rest =>
      if len test <=? snd pos then Ok (test, numConversions) (* break *)
      else
        rbind (if value <? 255 then
                 rbind (of_option IndexError (getitem test (snd pos)))
                       (fun x => Ok (value <? x))
               else Ok false) (fun smaller =>
        if smaller then
          rbind (of_option TypeError (fst pos)) (fun first =>
          rbind (zero_range test (range first (snd pos))) (fun t1 =>
          rbind (setitem t1 (snd pos) value) (fun t2 =>
          fix_loop t2 (numConversions + 1) rest)))
        else fix_loop test numConversions rest)
  end.

(** [fixRangeConversions(test, conversions)]: the bytearray is updated in
    place; the result is its final contents and [numConversions]. *)
Definition fixRangeConversions (noStructure : bool) (test : bytes)
           (convs : list conversion) : res (bytes * Z) :=
  if noStructure then Ok (test, 0) else fix_loop test 0 convs.

(* ================================================================== *)
(** ** State, events and the monad of [main] *)

Inductive path : Type := InputTest | CandidateFile.

Inductive message : Type :=
| StartingTestDoesNotSatisfy
| NoMoreReductionsFound
| ReductionTimedOut.

(** What the reducer does to the outside world, newest event first.
    [Trial c t]: the binary was run on a file holding [c] and printed
    [t].  The progress lines (sizes, times, percentages) are left out. *)
Inductive event : Type :=
| Trial (candidate : bytes) (result : trace)
| ReadInput
| WriteOut (b : bytes)
| Printed (m : message).

(** The globals of the module ([candidateRuns], [currentTest], [s]), the
    variables of [main] its nested functions read ([r], [initialSize]),
    the two files the reducer writes, and the event log. *)
Record State : Type := {
  candidateRuns : nat;
  currentTest : bytes;
  s : list (Z * Z) * Z;
  r : trace;
  initialSize : Z;
  candidate_file : bytes;
  output_test : option bytes;
  events : list event
}.

Definition set_candidateRuns (n : nat) (st : State) : State :=
  {| candidateRuns := n; currentTest := currentTest st; s := s st; r := r st;
     initialSize := initialSize st; candidate_file := candidate_file st;
     output_test := output_test st; events := events st |}.

Definition set_currentTest (b : bytes) (st : State) : State :=
  {| candidateRuns := candidateRuns st; currentTest := b; s := s st; r := r st;
     initialSize := initialSize st; candidate_file := candidate_file st;
     output_test := output_test st; events := events st |}.

Definition set_s (v : list (Z * Z) * Z) (st : State) : State :=
  {| candidateRuns := candidateRuns st; currentTest := currentTest st; s := v;
     r := r st; initialSize := initialSize st;
     candidate_file := candidate_file st; output_test := output_test st;
     events := events st |}.

Definition set_r (t : trace) (st : State) : State :=
  {| candidateRuns := candidateRuns st; currentTest := currentTest st;
     s := s st; r := t; initialSize := initialSize st;
     candidate_file := candidate_file st; output_test := output_test st;
     events := events st |}.

Definition set_initialSize (n : Z) (st : State) : State :=
  {| candidateRuns := candidateRuns st; currentTest := currentTest st;
     s := s st; r := r st; initialSize := n;
     candidate_file := candidate_file st; output_test := output_test st;
     events := events st |}.

Definition set_candidate_file (b : bytes) (st : State) : State :=
  {| candidateRuns := candidateRuns st; currentTest := currentTest st;
     s := s st; r := r st; initialSize := initialSize st;
     candidate_file := b; output_test := output_test st;
     events := events st |}.

Definition set_output_test (b : bytes) (st : State) : State :=
  {| candidateRuns := candidateRuns st; currentTest := currentTest st;
     s := s st; r := r st; initialSize := initialSize st;
     candidate_file := candidate_file st; output_test := Some b;
     events := events st |}.

Definition add_event (e : event) (st : State) : State :=
  {| candidateRuns := candidateRuns st; currentTest := currentTest st;
     s := s st; r := r st; initialSize := initialSize st;
     candidate_file := candidate_file st; output_test := output_test st;
     events := e :: events st |}.

(** The state at line 83, before anything ran. *)
Definition start_state : State :=
  {| candidateRuns := 0%nat; currentTest := []; s := ([], 0); r := [];
     initialSize := 0; candidate_file := []; output_test := None;
     events := [] |}.

Inductive outcome (A : Type) : Type :=
| Val (a : A)
| Exc (e : exn)
| Fuel.
Arguments Val {A} a.
Arguments Exc {A} e.
Arguments Fuel {A}.

Definition M (A : Type) : Type := State -> outcome A * State.

Definition ret {A : Type} (a : A) : M A := fun st => (Val a, st).

Definition bind {A B : Type} (m : M A) (f : A -> M B) : M B :=
  fun st =>
    match m st with
    | (Val a, st') => f a st'
    | (Exc e, st') => (Exc e, st')
    | (Fuel, st') => (Fuel, st')
    end.

Definition raise {A : Type} (e : exn) : M A := fun st => (Exc e, st).

Definition out_of_fuel {A : Type} : M A := fun st => (Fuel, st).

Definition lift {A : Type} (x : res A) : M A :=
  match x with
  | Ok a => ret a
  | Raise e => raise (Error e)
  end.

Definition gets {A : Type} (f : State -> A) : M A := fun st => (Val (f st), st).

Definition modify (f : State -> State) : M unit := fun st => (Val tt, f st).

(** [try: m except TimeoutException: handler] *)
Definition try_except_timeout (m handler : M unit) : M unit :=
  fun st =>
    match m st with
    | (Exc TimeoutException, st') => handler st'
    | other => other
    end.

Declare Scope monad_scope.
Delimit Scope monad_scope with monad.
Notation "x <- m ;; k" := (bind m (fun x => k))
  (at level 61, m at next level, right associativity) : monad_scope.
Notation "' pat <- m ;; k" := (bind m (fun x => match x with pat => k end))
  (at level 61, pat pattern, m at next level, right associativity) : monad_scope.
Notation "m ;; k" := (bind m (fun _ => k))
  (at level 61, right associativity) : monad_scope.
Open Scope monad_scope.

(** Snapshots [lastOneOfRemovalTest] and the like start as the empty
    Python list [[]], which no bytearray equals, and later hold a copy
    [bytearray(currentTest)]. *)
Inductive snapshot : Type :=
| EmptyList
| Copy (b : bytes).

(** [currentTest != snap] *)
Definition differs (cur : bytes) (snap : snapshot) : bool :=
  match snap with
  | EmptyList => true
  | Copy b => negb (bytes_eqb cur b)
  end.

Record Snapshots : Type := {
  lastOneOfRemovalTest : snapshot;
  lastChunkRemovalTest : Z -> snapshot;
  lastReduceAndDeleteTest : Z -> snapshot;
  lastAllRangeTest : snapshot;
  lastOneOfSwapTest : snapshot;
  lastByteReduceTest : snapshot;
  lastPatternSearchTest : snapshot
}.

(** [d[k] = v] on a dictionary with integer keys. *)
Definition dict_set (d : Z -> snapshot) (k : Z) (v : snapshot) : Z -> snapshot :=
  fun k' => if k' =? k then v else d k'.

Definition initial_snapshots : Snapshots :=
  {| lastOneOfRemovalTest := EmptyList;
     lastChunkRemovalTest := fun _ => EmptyList;
     lastReduceAndDeleteTest := fun _ => EmptyList;
     lastAllRangeTest := EmptyList;
     lastOneOfSwapTest := EmptyList;
     lastByteReduceTest := EmptyList;
     lastPatternSearchTest := EmptyList |}.

(** The command line, as far as the reducer itself depends on it
    ([which_test], [fork] and [verbose] only change what is passed to
    the binary or printed). *)
Record Args : Type := {
  criteria : option string;
  search : bool;
  timeout : Z;
  maxByteRange : Z;
  fast : bool;
  slow : bool;
  slowest : bool;
  noStructure : bool;
  noPad : bool
}.

(* ================================================================== *)
(** ** [main] and its nested functions *)

Section Reducer.

(** The command line. *)
Variable args : Args.
(** The contents of the file [args.input_test]. *)
Variable input : bytes.
(** What the binary prints when it is run, for the [n]-th call of
    [runCandidate], on a file with the given contents. *)
Variable oracle : nat -> bytes -> trace.
(** [time.time() - start], in seconds, as read by the [n]-th call of
    [runCandidate]. *)
Variable elapsed : nat -> Q.

(** [(time.time() - start) > args.timeout] *)
Definition expired (n : nat) : bool :=
  negb (Qle_bool (elapsed n) (inject_Z (timeout args))).

Definition runCandidate (candidate : path) : M trace :=
  fun st =>
    let n := S (candidateRuns st) in
    let st1 := set_candidateRuns n st in
    if expired n then (Exc TimeoutException, st1)
    else
      let content := match candidate with
                     | InputTest => input
                     | CandidateFile => candidate_file st1
                     end in
      let result := oracle n content in
      (Val result, add_event (Trial content result) st1).

(** [if checkString:] holds for a string that is given and not empty. *)
Definition checkString : option string :=
  match criteria args with
  | Some EmptyString => None
  | other => other
  end.

Definition checks (result : trace) : bool :=
  existsb (fun line =>
             match checkString with
             | Some c => contains c line
             | None => contains "ERROR: Failed:" line
                       || contains "ERROR: Crashed" line
             end) result.

Definition writeAndRunCandidate (test : bytes) : M trace :=
  modify (set_candidate_file test) ;;
  runCandidate CandidateFile.

(** [percent = 100.0 * ((initialSize - len(currentTest)) / initialSize)]:
    only the division matters here. *)
Definition percent : M unit :=
  n <- gets initialSize ;;
  if n =? 0 then raise (Error ZeroDivisionError) else ret tt.

Definition write_out (b : bytes) : M unit :=
  modify (fun st => add_event (WriteOut b) (set_output_test b st)).

Definition print (m : message) : M unit := modify (add_event (Printed m)).

(** [updateCurrent(newTest)].  [rangeConversions(r)] is evaluated before
    [fixRangeConversions] is entered, whatever [args.noStructure] is. *)
Definition updateCurrent (newTest : bytes) : M unit :=
  modify (set_currentTest newTest) ;;
  result <- gets r ;;
  convs <- lift (rangeConversions result) ;;
  fixed <- lift (fixRangeConversions (noStructure args) newTest convs) ;;
  modify (set_currentTest (fst fixed)) ;;
  write_out (fst fixed) ;;
  sv <- lift (structure (noStructure args) (fst fixed) result) ;;
  modify (set_s sv) ;;
  percent.

Definition passInfo : M unit := percent.

(** The statements each pass runs on a proposed [newTest]:
    [r = writeAndRunCandidate(newTest)], then, if [checks(r)],
    [changed = True] and [updateCurrent(newTest)].  The result is
    [changed]. *)
Definition attempt (newTest : bytes) : M bool :=
  result <- writeAndRunCandidate newTest ;;
  modify (set_r result) ;;
  if checks result then updateCurrent newTest ;; ret true
  else ret false.

Definition item (l : bytes) (i : Z) : M Z := lift (of_option IndexError (getitem l i)).

(** *** Pass: removing OneOfs (lines 254-272) *)

Definition oneof_candidate (cur : bytes) (c : Z * Z) : bytes :=
  slice_to cur (fst c) ++ slice_from cur (snd c + 1).

Fixpoint oneof_for (cuts : list (Z * Z)) : M bool :=
  match cuts with
  | [] => ret false
  | c :: cuts' =>
      cur <- gets currentTest ;;
      let newTest := oneof_candidate cur c in
      if len newTest =? len cur then oneof_for cuts'
      else
        changed <- attempt newTest ;;
        if changed then ret true else oneof_for cuts'
  end.

Fixpoint oneof_while (fuel : nat) : M unit :=
  match fuel with
  | O => out_of_fuel
  | S fuel' =>
      sv <- gets s ;;
      changed <- oneof_for (fst sv) ;;
      if changed then oneof_while fuel' else ret tt
  end.

(** *** Pass: k byte chunk removals (lines 274-302) *)

Definition chunk_candidate (cur : bytes) (k b : Z) : bytes :=
  slice_to cur b ++ slice_from cur (b + k).

(** One [for b in range(...)] loop; [Some b] when it broke at [b]. *)
Fixpoint chunk_for (k : Z) (bs : list Z) : M (option Z) :=
  match bs with
  | [] => ret None
  | b :: bs' =>
      cur <- gets currentTest ;;
      changed <- attempt (chunk_candidate cur k b) ;;
      if changed then ret (Some b) else chunk_for k bs'
  end.

Fixpoint chunk_while (fuel : nat) (k startingPos : Z) : M unit :=
  match fuel with
  | O => out_of_fuel
  | S fuel' =>
      cur <- gets currentTest ;;
      found <- chunk_for k (range startingPos (len cur)) ;;
      match found with
      | Some b => chunk_while fuel' k b
      | None =>
          found' <- chunk_for k (range 0 startingPos) ;;
          match found' with
          | Some b => chunk_while fuel' k b
          | None => ret tt
          end
      end
  end.

(** *** Pass: byte reduce and delete k (lines 304-324) *)

Fixpoint reduce_delete_for (k : Z) (bs : list Z) : M bool :=
  match bs with
  | [] => ret false
  | b :: bs' =>
      cur <- gets currentTest ;;
      x <- item cur b ;;
      if x =? 0 then reduce_delete_for k bs'
      else
        newTest <- lift (setitem cur b (x - 1)) ;;
        changed <- attempt (slice_to newTest (b + 1)
                            ++ slice_from newTest (b + k + 1)) ;;
        if changed then ret true else reduce_delete_for k bs'
  end.

Fixpoint reduce_delete_while (fuel : nat) (k : Z) : M unit :=
  match fuel with
  | O => out_of_fuel
  | S fuel' =>
      cur <- gets currentTest ;;
      changed <- reduce_delete_for k (range 0 (len cur - k)) ;;
      if changed then reduce_delete_while fuel' k else ret tt
  end.

(** *** Pass: all byte range removals (lines 326-370) *)

Fixpoint allrange_inner (b : Z) (vs : list Z) : M bool :=
  match vs with
  | [] => ret false
  | v :: vs' =>
      if (v - b =? 4) || (v - b =? 8) then allrange_inner b vs'
      else
        cur <- gets currentTest ;;
        changed <- attempt (slice_to cur b ++ slice_from cur v) ;;
        if changed then ret true else allrange_inner b vs'
  end.

Fixpoint allrange_for (mbr : Z) (bs : list Z) : M (option Z) :=
  match bs with
  | [] => ret None
  | b :: bs' =>
      cur <- gets currentTest ;;
      changed <- allrange_inner b (range (b + 2) (Z.min (len cur) (b + mbr))) ;;
      if changed then ret (Some b) else allrange_for mbr bs'
  end.

Fixpoint allrange_while (fuel : nat) (mbr startingPos : Z) : M unit :=
  match fuel with
  | O => out_of_fuel
  | S fuel' =>
      cur <- gets currentTest ;;
      found <- allrange_for mbr (range startingPos (len cur)) ;;
      match found with
      | Some b => allrange_while fuel' mbr b
      | None =>
          found' <- allrange_for mbr (range 0 startingPos) ;;
          match found' with
          | Some b => allrange_while fuel' mbr b
          | None => ret tt
          end
      end
  end.

(** *** Pass: swapping OneOfs (lines 372-405) *)

Definition swap_candidate (cur : bytes) (cuti cutj : Z * Z) : bytes :=
  let bytesi := slice cur (fst cuti) (snd cuti + 1) in
  let bytesj := slice cur (fst cutj) (snd cutj + 1) in
  slice_to cur (fst cuti) ++ bytesj ++ slice cur (snd cuti + 1) (fst cutj)
  ++ bytesi ++ slice_from cur (snd cutj + 1).

Fixpoint swap_inner (cuts : list (Z * Z)) (cuti : Z * Z) (js : list Z) : M bool :=
  match js with
  | [] => ret false
  | j :: js' =>
      cur <- gets currentTest ;;
      cutj <- lift (of_option IndexError (getitem cuts j)) ;;
      let bytesi := slice cur (fst cuti) (snd cuti + 1) in
      let bytesj := slice cur (fst cutj) (snd cutj + 1) in
      if (snd cuti <? fst cutj) && (0 <? len bytesj) && bytes_gtb bytesi bytesj
      then
        changed <- attempt (swap_candidate cur cuti cutj) ;;
        if changed then ret true else swap_inner cuts cuti js'
      else swap_inner cuts cuti js'
  end.

Fixpoint swap_for (cuts : list (Z * Z)) (idxs : list Z) : M bool :=
  match idxs with
  | [] => ret false
  | i :: idxs' =>
      cuti <- lift (of_option IndexError (getitem cuts i)) ;;
      changed <- swap_inner cuts cuti (range (i + 1) (len cuts)) ;;
      if changed then ret true else swap_for cuts idxs'
  end.

Fixpoint swap_while (fuel : nat) : M unit :=
  match fuel with
  | O => out_of_fuel
  | S fuel' =>
      sv <- gets s ;;
      let cuts := fst sv in
      changed <- swap_for cuts (range 0 (len cuts - 1)) ;;
      if changed then swap_while fuel' else ret tt
  end.

(** *** Pass: byte reductions (lines 407-443) *)

Fixpoint bytereduce_inner (b : Z) (vs : list Z) : M bool :=
  match vs with
  | [] => ret false
  | v :: vs' =>
      cur <- gets currentTest ;;
      newTest <- lift (setitem cur b v) ;;
      changed <- attempt newTest ;;
      if changed then ret true else bytereduce_inner b vs'
  end.

Fixpoint bytereduce_for (bs : list Z) : M (option Z) :=
  match bs with
  | [] => ret None
  | b :: bs' =>
      cur <- gets currentTest ;;
      x <- item cur b ;;
      changed <- bytereduce_inner b (range 0 x) ;;
      if changed then ret (Some b) else bytereduce_for bs'
  end.

Fixpoint bytereduce_while (fuel : nat) (startingPos : Z) : M unit :=
  match fuel with
  | O => out_of_fuel
  | S fuel' =>
      cur <- gets currentTest ;;
      found <- bytereduce_for (range startingPos (len cur)) ;;
      match found with
      | Some b => bytereduce_while fuel' (b + 1)
      | None =>
          found' <- bytereduce_for (range 0 startingPos) ;;
          match found' with
          | Some b => bytereduce_while fuel' (b + 1)
          | None => ret tt
          end
      end
  end.

(** *** Pass: byte pattern search (lines 445-486) *)

Definition banews (b0 b1 : Z) : list bytes :=
  [[b0]; [b1]]
  ++ (if 0 <? b0 then map (fun v => [v; b1]) (range 0 b0) ++ [[b0 - 1]] else [])
  ++ (if 0 <? b1 then map (fun v => [b0; v]) (range 0 b1) else []).

Fixpoint pattern_try (part1 part2 part3 : bytes) (news : list bytes) : M bool :=
  match news with
  | [] => ret false
  | banew :: news' =>
      changed <- attempt (part1 ++ banew ++ part2 ++ banew ++ part3) ;;
      if changed then ret true else pattern_try part1 part2 part3 news'
  end.

Fixpoint pattern_inner (b1 : Z) (b2s : list Z) : M bool :=
  match b2s with
  | [] => ret false
  | b2 :: b2s' =>
      cur <- gets currentTest ;;
      v10 <- item cur b1 ;;
      v11 <- item cur (b1 + 1) ;;
      v20 <- item cur b2 ;;
      v21 <- item cur (b2 + 1) ;;
      if (v10 =? v20) && (v11 =? v21) then
        changed <- pattern_try (slice_to cur b1) (slice cur (b1 + 2) b2)
                               (slice_from cur (b2 + 2)) (banews v10 v11) ;;
        if changed then ret true else pattern_inner b1 b2s'
      else pattern_inner b1 b2s'
  end.

Fixpoint pattern_for (b1s : list Z) : M bool :=
  match b1s with
  | [] => ret false
  | b1 :: b1s' =>
      cur <- gets currentTest ;;
      changed <- pattern_inner b1 (range (b1 + 2) (len cur - 4)) ;;
      if changed then ret true else pattern_for b1s'
  end.

Fixpoint pattern_while (fuel : nat) : M unit :=
  match fuel with
  | O => out_of_fuel
  | S fuel' =>
      cur <- gets currentTest ;;
      changed <- pattern_for (range 0 (len cur - 4)) ;;
      if changed then pattern_while fuel' else ret tt
  end.

(** *** One round of the [while oldTest != currentTest] loop *)

(** [for k in [1, 4, 8]] around the chunk removal pass. *)
Fixpoint chunk_passes (fuel : nat) (ks : list Z) (sn : Snapshots) : M Snapshots :=
  match ks with
  | [] => ret sn
  | k :: ks' =>
      cur <- gets currentTest ;;
      if differs cur (lastChunkRemovalTest sn k) then
        chunk_while fuel k 0 ;;
        cur' <- gets currentTest ;;
        passInfo ;;
        chunk_passes fuel ks'
          {| lastOneOfRemovalTest := lastOneOfRemovalTest sn;
             lastChunkRemovalTest := dict_set (lastChunkRemovalTest sn) k (Copy cur');
             lastReduceAndDeleteTest := lastReduceAndDeleteTest sn;
             lastAllRangeTest := lastAllRangeTest sn;
             lastOneOfSwapTest := lastOneOfSwapTest sn;
             lastByteReduceTest := lastByteReduceTest sn;
             lastPatternSearchTest := lastPatternSearchTest sn |}
      else chunk_passes fuel ks' sn
  end.

(** [for k in [1, 4, 8]] around the reduce-and-delete pass. *)
Fixpoint reduce_delete_passes (fuel : nat) (ks : list Z) (sn : Snapshots)
  : M Snapshots :=
  match ks with
  | [] => ret sn
  | k :: ks' =>
      cur <- gets currentTest ;;
      if differs cur (lastReduceAndDeleteTest sn k) then
        reduce_delete_while fuel k ;;
        cur' <- gets currentTest ;;
        passInfo ;;
        reduce_delete_passes fuel ks'
          {| lastOneOfRemovalTest := lastOneOfRemovalTest sn;
             lastChunkRemovalTest := lastChunkRemovalTest sn;
             lastReduceAndDeleteTest :=
               dict_set (lastReduceAndDeleteTest sn) k (Copy cur');
             lastAllRangeTest := lastAllRangeTest sn;
             lastOneOfSwapTest := lastOneOfSwapTest sn;
             lastByteReduceTest := lastByteReduceTest sn;
             lastPatternSearchTest := lastPatternSearchTest sn |}
      else reduce_delete_passes fuel ks' sn
  end.

Definition oneof_pass (fuel : nat) (sn : Snapshots) : M Snapshots :=
  cur <- gets currentTest ;;
  if differs cur (lastOneOfRemovalTest sn) then
    oneof_while fuel ;;
    cur' <- gets currentTest ;;
    passInfo ;;
    ret {| lastOneOfRemovalTest := Copy cur';
           lastChunkRemovalTest := lastChunkRemovalTest sn;
           lastReduceAndDeleteTest := lastReduceAndDeleteTest sn;
           lastAllRangeTest := lastAllRangeTest sn;
           lastOneOfSwapTest := lastOneOfSwapTest sn;
           lastByteReduceTest := lastByteReduceTest sn;
           lastPatternSearchTest := lastPatternSearchTest sn |}
  else ret sn.

Definition allrange_pass (fuel : nat) (mbr : Z) (sn : Snapshots) : M Snapshots :=
  if fast args then ret sn
  else
    cur <- gets currentTest ;;
    if differs cur (lastAllRangeTest sn) then
      allrange_while fuel mbr 0 ;;
      cur' <- gets currentTest ;;
      passInfo ;;
      ret {| lastOneOfRemovalTest := lastOneOfRemovalTest sn;
             lastChunkRemovalTest := lastChunkRemovalTest sn;
             lastReduceAndDeleteTest := lastReduceAndDeleteTest sn;
             lastAllRangeTest := Copy cur';
             lastOneOfSwapTest := lastOneOfSwapTest sn;
             lastByteReduceTest := lastByteReduceTest sn;
             lastPatternSearchTest := lastPatternSearchTest sn |}
    else ret sn.

Definition swap_pass (fuel : nat) (sn : Snapshots) : M Snapshots :=
  cur <- gets currentTest ;;
  if differs cur (lastOneOfSwapTest sn) then
    swap_while fuel ;;
    cur' <- gets currentTest ;;
    passInfo ;;
    ret {| lastOneOfRemovalTest := lastOneOfRemovalTest sn;
           lastChunkRemovalTest := lastChunkRemovalTest sn;
           lastReduceAndDeleteTest := lastReduceAndDeleteTest sn;
           lastAllRangeTest := lastAllRangeTest sn;
           lastOneOfSwapTest := Copy cur';
           lastByteReduceTest := lastByteReduceTest sn;
           lastPatternSearchTest := lastPatternSearchTest sn |}
  else ret sn.

Definition bytereduce_pass (fuel : nat) (sn : Snapshots) : M Snapshots :=
  cur <- gets currentTest ;;
  if differs cur (lastByteReduceTest sn) then
    bytereduce_while fuel 0 ;;
    cur' <- gets currentTest ;;
    passInfo ;;
    ret {| lastOneOfRemovalTest := lastOneOfRemovalTest sn;
           lastChunkRemovalTest := lastChunkRemovalTest sn;
           lastReduceAndDeleteTest := lastReduceAndDeleteTest sn;
           lastAllRangeTest := lastAllRangeTest sn;
           lastOneOfSwapTest := lastOneOfSwapTest sn;
           lastByteReduceTest := Copy cur';
           lastPatternSearchTest := lastPatternSearchTest sn |}
  else ret sn.

(** Lines 445-490; [oldTest] is the copy taken when the round began. *)
Definition pattern_pass (fuel : nat) (oldTest : bytes) (sn : Snapshots)
  : M Snapshots :=
  cur <- gets currentTest ;;
  if (slow args || slowest args) && bytes_eqb oldTest cur then
    sn' <- (if differs cur (lastPatternSearchTest sn) then
              pattern_while fuel ;;
              cur' <- gets currentTest ;;
              passInfo ;;
              ret {| lastOneOfRemovalTest := lastOneOfRemovalTest sn;
                     lastChunkRemovalTest := lastChunkRemovalTest sn;
                     lastReduceAndDeleteTest := lastReduceAndDeleteTest sn;
                     lastAllRangeTest := lastAllRangeTest sn;
                     lastOneOfSwapTest := lastOneOfSwapTest sn;
                     lastByteReduceTest := lastByteReduceTest sn;
                     lastPatternSearchTest := Copy cur' |}
            else ret sn) ;;
    cur'' <- gets currentTest ;;
    (if bytes_eqb oldTest cur'' then print NoMoreReductionsFound else ret tt) ;;
    ret sn'
  else ret sn.

(** The body of the [while], after [oldTest = bytearray(currentTest)]. *)
Definition iteration (fuel : nat) (mbr : Z) (oldTest : bytes) (sn : Snapshots)
  : M Snapshots :=
  percent ;;
  sn1 <- oneof_pass fuel sn ;;
  sn2 <- chunk_passes fuel [1; 4; 8] sn1 ;;
  sn3 <- reduce_delete_passes fuel [1; 4; 8] sn2 ;;
  sn4 <- allrange_pass fuel mbr sn3 ;;
  sn5 <- swap_pass fuel sn4 ;;
  sn6 <- bytereduce_pass fuel sn5 ;;
  pattern_pass fuel oldTest sn6.

(** [while oldTest != currentTest]; [rounds] bounds the number of
    rounds, [fuel] the rounds of each inner [while changed]. *)
Fixpoint reduce_loop (rounds fuel : nat) (mbr : Z) (oldTest : snapshot)
         (sn : Snapshots) : M unit :=
  match rounds with
  | O => out_of_fuel
  | S rounds' =>
      cur <- gets currentTest ;;
      if differs cur oldTest then
        sn' <- iteration fuel mbr cur sn ;;
        reduce_loop rounds' fuel mbr (Copy cur) sn'
      else ret tt
  end.

(** Lines 176-204: the checks and the normalisation before the loop.
    The result is [None] when [main] returns 1 at line 179, and
    otherwise the value of [maxByteRange]. *)
Definition startup : M (option Z) :=
  initial <- runCandidate InputTest ;;
  if negb (search args) && negb (checks initial) then
    print StartingTestDoesNotSatisfy ;;
    ret None
  else
    modify (add_event ReadInput) ;;
    modify (set_currentTest input) ;;
    let original := input in
    let mbr := if slowest args then len input else maxByteRange args in
    convs <- lift (rangeConversions initial) ;;
    fixed <- lift (fixRangeConversions (noStructure args) input convs) ;;
    modify (set_currentTest (fst fixed)) ;;
    result <- writeAndRunCandidate (fst fixed) ;;
    modify (set_r result) ;;
    (if checks result then ret tt else raise (Error AssertionError)) ;;
    sv <- lift (structure (noStructure args) (fst fixed) initial) ;;
    modify (set_s sv) ;;
    (if snd sv + 1 <? len (fst fixed) then
       modify (set_currentTest (slice_to (fst fixed) (snd sv + 1)))
     else ret tt) ;;
    cur <- gets currentTest ;;
    (if negb (bytes_eqb cur original) then write_out cur else ret tt) ;;
    modify (set_initialSize (len cur)) ;;
    ret (Some mbr).

(** Lines 244-493: the loop under [try ... except TimeoutException]. *)
Definition reduction (fuel : nat) (mbr : Z) : M unit :=
  try_except_timeout
    (reduce_loop fuel fuel mbr EmptyList initial_snapshots)
    (print ReductionTimedOut).

(** Lines 500-509: padding and the final write. *)
Definition finalize : M unit :=
  (if noPad args then ret tt
   else
     sv <- gets s ;;
     cur <- gets currentTest ;;
     if len cur <? snd sv + 1 then
       modify (set_currentTest
                 (cur ++ repeat 0 (Z.to_nat (snd sv + 1 - len cur))))
     else ret tt) ;;
  cur <- gets currentTest ;;
  write_out cur.

(** [main()]; the result is its return value. *)
Definition main (fuel : nat) : M Z :=
  early <- startup ;;
  match early with
  | None => ret 1
  | Some mbr =>
      reduction fuel mbr ;;
      percent ;;
      finalize ;;
      ret 0
  end.

End Reducer.

(* ================================================================== *)
(** ** Definitions used to state the properties *)

(** Every element of a bytearray is in [0,255]. *)
Definition bytes_ok (b : bytes) : Prop :=
  forallb (fun x => (0 <=? x) && (x <? 256)) b = true.

(** Pointwise order on bytearrays of the same length. *)
Definition below (a b : bytes) : Prop := Forall2 Z.le a b.

(** A conversion with integer offsets, [((start, end), value)], and the
    value [rangeConversions] records for it. *)
Definition plain_conversion := ((Z * Z) * Z)%type.

Definition recorded (c : plain_conversion) : conversion :=
  match c with ((first, last), value) => ((Some first, last), value) end.

(** The normalisation of one conversion as the specification words it:
    when the group's end is inside the candidate and the value is
    smaller than the byte at the end, every byte of [start..end-1]
    becomes zero and the byte at [end] becomes the value; otherwise the
    candidate is unchanged. *)
Definition normalised (test : bytes) (c : plain_conversion) : bytes :=
  match c with
  | ((first, last), value) =>
      map (fun i => if (first <=? i) && (i <? last) then 0
                    else if i =? last then value
                    else nth (Z.to_nat i) test 0)
          (range 0 (len test))
  end.

Definition applies (test : bytes) (c : plain_conversion) : bool :=
  match c with
  | ((first, last), value) =>
      (last <? len test) && (value <? nth (Z.to_nat last) test 0)
  end.

Definition normalise_step (test : bytes) (c : plain_conversion) : bytes :=
  if applies test c then normalised test c else test.

(** Every conversion of the list is considered, in order. *)
Definition normalise_all (test : bytes) (convs : list plain_conversion) : bytes :=
  fold_left normalise_step convs test.

(** The conversions before the first one whose end is outside a
    candidate of length [n]. *)
Fixpoint before_out_of_bounds (n : Z) (convs : list plain_conversion)
  : list plain_conversion :=
  match convs with
  | [] => []
  | c :: rest =>
      if n <=? snd (fst c) then [] else c :: before_out_of_bounds n rest
  end.

(** Offsets and values as the binary reports them: not negative. *)
Definition plain_ok (c : plain_conversion) : bool :=
  (0 <=? fst (fst c)) && (0 <=? snd (fst c)) && (0 <=? snd c).

Definition all_plain_ok (convs : list plain_conversion) : Prop :=
  forallb plain_ok convs = true.

(** The conversions are already reflected in the candidate: for each
    one whose end is inside the candidate, the byte at the end is the
    value and the bytes before it in the group are zero. *)
Definition holds (test : bytes) (i v : Z) : bool :=
  match getitem test i with
  | Some x => x =? v
  | None => false
  end.

Definition consistent_one (test : bytes) (c : conversion) : bool :=
  match c with
  | ((first, last), value) =>
      if last <? len test then
        holds test last value
        && match first with
           | Some a => forallb (fun b => holds test b 0) (range a last)
           | None => true
           end
      else true
  end.

Definition consistent (test : bytes) (convs : list conversion) : Prop :=
  forallb (consistent_one test) convs = true.

(** *** Well-formed traces *)

(** The branch of [structure] a line takes: the tests are chained with
    [elif], so an earlier marker hides a later one. *)
Definition is_oneof_start (line : string) : bool :=
  contains "STARTING OneOf CALL" line.

Definition is_oneof_read (line : string) : bool :=
  negb (is_oneof_start line) && contains "Reading byte at" line.

Definition is_oneof_end (line : string) : bool :=
  negb (is_oneof_start line) && negb (contains "Reading byte at" line)
  && contains "FINISHED OneOf CALL" line.

(** The last word of the line is an integer. *)
Definition ends_in_int (line : string) : bool :=
  match last_int line with
  | Ok _ => true
  | Raise _ => false
  end.

Definition count (p : string -> bool) (t : trace) : Z := len (filter p t).

(** [P pre line] holds of every line of the trace, [pre] being the
    lines before it. *)
Fixpoint each_line (P : trace -> string -> bool) (pre t : trace) : bool :=
  match t with
  | [] => true
  | line :: rest => P pre line && each_line P (pre ++ [line]) rest
  end.

(** A trace [structure] can digest: some byte is read; every byte-read
    line ends in an integer; every end of a OneOf comes after a byte
    read and closes a OneOf that is still open. *)
Definition structure_ok (t : trace) : bool :=
  existsb is_oneof_read t
  && each_line (fun pre line =>
                  (if is_oneof_read line then ends_in_int line else true)
                  && (if is_oneof_end line then
                        existsb is_oneof_read pre
                        && (count is_oneof_end pre <? count is_oneof_start pre)
                      else true)) [] t.

Definition is_read (line : string) : bool := contains "Reading byte at" line.
Definition is_multi_end (line : string) : bool :=
  contains "FINISHED MULTI-BYTE READ" line.
Definition is_conversion (line : string) : bool :=
  contains "Converting out-of-range value" line.

(** A trace [rangeConversions] can digest: every byte-read line and
    every conversion line ends in an integer; a multi-byte read ends
    only after a byte was read; a conversion is reported only after a
    multi-byte read has ended. *)
Definition conversions_ok (t : trace) : bool :=
  each_line (fun pre line =>
               (if is_read line then ends_in_int line else true)
               && (if is_multi_end line then existsb is_read (pre ++ [line])
                   else true)
               && (if is_conversion line then
                     ends_in_int line && existsb is_multi_end (pre ++ [line])
                   else true)) [] t.

(** A line with none of the markers [rangeConversions] looks for. *)
Definition unmarked (line : string) : bool :=
  negb (is_read line) && negb (contains "STARTING MULTI-BYTE READ" line)
  && negb (is_multi_end line) && negb (is_conversion line).


(** *** What a write to the output file rests on *)

Section Justification.

Variable args : Args.

(** [x] is the candidate [c] itself or its normalisation against its
    own trace [t], as [updateCurrent] computes it. *)
Definition derived (c : bytes) (t : trace) (x : bytes) : Prop :=
  x = c \/
  exists convs n,
    rangeConversions t = Ok convs /\
    fixRangeConversions (noStructure args) c convs = Ok (x, n).

(** [w] comes from a candidate that was run and accepted in [evs]: it is
    that candidate, possibly normalised, cut to a prefix and extended
    with zero bytes. *)
Definition justified (evs : list event) (w : bytes) : Prop :=
  exists c t x n k,
    In (Trial c t) evs /\ checks args t = true /\ derived c t x /\
    w = firstn n x ++ repeat 0 k.

(** Every write of the log is justified by the events before it (the
    log is newest first). *)
Definition writes_justified (evs : list event) : Prop :=
  forall later w earlier,
    evs = later ++ WriteOut w :: earlier -> justified earlier w.

Definition current_justified (st : State) : Prop :=
  exists c t x n,
    In (Trial c t) (events st) /\ checks args t = true /\ derived c t x /\
    currentTest st = firstn n x.

(** With [--noStructure], [s[1]] is the length of [currentTest]. *)
Definition length_tracked (st : State) : Prop :=
  noStructure args = true -> snd (s st) = len (currentTest st).

(** The invariant of the pass loop. *)
Definition Inv (st : State) : Prop :=
  writes_justified (events st) /\ current_justified st /\ length_tracked st.

(** What holds when a computation stops: the invariant where [main]
    goes on (a value, or the timeout it catches), the property of the
    log in any case. *)
Definition post {A : Type} (o : outcome A) (st : State) : Prop :=
  match o with
  | Val _ => Inv st
  | Exc TimeoutException => Inv st
  | _ => writes_justified (events st)
  end.

Definition safe {A : Type} (m : M A) : Prop :=
  forall st, Inv st -> post (fst (m st)) (snd (m st)).

End Justification.

(** *** Concrete runs *)

Definition args_with (timeout_seconds : Z) (no_structure : bool) : Args :=
  {| criteria := None; search := false; timeout := timeout_seconds;
     maxByteRange := 16; fast := false; slow := false; slowest := false;
     noStructure := no_structure; noPad := false |}.

(** A clock on which every call of [runCandidate] comes a second after
    the one before, and one on which it comes a millisecond after. *)
Definition second_per_trial (n : nat) : Q := inject_Z (Z.of_nat n).
Definition millisecond_per_trial (n : nat) : Q := Z.of_nat n # 1000.

(** A binary that fails after reading byte 0, whatever the input. *)
Definition reads_first_byte : nat -> bytes -> trace :=
  fun _ _ => ["Reading byte at 0"; "ERROR: Failed: boom"].

(** A binary that enters a OneOf in which no byte is read, between the
    reads of byte 0 and byte 9, and then fails. *)
Definition empty_oneof : nat -> bytes -> trace :=
  fun _ _ => ["Reading byte at 0"; "STARTING OneOf CALL";
              "FINISHED OneOf CALL"; "Reading byte at 9";
              "ERROR: Failed: boom"].

(** A binary that reads bytes 0 and 1 as one field, replaces its value
    by 3, and fails. *)
Definition clamps_first_field : nat -> bytes -> trace :=
  fun _ _ => ["STARTING MULTI-BYTE READ"; "Reading byte at 0";
              "Reading byte at 1"; "FINISHED MULTI-BYTE READ";
              "Converting out-of-range value to 3"; "Reading byte at 5";
              "ERROR: Failed: boom"].

(** A binary that fails on inputs of two bytes or more and prints
    nothing on shorter ones. *)
Definition needs_two_bytes : nat -> bytes -> trace :=
  fun _ c => if len c <? 2 then [] else ["ERROR: Failed: boom"].

(** A state of the pass loop: a ten-byte candidate with the single
    structural span [4,7]. *)
Definition span_state : State :=
  {| candidateRuns := 2; currentTest := [9; 9; 9; 9; 1; 2; 3; 4; 9; 9];
     s := ([(4, 7)], 9); r := []; initialSize := 10; candidate_file := [];
     output_test := None; events := [] |}.


(** *** What the parsers look at *)

(** A line that takes one of the three branches of [structure]. *)
Definition structure_marked (line : string) : bool :=
  is_oneof_start line || is_oneof_read line || is_oneof_end line.

(** The offsets of the byte-read lines [structure] sees, in order. *)
Fixpoint read_offsets (t : trace) : list Z :=
  match t with
  | [] => []
  | line :: rest =>
      if is_oneof_read line then
        match last_int line with
        | Ok n => n :: read_offsets rest
        | Raise _ => read_offsets rest
        end
      else read_offsets rest
  end.

(** The list never goes down and starts at [lo] or above. *)
Fixpoint nondecreasing_from (lo : Z) (l : list Z) : bool :=
  match l with
  | [] => true
  | x :: rest => (lo <=? x) && nondecreasing_from x rest
  end.

(** A span as [structure] records it for a OneOf: the start is the
    sentinel -1 (no byte was read inside) or an offset not after the
    end. *)
Definition span_ordered (c : Z * Z) : bool :=
  ((fst c =? -1) || ((0 <=? fst c) && (fst c <=? snd c))) && (0 <=? snd c).


(** The value of [lastRead], read as 0 before the first byte is read. *)
Definition last_or_zero (o : option Z) : Z :=
  match o with
  | Some n => n
  | None => 0
  end.


(** *** Invariants of the pass loop, in general *)

(** From a state in [I], the computation [m] ends in [I] with a value
    in [Q], or in [I] with the timeout [main] catches, or in [E] with
    anything else. *)
Definition ensures {A : Type} (I E : State -> Prop) (m : M A) (Q : A -> Prop)
  : Prop :=
  forall st, I st ->
    match fst (m st) with
    | Val a => I (snd (m st)) /\ Q a
    | Exc TimeoutException => I (snd (m st))
    | _ => E (snd (m st))
    end.

(** The output file holds the current candidate, or it was never
    written and the candidate is still the input. *)
Definition checkpointed (input : bytes) (st : State) : Prop :=
  output_test st = Some (currentTest st)
  \/ (output_test st = None /\ currentTest st = input).


(** *** The three writes of the output file *)

Section Writes.

Variable args : Args.
Variable input : bytes.

(** [fixRangeConversions(c, rangeConversions(t))]: the candidate [c]
    normalised against the trace [t]. *)
Definition fix_against (c : bytes) (t : trace) : res bytes :=
  match rangeConversions t with
  | Raise e => Raise e
  | Ok convs =>
      match fixRangeConversions (noStructure args) c convs with
      | Raise e => Raise e
      | Ok fixed => Ok (fst fixed)
      end
  end.

Definition is_write (e : event) : bool :=
  match e with
  | WriteOut _ => true
  | _ => false
  end.

Definition no_write (evs : list event) : Prop :=
  existsb is_write evs = false.

(** The head of the log is not the reading of the input file: the log
    is past the second trial of the startup. *)
Definition past_startup (evs : list event) : Prop :=
  hd_error evs <> Some ReadInput.

(** The write of [updateCurrent] (line 215): the event just before it
    is the trial of a proposed candidate [c], [checks] accepted the
    trace [t] of that trial, and the bytes written are [c] normalised
    against [t]. *)
Definition accepted_mutation (w : bytes) (earlier : list event) : Prop :=
  exists c t before,
    earlier = Trial c t :: before
    /\ past_startup before
    /\ checks args t = true
    /\ fix_against c t = Ok w.

(** The write before the loop (line 202): the input was run (trace
    [t1]), read and normalised against [t1]; the normalised input was
    run and [checks] accepted its trace; the bytes written are the
    normalised input cut to [lastRead + 1] bytes, [lastRead] being that
    of [t1], when that is shorter, and they differ from the input. *)
Definition startup_trim (w : bytes) (earlier : list event) : Prop :=
  exists t1 t2 fixed sv,
    earlier = [Trial fixed t2; ReadInput; Trial input t1]
    /\ fix_against input t1 = Ok fixed
    /\ checks args t2 = true
    /\ structure (noStructure args) fixed t1 = Ok sv
    /\ w = (if snd sv + 1 <? len fixed
            then slice_to fixed (snd sv + 1) else fixed)
    /\ w <> input.

(** What the loop ends with, read off the log: the candidate [cur] is
    the last sequence written and [sv] the structure of the trace that
    was accepted just before that write, or of the first trace when the
    last write is the one of the startup; when nothing was written, the
    candidate is the input and [sv] the structure of the first trace. *)
Definition loop_result (evs : list event) (cur : bytes)
           (sv : list (Z * Z) * Z) : Prop :=
  (exists later c t before,
      evs = later ++ WriteOut cur :: Trial c t :: before
      /\ no_write later /\ past_startup before
      /\ structure (noStructure args) cur t = Ok sv)
  \/ (exists later t1 t2 fixed,
        evs = later ++ WriteOut cur :: [Trial fixed t2; ReadInput;
                                        Trial input t1]
        /\ no_write later
        /\ structure (noStructure args) fixed t1 = Ok sv)
  \/ (exists later t1 t2,
        evs = later ++ [Trial input t2; ReadInput; Trial input t1]
        /\ no_write later /\ cur = input
        /\ structure (noStructure args) input t1 = Ok sv).

(** The number of zero bytes line 503 appends. *)
Definition padding (cur : bytes) (sv : list (Z * Z) * Z) : nat :=
  if noPad args then 0%nat else Z.to_nat (snd sv + 1 - len cur).

(** The final write (line 509): the candidate the loop ended with,
    followed by the padding. *)
Definition final_write (w : bytes) (earlier : list event) : Prop :=
  exists cur sv,
    loop_result earlier cur sv /\ w = cur ++ repeat 0 (padding cur sv).

(** Every write of a log is one of [updateCurrent] or the one of the
    startup. *)
Definition writes_accounted (evs : list event) : Prop :=
  forall later w earlier,
    evs = later ++ WriteOut w :: earlier ->
    accepted_mutation w earlier \/ startup_trim w earlier.

(** The invariant of the loop, on the log and the globals. *)
Definition accounted (st : State) : Prop :=
  writes_accounted (events st)
  /\ past_startup (events st)
  /\ loop_result (events st) (currentTest st) (s st).

End Writes.


(* ================================================================== *)
(** ** Lists, subscripts and slices: basic facts *)

Lemma len_nonneg (A : Type) (l : list A) : 0 <= len l.
Proof. unfold len. lia. Qed.

Lemma len_app (A : Type) (l1 l2 : list A) : len (l1 ++ l2) = len l1 + len l2.
Proof. unfold len. rewrite length_app. lia. Qed.

Lemma In_range (a b x : Z) : In x (range a b) <-> a <= x < b.
Proof.
  unfold range. rewrite in_map_iff. split.
  - intros [i [Hx Hi]]. apply in_seq in Hi. lia.
  - intros H. exists (Z.to_nat (x - a)). split; [lia|]. apply in_seq. lia.
Qed.

Lemma range_length (a b : Z) : List.length (range a b) = Z.to_nat (b - a).
Proof. unfold range. now rewrite length_map, length_seq. Qed.

Lemma nth_range (a b : Z) (i : nat) :
  (i < Z.to_nat (b - a))%nat -> nth i (range a b) 0 = a + Z.of_nat i.
Proof.
  intros H. unfold range.
  rewrite nth_indep with (d' := (fun i => a + Z.of_nat i) 0%nat)
    by (rewrite length_map, length_seq; exact H).
  rewrite (map_nth (fun i => a + Z.of_nat i)). now rewrite seq_nth.
Qed.

Lemma subscript_inside (n i : Z) :
  0 <= i < n -> subscript n i = Some (Z.to_nat i).
Proof.
  intros H. unfold subscript.
  replace ((0 <=? i) && (i <? n)) with true; [reflexivity|].
  symmetry. apply andb_true_iff. split; [apply Z.leb_le | apply Z.ltb_lt]; lia.
Qed.

Lemma subscript_bound (n i : Z) (k : nat) :
  subscript n i = Some k -> (Z.of_nat k < n).
Proof.
  unfold subscript.
  destruct ((0 <=? i) && (i <? n)) eqn:E1.
  - apply andb_true_iff in E1 as [H1 H2].
    apply Z.leb_le in H1. apply Z.ltb_lt in H2. intros [= <-]. lia.
  - destruct ((i <? 0) && (0 <=? i + n)) eqn:E2; [|discriminate].
    apply andb_true_iff in E2 as [H1 H2].
    apply Z.ltb_lt in H1. apply Z.leb_le in H2. intros [= <-]. lia.
Qed.

Lemma getitem_inside (l : bytes) (i : Z) :
  0 <= i < len l -> getitem l i = Some (nth (Z.to_nat i) l 0).
Proof.
  intros H. unfold getitem. rewrite subscript_inside by exact H.
  apply nth_error_nth'. unfold len in H. lia.
Qed.

Lemma update_nth_length (A : Type) (k : nat) (v : A) (l : list A) :
  List.length (update_nth k v l) = List.length l.
Proof.
  revert k. induction l as [|x l IH]; intros [|k]; simpl; auto.
Qed.

Lemma nth_update_nth (A : Type) (k i : nat) (v d : A) (l : list A) :
  (k < List.length l)%nat ->
  nth i (update_nth k v l) d = if Nat.eqb i k then v else nth i l d.
Proof.
  revert k i. induction l as [|x l IH]; intros k i H; simpl in H; [lia|].
  destruct k as [|k]; destruct i as [|i]; simpl; auto.
  apply IH. lia.
Qed.

Lemma nth_error_update_nth (A : Type) (k i : nat) (v : A) (l : list A) :
  (k < List.length l)%nat ->
  nth_error (update_nth k v l) i = if Nat.eqb i k then Some v else nth_error l i.
Proof.
  revert k i. induction l as [|x l IH]; intros k i H; simpl in H; [lia|].
  destruct k as [|k]; destruct i as [|i]; simpl; auto.
  apply IH. lia.
Qed.

Lemma bytes_eqb_eq (a b : bytes) : bytes_eqb a b = true <-> a = b.
Proof.
  revert b. induction a as [|x a IH]; intros [|y b]; simpl; split;
    try discriminate; auto.
  - intros H. apply andb_true_iff in H as [H1 H2].
    apply Z.eqb_eq in H1. apply IH in H2. congruence.
  - intros [= -> ->]. apply andb_true_iff. split.
    + apply Z.eqb_refl.
    + now apply IH.
Qed.

Lemma bytes_ok_Forall (l : bytes) :
  bytes_ok l <-> Forall (fun x => 0 <= x < 256) l.
Proof.
  unfold bytes_ok. rewrite forallb_forall, Forall_forall.
  split; intros H x Hx; specialize (H x Hx).
  - apply andb_true_iff in H as [H1 H2].
    apply Z.leb_le in H1. apply Z.ltb_lt in H2. lia.
  - apply andb_true_iff. split; [apply Z.leb_le | apply Z.ltb_lt]; lia.
Qed.

Lemma bytes_ok_update (k : nat) (v : Z) (l : bytes) :
  bytes_ok l -> 0 <= v < 256 -> bytes_ok (update_nth k v l).
Proof.
  rewrite !bytes_ok_Forall. intros H Hv. revert k.
  induction H as [|x l Hx Hl IH]; intros [|k]; simpl; constructor; auto.
Qed.

Lemma below_refl (a : bytes) : below a a.
Proof. induction a; constructor; auto. lia. Qed.

Lemma below_trans (a b c : bytes) : below a b -> below b c -> below a c.
Proof.
  unfold below. intros H. revert c.
  induction H as [|x y a b Hxy Hab IH]; intros c Hc; inversion Hc; subst;
    constructor; [lia | auto].
Qed.

Lemma below_length (a b : bytes) : below a b -> List.length a = List.length b.
Proof. unfold below. induction 1; simpl; congruence. Qed.

Lemma below_len (a b : bytes) : below a b -> len a = len b.
Proof. intros H. unfold len. now rewrite (below_length _ _ H). Qed.

Lemma below_nth_error (a b : bytes) (k : nat) (x y : Z) :
  below a b -> nth_error a k = Some x -> nth_error b k = Some y -> x <= y.
Proof.
  unfold below. intros H. revert k.
  induction H as [|x' y' a b Hxy Hab IH]; intros [|k]; simpl; try discriminate.
  - intros [= <-] [= <-]. exact Hxy.
  - apply IH.
Qed.

Lemma below_update (a b : bytes) (k : nat) (v y : Z) :
  below a b -> nth_error b k = Some y -> v <= y -> below (update_nth k v a) b.
Proof.
  unfold below. intros H. revert k.
  induction H as [|x' y' a b Hxy Hab IH]; intros [|k]; simpl; try discriminate.
  - intros [= <-] Hv. constructor; auto.
  - intros Hk Hv. constructor; [assumption | now apply IH].
Qed.

(* ================================================================== *)
(** ** [fixRangeConversions]: stores only lower bytes *)

Lemma bytes_ok_nth_error (l : bytes) (k : nat) (y : Z) :
  bytes_ok l -> nth_error l k = Some y -> 0 <= y < 256.
Proof.
  rewrite bytes_ok_Forall, Forall_forall. intros H Hk.
  apply H. eapply nth_error_In. exact Hk.
Qed.

Lemma setitem_inv (l l' : bytes) (i v : Z) :
  setitem l i v = Ok l' ->
  exists k, subscript (len l) i = Some k /\ 0 <= v < 256 /\ l' = update_nth k v l.
Proof.
  unfold setitem. destruct (subscript (len l) i) as [k|]; [|discriminate].
  destruct ((0 <=? v) && (v <? 256)) eqn:E; [|discriminate].
  intros [= <-]. exists k. repeat split; auto.
  - apply andb_true_iff in E as [H _]. now apply Z.leb_le.
  - apply andb_true_iff in E as [_ H]. now apply Z.ltb_lt.
Qed.

Lemma subscript_nth_error (l : bytes) (i : Z) (k : nat) :
  subscript (len l) i = Some k -> exists y, nth_error l k = Some y.
Proof.
  intros H. apply subscript_bound in H. unfold len in H.
  destruct (nth_error l k) as [y|] eqn:E; [now exists y|].
  apply nth_error_None in E. lia.
Qed.

Lemma setitem_below (l l' : bytes) (i v y : Z) :
  bytes_ok l -> setitem l i v = Ok l' ->
  getitem l i = Some y -> v <= y ->
  bytes_ok l' /\ below l' l.
Proof.
  intros Hok Hset Hget Hv.
  apply setitem_inv in Hset as [k [Hk [Hr ->]]].
  unfold getitem in Hget. rewrite Hk in Hget. split.
  - now apply bytes_ok_update.
  - eapply below_update; eauto using below_refl.
Qed.

Lemma zero_range_below (bs : list Z) : forall (t t' : bytes),
  bytes_ok t -> zero_range t bs = Ok t' -> bytes_ok t' /\ below t' t.
Proof.
  induction bs as [|b bs IH]; simpl; intros t t' Hok H.
  - injection H as <-. split; [assumption | apply below_refl].
  - destruct (setitem t b 0) as [t1|] eqn:E; simpl in H; [|discriminate].
    pose proof E as E'.
    apply setitem_inv in E' as [k [Hk _]].
    destruct (subscript_nth_error _ _ _ Hk) as [y Hy].
    assert (Hget : getitem t b = Some y) by (unfold getitem; now rewrite Hk).
    pose proof (bytes_ok_nth_error _ _ _ Hok Hy) as Hy'.
    destruct (setitem_below _ _ _ _ _ Hok E Hget) as [Hok1 Hb1]; [lia|].
    destruct (IH _ _ Hok1 H) as [Hok' Hb'].
    split; [assumption | eapply below_trans; eauto].
Qed.

(** What one round of the loop of [fixRangeConversions] does. *)
Lemma fix_loop_cons (test : bytes) (n : Z) (pos : group) (value : Z)
      (rest : list conversion) (t' : bytes) (n' : Z) :
  fix_loop test n ((pos, value) :: rest) = Ok (t', n') ->
  (len test <= snd pos /\ t' = test /\ n' = n)
  \/ (snd pos < len test /\ fix_loop test n rest = Ok (t', n')
      /\ (255 <= value
          \/ exists x, getitem test (snd pos) = Some x /\ x <= value))
  \/ (snd pos < len test /\ value < 255
      /\ exists x first t1 t2,
           getitem test (snd pos) = Some x /\ value < x
           /\ fst pos = Some first
           /\ zero_range test (range first (snd pos)) = Ok t1
           /\ setitem t1 (snd pos) value = Ok t2
           /\ fix_loop t2 (n + 1) rest = Ok (t', n')).
Proof.
  simpl. destruct (len test <=? snd pos) eqn:E.
  - intros [= <- <-]. left. apply Z.leb_le in E. auto.
  - apply Z.leb_gt in E. destruct (value <? 255) eqn:Ev.
    + apply Z.ltb_lt in Ev.
      destruct (getitem test (snd pos)) as [x|] eqn:Eg; simpl; [|discriminate].
      destruct (value <? x) eqn:Ex.
      * apply Z.ltb_lt in Ex.
        destruct (fst pos) as [first|]; simpl; [|discriminate].
        destruct (zero_range test (range first (snd pos))) as [t1|] eqn:Ez;
          simpl; [|discriminate].
        destruct (setitem t1 (snd pos) value) as [t2|] eqn:Es;
          simpl; [|discriminate].
        intros H. right. right. split; [lia|]. split; [lia|].
        exists x, first, t1, t2. repeat split; assumption.
      * apply Z.ltb_ge in Ex. intros H. right. left.
        split; [lia|]. split; [assumption|].
        right. exists x. split; [reflexivity | lia].
    + apply Z.ltb_ge in Ev. simpl. intros H. right. left.
      split; [lia|]. split; [assumption|]. left. lia.
Qed.

Lemma fix_round_below (test t1 t2 : bytes) (first last value x : Z) :
  bytes_ok test ->
  getitem test last = Some x -> value < x ->
  zero_range test (range first last) = Ok t1 ->
  setitem t1 last value = Ok t2 ->
  bytes_ok t2 /\ below t2 test /\ getitem t2 last = Some value.
Proof.
  intros Hok Hg Hv Hz Hs.
  destruct (zero_range_below _ _ _ Hok Hz) as [Hok1 Hb1].
  apply setitem_inv in Hs as [k [Hk [Hr ->]]].
  assert (Hk' : subscript (len test) last = Some k)
    by (rewrite <- (below_len _ _ Hb1); exact Hk).
  unfold getitem in Hg. rewrite Hk' in Hg.
  repeat split.
  - now apply bytes_ok_update.
  - eapply below_update; eauto. lia.
  - unfold getitem. unfold len. rewrite update_nth_length. fold (len t1).
    rewrite Hk. rewrite nth_error_update_nth, Nat.eqb_refl; [reflexivity|].
    apply subscript_bound in Hk. unfold len in Hk. lia.
Qed.

Lemma fix_loop_below (convs : list conversion) :
  forall (t : bytes) (n : Z) (t' : bytes) (n' : Z),
    bytes_ok t -> fix_loop t n convs = Ok (t', n') ->
    bytes_ok t' /\ below t' t /\ n <= n' /\ (n' = n -> t' = t).
Proof.
  induction convs as [|[pos value] rest IH]; intros t n t' n' Hok H.
  - simpl in H. injection H as <- <-.
    repeat split; auto using below_refl. lia.
  - apply fix_loop_cons in H
      as [[_ [-> ->]] | [[_ [H _]] | [_ [_ [x [first [t1 [t2 H]]]]]]]].
    + repeat split; auto using below_refl. lia.
    + now apply IH.
    + destruct H as [Hg [Hx [_ [Hz [Hs H]]]]].
      destruct (fix_round_below _ _ _ _ _ _ _ Hok Hg Hx Hz Hs) as [Hok2 [Hb2 _]].
      destruct (IH _ _ _ _ Hok2 H) as [Hok' [Hb' [Hn Heq]]].
      repeat split; auto.
      * eapply below_trans; eauto.
      * lia.
      * intros ->. lia.
Qed.

Lemma getitem_below (a b : bytes) (i x : Z) :
  below a b -> getitem b i = Some x -> exists y, getitem a i = Some y /\ y <= x.
Proof.
  intros Hb. unfold getitem. rewrite (below_len _ _ Hb).
  destruct (subscript (len b) i) as [k|] eqn:Ek; [|discriminate].
  intros Hx.
  rewrite <- (below_len _ _ Hb) in Ek.
  destruct (subscript_nth_error _ _ _ Ek) as [y Hy].
  exists y. split; [assumption|]. eapply below_nth_error; eauto.
Qed.

(** After a run of the loop, no conversion of the list applies to the
    result or to anything below it. *)
Lemma fix_loop_settled (convs : list conversion) :
  forall (t : bytes) (n : Z) (t' : bytes) (n' : Z),
    bytes_ok t -> fix_loop t n convs = Ok (t', n') ->
    forall (u : bytes) (m : Z), below u t' -> fix_loop u m convs = Ok (u, m).
Proof.
  induction convs as [|[pos value] rest IH]; intros t n t' n' Hok H u m Hu.
  - reflexivity.
  - pose proof (below_len _ _ Hu) as Hlen.
    apply fix_loop_cons in H
      as [[Hout [-> ->]] | [[Hin [H Hc]] | [Hin [Hv [x [first [t1 [t2 H]]]]]]]].
    + simpl. replace (len u <=? snd pos) with true; [reflexivity|].
      symmetry. apply Z.leb_le. lia.
    + destruct (fix_loop_below _ _ _ _ _ Hok H) as [_ [Hb _]].
      pose proof (below_len _ _ Hb) as Hlen'.
      simpl. replace (len u <=? snd pos) with false
        by (symmetry; apply Z.leb_gt; lia).
      destruct Hc as [Hc | [x [Hg Hx]]].
      * replace (value <? 255) with false by (symmetry; apply Z.ltb_ge; lia).
        simpl. eapply IH; eauto.
      * destruct (value <? 255); simpl; [|eapply IH; eauto].
        destruct (getitem_below _ _ _ _ (below_trans _ _ _ Hu Hb) Hg) as [y [Hy Hyx]].
        rewrite Hy. simpl.
        replace (value <? y) with false by (symmetry; apply Z.ltb_ge; lia).
        eapply IH; eauto.
    + destruct H as [Hg [Hx [_ [Hz [Hs H]]]]].
      destruct (fix_round_below _ _ _ _ _ _ _ Hok Hg Hx Hz Hs) as [Hok2 [Hb2 Hg2]].
      destruct (fix_loop_below _ _ _ _ _ Hok2 H) as [_ [Hb _]].
      pose proof (below_len _ _ Hb) as Hlen'. pose proof (below_len _ _ Hb2) as Hlen2.
      simpl. replace (len u <=? snd pos) with false
        by (symmetry; apply Z.leb_gt; lia).
      replace (value <? 255) with true by (symmetry; apply Z.ltb_lt; lia).
      destruct (getitem_below _ _ _ _ (below_trans _ _ _ Hu Hb) Hg2) as [y [Hy Hyx]].
      rewrite Hy. simpl.
      replace (value <? y) with false by (symmetry; apply Z.ltb_ge; lia).
      eapply IH; eauto.
Qed.

Lemma fix_loop_consistent (convs : list conversion) :
  forall (t : bytes) (n : Z),
    consistent t convs -> fix_loop t n convs = Ok (t, n).
Proof.
  induction convs as [|[[first last] value] rest IH]; intros t n Hc.
  - reflexivity.
  - unfold consistent in Hc. simpl in Hc.
    apply andb_true_iff in Hc as [Hc Hrest].
    simpl. destruct (len t <=? last) eqn:E; [reflexivity|].
    apply Z.leb_gt in E.
    replace (last <? len t) with true in Hc by (symmetry; apply Z.ltb_lt; lia).
    apply andb_true_iff in Hc as [Hg _]. unfold holds in Hg.
    destruct (value <? 255); simpl.
    + destruct (getitem t last) as [x|]; [|discriminate].
      apply Z.eqb_eq in Hg. subst x. simpl. rewrite Z.ltb_irrefl. now apply IH.
    + now apply IH.
Qed.

(* ================================================================== *)
(** ** [fixRangeConversions] against the normalisation as specified *)

Lemma setitem_inside (l : bytes) (i v : Z) :
  0 <= i < len l -> 0 <= v < 256 ->
  setitem l i v = Ok (update_nth (Z.to_nat i) v l).
Proof.
  intros Hi Hv. unfold setitem. rewrite subscript_inside by exact Hi.
  replace ((0 <=? v) && (v <? 256)) with true; [reflexivity|].
  symmetry. apply andb_true_iff. split; [apply Z.leb_le | apply Z.ltb_lt]; lia.
Qed.

Lemma zero_range_inside (bs : list Z) : forall t : bytes,
  (forall b, In b bs -> 0 <= b < len t) ->
  exists t',
    zero_range t bs = Ok t' /\ List.length t' = List.length t /\
    forall i, nth i t' 0 =
              if existsb (Z.eqb (Z.of_nat i)) bs then 0 else nth i t 0.
Proof.
  induction bs as [|b bs IH]; intros t Hin.
  - exists t. repeat split.
  - assert (Hb : 0 <= b < len t) by (apply Hin; now left).
    simpl. rewrite setitem_inside by lia. simpl.
    destruct (IH (update_nth (Z.to_nat b) 0 t)) as [t' [Hz [Hl Hn]]].
    { intros b' Hb'. unfold len. rewrite update_nth_length.
      apply Hin. now right. }
    exists t'. split; [exact Hz|]. split.
    + now rewrite Hl, update_nth_length.
    + intros i. rewrite Hn.
      rewrite nth_update_nth by (unfold len in Hb; lia).
      destruct (Z.of_nat i =? b) eqn:E.
      * apply Z.eqb_eq in E. simpl.
        replace (Nat.eqb i (Z.to_nat b)) with true
          by (symmetry; apply Nat.eqb_eq; lia).
        now destruct (existsb _ bs).
      * apply Z.eqb_neq in E. simpl.
        replace (Nat.eqb i (Z.to_nat b)) with false
          by (symmetry; apply Nat.eqb_neq; lia).
        reflexivity.
Qed.

Lemma existsb_range (a b x : Z) :
  existsb (Z.eqb x) (range a b) = (a <=? x) && (x <? b).
Proof.
  destruct ((a <=? x) && (x <? b)) eqn:E.
  - apply andb_true_iff in E as [H1 H2].
    apply Z.leb_le in H1. apply Z.ltb_lt in H2.
    apply existsb_exists. exists x. split.
    + apply In_range. lia.
    + apply Z.eqb_refl.
  - destruct (existsb (Z.eqb x) (range a b)) eqn:E'; [|reflexivity].
    apply existsb_exists in E' as [y [Hy Hxy]].
    apply Z.eqb_eq in Hxy. subst y. apply In_range in Hy.
    apply andb_false_iff in E as [H | H].
    + apply Z.leb_gt in H. lia.
    + apply Z.ltb_ge in H. lia.
Qed.

Lemma normalised_length (test : bytes) (c : plain_conversion) :
  List.length (normalised test c) = List.length test.
Proof.
  destruct c as [[first last] value]. unfold normalised.
  rewrite length_map, range_length. unfold len. lia.
Qed.

Lemma nth_normalised (test : bytes) (first last value : Z) (i : nat) :
  (i < List.length test)%nat ->
  nth i (normalised test ((first, last), value)) 0 =
  if (first <=? Z.of_nat i) && (Z.of_nat i <? last) then 0
  else if Z.of_nat i =? last then value
  else nth i test 0.
Proof.
  intros Hi. unfold normalised.
  set (f := fun j : Z => if (first <=? j) && (j <? last) then 0
                         else if j =? last then value
                         else nth (Z.to_nat j) test 0).
  rewrite nth_indep with (d' := f 0)
    by (rewrite length_map, range_length; unfold len; lia).
  rewrite (map_nth f). rewrite nth_range by (unfold len; lia).
  unfold f. simpl. now rewrite Nat2Z.id.
Qed.

(** One applied conversion: the zeroing loop and the store of the value
    produce the candidate the specification describes. *)
Lemma fix_round_normalised (test : bytes) (first last value : Z) :
  0 <= first -> 0 <= last < len test -> 0 <= value < 256 ->
  exists t1,
    zero_range test (range first last) = Ok t1 /\
    setitem t1 last value = Ok (normalised test ((first, last), value)).
Proof.
  intros Hf Hl Hv.
  destruct (zero_range_inside (range first last) test) as [t1 [Hz [Hlen Hn]]].
  { intros b Hb. apply In_range in Hb. lia. }
  exists t1. split; [exact Hz|].
  rewrite setitem_inside by (unfold len in *; rewrite ?Hlen; lia).
  f_equal. apply nth_ext with (d := 0) (d' := 0).
  - now rewrite update_nth_length, normalised_length.
  - intros i Hi. rewrite update_nth_length, Hlen in Hi.
    rewrite nth_update_nth by (unfold len in Hl; lia).
    rewrite nth_normalised by exact Hi.
    rewrite Hn, existsb_range.
    destruct (Nat.eqb i (Z.to_nat last)) eqn:E.
    + apply Nat.eqb_eq in E.
      replace ((first <=? Z.of_nat i) && (Z.of_nat i <? last)) with false
        by (symmetry; apply andb_false_iff; right; apply Z.ltb_ge; lia).
      replace (Z.of_nat i =? last) with true
        by (symmetry; apply Z.eqb_eq; lia).
      reflexivity.
    + apply Nat.eqb_neq in E.
      replace (Z.of_nat i =? last) with false
        by (symmetry; apply Z.eqb_neq; lia).
      reflexivity.
Qed.

Lemma bytes_ok_nth (test : bytes) (i : nat) :
  bytes_ok test -> 0 <= nth i test 0 < 256.
Proof.
  intros H. destruct (nth_error test i) as [y|] eqn:E.
  - rewrite (nth_error_nth _ _ 0 E). eapply bytes_ok_nth_error; eauto.
  - apply nth_error_None in E. rewrite nth_overflow by exact E. lia.
Qed.

Lemma bytes_ok_normalised (test : bytes) (c : plain_conversion) :
  bytes_ok test -> 0 <= snd c < 256 -> bytes_ok (normalised test c).
Proof.
  destruct c as [[first last] value]. simpl. intros Hok Hv.
  apply bytes_ok_Forall. unfold normalised. apply Forall_forall. intros x Hx.
  apply in_map_iff in Hx as [i [<- _]].
  destruct ((first <=? i) && (i <? last)); [lia|].
  destruct (i =? last); [lia|]. now apply bytes_ok_nth.
Qed.

(** The loop agrees with the specified normalisation of the conversions
    that come before the first out-of-bounds one. *)
Lemma fix_loop_normalise (convs : list plain_conversion) :
  forall (test : bytes) (n : Z),
    bytes_ok test -> all_plain_ok convs ->
    exists n',
      fix_loop test n (map recorded convs)
      = Ok (normalise_all test (before_out_of_bounds (len test) convs), n').
Proof.
  induction convs as [|[[first last] value] rest IH]; intros test n Hok Hall.
  - exists n. reflexivity.
  - unfold all_plain_ok in Hall. simpl in Hall.
    apply andb_true_iff in Hall as [Hc Hrest]. unfold plain_ok in Hc. simpl in Hc.
    apply andb_true_iff in Hc as [Hc Hv]. apply andb_true_iff in Hc as [Hf Hl].
    apply Z.leb_le in Hf, Hl, Hv.
    simpl. destruct (len test <=? last) eqn:E.
    + exists n. reflexivity.
    + apply Z.leb_gt in E.
      pose proof (bytes_ok_nth test (Z.to_nat last) Hok) as Hbyte.
      rewrite getitem_inside by lia. simpl.
      unfold normalise_all. simpl. unfold normalise_step at 2. simpl.
      replace (last <? len test) with true by (symmetry; apply Z.ltb_lt; lia).
      simpl.
      destruct (value <? nth (Z.to_nat last) test 0) eqn:Ev.
      * apply Z.ltb_lt in Ev.
        replace (value <? 255) with true by (symmetry; apply Z.ltb_lt; lia).
        simpl.
        destruct (fix_round_normalised test first last value)
          as [t1 [Hz Hs]]; try lia.
        rewrite Hz. simpl. rewrite Hs. simpl.
        destruct (IH (normalised test (first, last, value)) (n + 1))
          as [n' Hn']; [apply bytes_ok_normalised; simpl; auto; lia | assumption |].
        unfold len in Hn'. rewrite normalised_length in Hn'.
        exists n'. exact Hn'.
      * destruct (IH test n Hok Hrest) as [n' Hn'].
        exists n'. destruct (value <? 255); simpl; exact Hn'.
Qed.

(** C5, as stated, fails: the loop of [fixRangeConversions] leaves at the
    first conversion whose end is outside the candidate ([break]), so a
    later conversion that is inside is not applied.  On the two-byte
    candidate [5, 5] with conversions [((0,5),1)] and [((0,1),2)] the
    code changes nothing, while processing every conversion gives
    [0, 2]. *)
Lemma fixRangeConversions_breaks_at_out_of_bounds :
  fixRangeConversions false [5; 5] (map recorded [((0, 5), 1); ((0, 1), 2)])
  = Ok ([5; 5], 0)
  /\ normalise_all [5; 5] [((0, 5), 1); ((0, 1), 2)] = [0; 2]
  /\ ~ (exists n,
          fixRangeConversions false [5; 5]
            (map recorded [((0, 5), 1); ((0, 1), 2)])
          = Ok (normalise_all [5; 5] [((0, 5), 1); ((0, 1), 2)], n)).
Proof.
  split; [reflexivity|]. split; [reflexivity|].
  intros [n H]. vm_compute in H. discriminate H.
Qed.

(** C5, amended: on a candidate of bytes and conversions with
    non-negative offsets and values, [fixRangeConversions] applies the
    specified normalisation, in order, to the conversions that come
    before the first one whose end is outside the candidate, and to no
    other; with [--noStructure] it changes nothing. *)
Theorem fixRangeConversions_normalises_until_out_of_bounds
        (test : bytes) (convs : list plain_conversion) :
  bytes_ok test -> all_plain_ok convs ->
  (exists n,
     fixRangeConversions false test (map recorded convs)
     = Ok (normalise_all test (before_out_of_bounds (len test) convs), n))
  /\ fixRangeConversions true test (map recorded convs) = Ok (test, 0).
Proof.
  intros Hok Hall. split; [|reflexivity].
  unfold fixRangeConversions. now apply fix_loop_normalise.
Qed.

Lemma fixRangeConversions_normalises_until_out_of_bounds_witness :
  bytes_ok [5; 9; 9; 7] /\
  all_plain_ok [((0, 1), 3); ((1, 3), 2); ((0, 7), 1); ((0, 2), 0)] /\
  (exists n,
     fixRangeConversions false [5; 9; 9; 7]
       (map recorded [((0, 1), 3); ((1, 3), 2); ((0, 7), 1); ((0, 2), 0)])
     = Ok (normalise_all [5; 9; 9; 7]
             (before_out_of_bounds (len [5; 9; 9; 7])
                [((0, 1), 3); ((1, 3), 2); ((0, 7), 1); ((0, 2), 0)]), n)) /\
  normalise_all [5; 9; 9; 7]
    (before_out_of_bounds (len [5; 9; 9; 7])
       [((0, 1), 3); ((1, 3), 2); ((0, 7), 1); ((0, 2), 0)]) = [0; 0; 0; 2].
Proof.
  split; [reflexivity|]. split; [reflexivity|]. split; [|reflexivity].
  apply (fixRangeConversions_normalises_until_out_of_bounds
           [5; 9; 9; 7] [((0, 1), 3); ((1, 3), 2); ((0, 7), 1); ((0, 2), 0)]);
    reflexivity.
Defined.

(** C6: [fixRangeConversions] changes nothing on a candidate whose
    conversions are already consistent, and a second application with
    the same conversion list changes nothing either. *)
Theorem fixRangeConversions_idempotent
        (noStructure : bool) (test : bytes) (convs : list conversion) :
  (consistent test convs ->
   fixRangeConversions noStructure test convs = Ok (test, 0))
  /\ (bytes_ok test ->
      forall (fixed : bytes) (n : Z),
        fixRangeConversions noStructure test convs = Ok (fixed, n) ->
        fixRangeConversions noStructure fixed convs = Ok (fixed, 0)).
Proof.
  unfold fixRangeConversions. destruct noStructure.
  - split; [reflexivity|]. intros _ fixed n [= <- <-]. reflexivity.
  - split.
    + apply fix_loop_consistent.
    + intros Hok fixed n H.
      eapply fix_loop_settled; eauto using below_refl.
Qed.

Lemma fixRangeConversions_idempotent_witness :
  (consistent [0; 3; 8] [((Some 0, 1), 3); ((Some 1, 9), 4)] /\
   fixRangeConversions false [0; 3; 8] [((Some 0, 1), 3); ((Some 1, 9), 4)]
   = Ok ([0; 3; 8], 0))
  /\ (bytes_ok [7; 9; 8] /\
      fixRangeConversions false [7; 9; 8] [((Some 0, 1), 3); ((Some 1, 2), 4)]
      = Ok ([0; 0; 4], 2) /\
      fixRangeConversions false [0; 0; 4] [((Some 0, 1), 3); ((Some 1, 2), 4)]
      = Ok ([0; 0; 4], 0)).
Proof.
  split.
  - split; [reflexivity|].
    apply (proj1 (fixRangeConversions_idempotent
                    false [0; 3; 8] [((Some 0, 1), 3); ((Some 1, 9), 4)])).
    reflexivity.
  - split; [reflexivity|]. split; [reflexivity|].
    apply (proj2 (fixRangeConversions_idempotent
                    false [7; 9; 8] [((Some 0, 1), 3); ((Some 1, 2), 4)])
                 eq_refl [0; 0; 4] 2).
    reflexivity.
Defined.

(* ================================================================== *)
(** ** The feedback parsers on well-formed traces *)

Lemma last_item_snoc (A : Type) (l : list A) (x : A) : last_item (l ++ [x]) = Some x.
Proof.
  induction l as [|y l IH]; [reflexivity|].
  simpl. destruct (l ++ [x]) eqn:E; [|exact IH].
  destruct l; discriminate.
Qed.

Lemma last_item_some (A : Type) (l : list A) :
  0 < len l -> exists x, last_item l = Some x.
Proof.
  induction l as [|y l IH]; unfold len; simpl; [lia|].
  intros _. destruct l as [|z l]; [now exists y|].
  apply IH. unfold len. simpl. lia.
Qed.

Lemma len_set_last (A : Type) (l : list A) (v : A) : len (set_last l v) = len l.
Proof.
  unfold len. f_equal.
  induction l as [|y l IH]; [reflexivity|].
  destruct l as [|z l]; [reflexivity|].
  change (S (List.length (set_last (z :: l) v)) = S (List.length (z :: l))).
  f_equal. exact IH.
Qed.

Lemma len_removelast (A : Type) (l : list A) :
  0 < len l -> len (removelast l) = len l - 1.
Proof.
  assert (H : List.length (removelast l) = pred (List.length l)).
  { induction l as [|y l IH]; [reflexivity|].
    destruct l as [|z l]; [reflexivity|].
    change (S (List.length (removelast (z :: l))) = S (List.length l)).
    rewrite IH. reflexivity. }
  unfold len. rewrite H. lia.
Qed.

Lemma len_snoc (A : Type) (l : list A) (x : A) : len (l ++ [x]) = len l + 1.
Proof. rewrite len_app. reflexivity. Qed.

Lemma count_snoc (p : string -> bool) (pre : trace) (line : string) :
  count p (pre ++ [line]) = count p pre + (if p line then 1 else 0).
Proof.
  unfold count. rewrite filter_app, len_app. simpl.
  destruct (p line); reflexivity.
Qed.

Lemma existsb_snoc (p : string -> bool) (pre : trace) (line : string) :
  existsb p (pre ++ [line]) = existsb p pre || p line.
Proof. rewrite existsb_app. simpl. now rewrite orb_false_r. Qed.

Lemma ends_in_int_ok (line : string) :
  ends_in_int line = true -> exists n, last_int line = Ok n.
Proof.
  unfold ends_in_int. destruct (last_int line) as [n|]; [|discriminate].
  intros _. now exists n.
Qed.

Lemma structure_line_branch (v : structure_vars) (line : string) :
  (is_oneof_start line = true /\ is_oneof_read line = false
   /\ is_oneof_end line = false
   /\ structure_line v line
      = Ok {| OneOfs := OneOfs v;
              currentOneOf := currentOneOf v ++ [-1];
              lastRead := lastRead v |})
  \/ (is_oneof_start line = false /\ is_oneof_read line = true
      /\ is_oneof_end line = false
      /\ structure_line v line
         = rbind (last_int line) (fun n =>
             Ok {| OneOfs := OneOfs v;
                   currentOneOf :=
                     match last_item (currentOneOf v) with
                     | Some top => if top =? -1 then set_last (currentOneOf v) n
                                   else currentOneOf v
                     | None => currentOneOf v
                     end;
                   lastRead := Some n |}))
  \/ (is_oneof_start line = false /\ is_oneof_read line = false
      /\ is_oneof_end line = true
      /\ structure_line v line
         = rbind (of_option IndexError (last_item (currentOneOf v))) (fun top =>
           rbind (of_option UnboundLocalError (lastRead v)) (fun lr =>
             Ok {| OneOfs := OneOfs v ++ [(top, lr)];
                   currentOneOf := removelast (currentOneOf v);
                   lastRead := lastRead v |})))
  \/ (is_oneof_start line = false /\ is_oneof_read line = false
      /\ is_oneof_end line = false /\ structure_line v line = Ok v).
Proof.
  unfold structure_line, is_oneof_read, is_oneof_end, is_oneof_start.
  destruct (contains "STARTING OneOf CALL" line);
    [left; repeat split|right].
  destruct (contains "Reading byte at" line);
    [left; repeat split|right].
  destruct (contains "FINISHED OneOf CALL" line);
    [left; repeat split|right; repeat split].
Qed.

Lemma structure_loop_total (t : trace) :
  forall (pre : trace) (v : structure_vars),
    len (currentOneOf v) = count is_oneof_start pre - count is_oneof_end pre ->
    (existsb is_oneof_read pre = true -> lastRead v <> None) ->
    each_line (fun pre line =>
                 (if is_oneof_read line then ends_in_int line else true)
                 && (if is_oneof_end line then
                       existsb is_oneof_read pre
                       && (count is_oneof_end pre <? count is_oneof_start pre)
                     else true)) pre t = true ->
    exists v',
      structure_loop v t = Ok v' /\
      (existsb is_oneof_read (pre ++ t) = true -> lastRead v' <> None).
Proof.
  induction t as [|line rest IH]; intros pre v Hdepth Hread Hall.
  - exists v. rewrite app_nil_r. split; [reflexivity | exact Hread].
  - simpl in Hall. apply andb_true_iff in Hall as [Hline Hrest].
    apply andb_true_iff in Hline as [Hint Hend].
    replace (pre ++ line :: rest) with ((pre ++ [line]) ++ rest)
      by (rewrite <- app_assoc; reflexivity).
    simpl.
    destruct (structure_line_branch v line)
      as [[Es [Er [Ee Hv]]] | [[Es [Er [Ee Hv]]] | [[Es [Er [Ee Hv]]]
          | [Es [Er [Ee Hv]]]]]];
      rewrite Hv; rewrite Er in Hint; rewrite Ee in Hend.
    + simpl. apply IH; [| |exact Hrest]; simpl.
      * rewrite len_snoc, !count_snoc, Es, Ee. lia.
      * rewrite existsb_snoc, Er, orb_false_r. exact Hread.
    + destruct (ends_in_int_ok _ Hint) as [n Hn]. rewrite Hn. simpl.
      apply IH; [| |exact Hrest]; simpl.
      * rewrite !count_snoc, Es, Ee.
        destruct (last_item (currentOneOf v)) as [top|]; [|lia].
        destruct (top =? -1); [rewrite len_set_last|]; lia.
      * intros _. discriminate.
    + apply andb_true_iff in Hend as [Hr Hc]. apply Z.ltb_lt in Hc.
      assert (Hpos : 0 < len (currentOneOf v)) by lia.
      destruct (last_item_some _ _ Hpos) as [top Htop]. rewrite Htop.
      simpl. destruct (lastRead v) as [lr|] eqn:El;
        [|now destruct (Hread Hr)].
      simpl. apply IH; [| |exact Hrest]; simpl.
      * rewrite len_removelast by exact Hpos.
        rewrite !count_snoc, Es, Ee. lia.
      * intros _. discriminate.
    + simpl. apply IH; [| |exact Hrest].
      * rewrite !count_snoc, Es, Ee. lia.
      * rewrite existsb_snoc, Er, orb_false_r. exact Hread.
Qed.

Lemma conv_line_total (v : conv_vars) (line : string) (pre : trace) :
  (existsb is_read pre = true -> rc_lastRead v <> None) ->
  (existsb is_multi_end pre = true -> currentMulti v <> None) ->
  (if is_read line then ends_in_int line else true)
  && (if is_multi_end line then existsb is_read (pre ++ [line]) else true)
  && (if is_conversion line then
        ends_in_int line && existsb is_multi_end (pre ++ [line])
      else true) = true ->
  exists v',
    conv_line v line = Ok v' /\
    (existsb is_read (pre ++ [line]) = true -> rc_lastRead v' <> None) /\
    (existsb is_multi_end (pre ++ [line]) = true -> currentMulti v' <> None).
Proof.
  intros Hlr Hcm HP.
  apply andb_true_iff in HP as [HP Hconv].
  apply andb_true_iff in HP as [Hint Hme].
  rewrite !existsb_snoc in *.
  unfold conv_line.
  change (contains "Reading byte at" line) with (is_read line).
  change (contains "FINISHED MULTI-BYTE READ" line) with (is_multi_end line).
  change (contains "Converting out-of-range value" line)
    with (is_conversion line).
  assert (Hlr' : exists lr,
             (if is_read line then rbind (last_int line) (fun n => Ok (Some n))
              else Ok (rc_lastRead v)) = Ok lr
             /\ (existsb is_read pre || is_read line = true -> lr <> None)).
  { destruct (is_read line) eqn:Er.
    - destruct (ends_in_int_ok _ Hint) as [n Hn]. rewrite Hn.
      exists (Some n). split; [reflexivity | intros _; discriminate].
    - exists (rc_lastRead v). split; [reflexivity|].
      now rewrite orb_false_r. }
  destruct Hlr' as [lr [-> Hlr']]. simpl.
  set (started := if contains "STARTING MULTI-BYTE READ" line then true
                  else startedMulti v).
  set (first := if started
                   && match multiFirst v with None => true | Some _ => false end
                   && is_read line then lr else multiFirst v).
  destruct (is_multi_end line) eqn:Em.
  - destruct lr as [l|]; [|now destruct (Hlr' Hme)]. simpl.
    destruct (is_conversion line) eqn:Ec; simpl.
    + apply andb_true_iff in Hconv as [Hint' _].
      destruct (ends_in_int_ok _ Hint') as [n Hn]. rewrite Hn. simpl.
      eexists. split; [reflexivity|]. simpl.
      split; intros _; discriminate.
    + eexists. split; [reflexivity|]. simpl.
      split; intros _; discriminate.
  - simpl. rewrite orb_false_r.
    destruct (is_conversion line) eqn:Ec; simpl.
    + apply andb_true_iff in Hconv as [Hint' Hm].
      rewrite orb_false_r in Hm.
      destruct (currentMulti v) as [g|] eqn:Eg; [|now destruct (Hcm Hm)].
      simpl.
      destruct (ends_in_int_ok _ Hint') as [n Hn]. rewrite Hn. simpl.
      eexists. split; [reflexivity|]. simpl.
      split; [exact Hlr' | intros _; discriminate].
    + eexists. split; [reflexivity|]. simpl.
      split; [exact Hlr' | exact Hcm].
Qed.

Lemma conv_loop_total (t : trace) :
  forall (pre : trace) (v : conv_vars),
    (existsb is_read pre = true -> rc_lastRead v <> None) ->
    (existsb is_multi_end pre = true -> currentMulti v <> None) ->
    each_line (fun pre line =>
                 (if is_read line then ends_in_int line else true)
                 && (if is_multi_end line then existsb is_read (pre ++ [line])
                     else true)
                 && (if is_conversion line then
                       ends_in_int line && existsb is_multi_end (pre ++ [line])
                     else true)) pre t = true ->
    exists v', conv_loop v t = Ok v'.
Proof.
  induction t as [|line rest IH]; intros pre v Hlr Hcm Hall.
  - now exists v.
  - simpl in Hall. apply andb_true_iff in Hall as [Hline Hrest].
    destruct (conv_line_total v line pre Hlr Hcm Hline) as [v1 [Hv1 [Hlr1 Hcm1]]].
    simpl. rewrite Hv1. simpl. eapply IH; eauto.
Qed.

Lemma conv_line_unmarked (v : conv_vars) (line : string) :
  unmarked line = true ->
  exists v', conv_line v line = Ok v' /\ conversions v' = conversions v.
Proof.
  unfold unmarked. intros H.
  apply andb_true_iff in H as [H Hc]. apply andb_true_iff in H as [H Hm].
  apply andb_true_iff in H as [Hr Hs].
  apply negb_true_iff in Hr, Hs, Hm, Hc.
  unfold is_read in Hr. unfold is_multi_end in Hm. unfold is_conversion in Hc.
  unfold conv_line. rewrite Hr, Hs, Hm, Hc. simpl.
  eexists. split; reflexivity.
Qed.

Lemma conv_loop_unmarked (t : trace) : forall v : conv_vars,
  forallb unmarked t = true ->
  exists v', conv_loop v t = Ok v' /\ conversions v' = conversions v.
Proof.
  induction t as [|line rest IH]; intros v H.
  - now exists v.
  - simpl in H. apply andb_true_iff in H as [Hl Hrest].
    destruct (conv_line_unmarked v line Hl) as [v1 [Hv1 Hc1]].
    destruct (IH v1 Hrest) as [v' [Hv' Hc']].
    exists v'. simpl. rewrite Hv1. simpl. split; [exact Hv' | congruence].
Qed.

(** C3, as stated, fails: without [--noStructure], [structure] raises
    on the empty trace (its [lastRead] was never assigned) and on an end
    marker that no begin marker precedes (it reads [currentOneOf[-1]] of
    an empty list); [rangeConversions] raises on a conversion marker
    that no completed multi-byte read precedes ([currentMulti] was
    never assigned). *)
Lemma parsers_raise_on_malformed_traces :
  structure false [] [] = Raise UnboundLocalError
  /\ structure false [] ["ERROR: Failed: no reads"] = Raise UnboundLocalError
  /\ structure false [] ["Reading byte at 0"; "FINISHED OneOf CALL"]
     = Raise IndexError
  /\ rangeConversions ["Reading byte at 0"; "Converting out-of-range value to 3"]
     = Raise UnboundLocalError.
Proof. repeat split. Qed.

(** C3, amended: [structure] and [rangeConversions] return normally on
    well-formed traces ([structure_ok], [conversions_ok]);
    [rangeConversions] returns the empty list on a trace without its
    markers, the empty trace included; with [--noStructure],
    [structure] returns on every trace. *)
Theorem parsers_total_on_well_formed_traces :
  (forall (cur : bytes) (t : trace), structure true cur t = Ok ([], len cur))
  /\ (forall (cur : bytes) (t : trace),
         structure_ok t = true ->
         exists spans lastRead, structure false cur t = Ok (spans, lastRead))
  /\ (forall t : trace,
         conversions_ok t = true -> exists convs, rangeConversions t = Ok convs)
  /\ (forall t : trace,
         forallb unmarked t = true -> rangeConversions t = Ok []).
Proof.
  split; [reflexivity|]. split; [|split].
  - intros cur t H. unfold structure_ok in H.
    apply andb_true_iff in H as [Hread Hall].
    destruct (structure_loop_total t []
                {| OneOfs := []; currentOneOf := []; lastRead := None |})
      as [v [Hv Hlr]]; [reflexivity | discriminate | exact Hall |].
    unfold structure. rewrite Hv. simpl.
    destruct (lastRead v) as [lr|]; [|now destruct (Hlr Hread)].
    simpl. now exists (OneOfs v), lr.
  - intros t H.
    destruct (conv_loop_total t []
                {| conversions := []; startedMulti := false; multiFirst := None;
                   rc_lastRead := None; currentMulti := None |})
      as [v Hv]; [discriminate | discriminate | exact H |].
    unfold rangeConversions. rewrite Hv. simpl. now exists (conversions v).
  - intros t H.
    destruct (conv_loop_unmarked t
                {| conversions := []; startedMulti := false; multiFirst := None;
                   rc_lastRead := None; currentMulti := None |} H)
      as [v [Hv Hc]].
    unfold rangeConversions. rewrite Hv. simpl. now rewrite Hc.
Qed.

Lemma parsers_total_on_well_formed_traces_witness :
  structure_ok ["STARTING OneOf CALL"; "Reading byte at 4";
                "Reading byte at 7"; "FINISHED OneOf CALL";
                "Reading byte at 8"] = true
  /\ (exists spans lastRead,
         structure false [1; 2; 3]
           ["STARTING OneOf CALL"; "Reading byte at 4"; "Reading byte at 7";
            "FINISHED OneOf CALL"; "Reading byte at 8"]
         = Ok (spans, lastRead))
  /\ conversions_ok ["STARTING MULTI-BYTE READ"; "Reading byte at 0";
                     "Reading byte at 1"; "FINISHED MULTI-BYTE READ";
                     "Converting out-of-range value to 3"] = true
  /\ (exists convs,
         rangeConversions
           ["STARTING MULTI-BYTE READ"; "Reading byte at 0";
            "Reading byte at 1"; "FINISHED MULTI-BYTE READ";
            "Converting out-of-range value to 3"] = Ok convs)
  /\ forallb unmarked ["ERROR: Failed: boom"] = true
  /\ rangeConversions ["ERROR: Failed: boom"] = Ok [].
Proof.
  pose proof parsers_total_on_well_formed_traces as [_ [Hs [Hc Hu]]].
  split; [reflexivity|]. split; [apply Hs; reflexivity|].
  split; [reflexivity|]. split; [apply Hc; reflexivity|].
  split; [reflexivity|]. apply Hu. reflexivity.
Defined.

(* ================================================================== *)
(** ** Startup and finalisation *)

(** C8: without [--search], when the trace of the seed does not satisfy
    the criteria, [main] prints the diagnostic and returns 1 at once:
    the input file is not read, no candidate exists, nothing is written
    to the output path, and the only events are the run of the seed and
    the diagnostic. *)
Theorem seed_failing_criteria_aborts
        (args : Args) (input : bytes) (oracle : nat -> bytes -> trace)
        (elapsed : nat -> Q) (fuel : nat) :
  search args = false ->
  expired args elapsed 1 = false ->
  checks args (oracle 1%nat input) = false ->
  main args input oracle elapsed fuel start_state
  = (Val 1,
     {| candidateRuns := 1; currentTest := []; s := ([], 0); r := [];
        initialSize := 0; candidate_file := []; output_test := None;
        events := [Printed StartingTestDoesNotSatisfy;
                   Trial input (oracle 1%nat input)] |}).
Proof.
  intros Hsearch Htime Hchecks.
  unfold main, startup, bind, runCandidate. simpl.
  rewrite Htime. simpl. rewrite Hsearch, Hchecks. reflexivity.
Qed.

Lemma seed_failing_criteria_aborts_witness :
  main {| criteria := Some "ERROR: Failed:"; search := false; timeout := 1200;
          maxByteRange := 16; fast := false; slow := false; slowest := false;
          noStructure := false; noPad := false |}
       [1; 2; 3] (fun _ _ => ["Reading byte at 0"; "OK: Passed: Test"])
       second_per_trial 5 start_state
  = (Val 1,
     {| candidateRuns := 1; currentTest := []; s := ([], 0); r := [];
        initialSize := 0; candidate_file := []; output_test := None;
        events := [Printed StartingTestDoesNotSatisfy;
                   Trial [1; 2; 3] ["Reading byte at 0"; "OK: Passed: Test"]] |}).
Proof.
  apply (seed_failing_criteria_aborts
           {| criteria := Some "ERROR: Failed:"; search := false;
              timeout := 1200; maxByteRange := 16; fast := false;
              slow := false; slowest := false; noStructure := false;
              noPad := false |}
           [1; 2; 3] (fun _ _ => ["Reading byte at 0"; "OK: Passed: Test"])
           second_per_trial 5); reflexivity.
Defined.

(** C9: with padding enabled, finalisation always completes; afterwards
    the candidate has at least [lastReadOffset + 1] bytes, it is the
    candidate from before followed by zero bytes only, and it is what
    the output file holds. *)
Theorem padding_restores_reachability (args : Args) (st : State) :
  noPad args = false ->
  exists st' k,
    finalize args st = (Val tt, st') /\
    snd (s st) + 1 <= len (currentTest st') /\
    currentTest st' = currentTest st ++ repeat 0 k /\
    output_test st' = Some (currentTest st') /\
    s st' = s st.
Proof.
  intros Hpad. unfold finalize, bind, gets, modify, write_out, ret.
  rewrite Hpad. simpl.
  destruct (len (currentTest st) <? snd (s st) + 1) eqn:E; simpl.
  - apply Z.ltb_lt in E.
    eexists. exists (Z.to_nat (snd (s st) + 1 - len (currentTest st))).
    split; [reflexivity|]. simpl. repeat split.
    rewrite len_app. unfold len at 2. rewrite repeat_length. lia.
  - apply Z.ltb_ge in E.
    eexists. exists 0%nat. split; [reflexivity|]. simpl.
    repeat split; [lia | now rewrite app_nil_r].
Qed.

Lemma padding_restores_reachability_witness :
  exists st' k,
    finalize (args_with 1200 false) span_state = (Val tt, st') /\
    snd (s span_state) + 1 <= len (currentTest st') /\
    currentTest st' = currentTest span_state ++ repeat 0 k /\
    output_test st' = Some (currentTest st') /\
    s st' = s span_state.
Proof.
  apply (padding_restores_reachability (args_with 1200 false) span_state).
  reflexivity.
Defined.

(** C4 fails on the code: the first call of [runCandidate] (line 176)
    is outside the [try] of line 244, so a deadline that has passed by
    then ends [main] with an uncaught [TimeoutException]; with
    [--timeout 0] this happens as soon as any time has elapsed, and the
    output file is never written.  A deadline that passes inside the
    loop is caught, and the candidate is written: that is the second
    run below, with [--timeout 2] and a second per trial. *)
Lemma timeout_zero_escapes_main (fuel : nat) :
  main (args_with 0 false) [1; 2; 3] reads_first_byte millisecond_per_trial
       fuel start_state
  = (Exc TimeoutException,
     {| candidateRuns := 1; currentTest := []; s := ([], 0); r := [];
        initialSize := 0; candidate_file := []; output_test := None;
        events := [] |})
  /\ exists st,
       main (args_with 2 false) [1; 2; 3] reads_first_byte second_per_trial
            5 start_state = (Val 0, st)
       /\ output_test st = Some [1]
       /\ In (Printed ReductionTimedOut) (events st).
Proof.
  split; [reflexivity|].
  eexists. split; [vm_compute; reflexivity|].
  split; [reflexivity|]. simpl. tauto.
Qed.

(** C2 fails on the code: a OneOf in which no byte is read is recorded
    as the span [(-1, lastRead)], and the OneOf removal pass then
    proposes [currentTest[:-1] + currentTest[lastRead+1:]], which is
    longer than [currentTest]; the pass only skips candidates of equal
    length.  Here a ten-byte input is "reduced" to eighteen bytes, which
    are written to the output file. *)
Lemma oneof_removal_grows_candidate :
  oneof_candidate [1; 2; 3; 4; 5; 6; 7; 8; 9; 10] (-1, 0)
  = [1; 2; 3; 4; 5; 6; 7; 8; 9; 2; 3; 4; 5; 6; 7; 8; 9; 10]
  /\ exists st,
       main (args_with 3 false) [1; 2; 3; 4; 5; 6; 7; 8; 9; 10] empty_oneof
            second_per_trial 5 start_state = (Val 0, st)
       /\ output_test st
          = Some [1; 2; 3; 4; 5; 6; 7; 8; 9; 2; 3; 4; 5; 6; 7; 8; 9; 10]
       /\ In (Trial [1; 2; 3; 4; 5; 6; 7; 8; 9; 2; 3; 4; 5; 6; 7; 8; 9; 10]
                    (empty_oneof 3%nat []))
             (events st).
Proof.
  split; [reflexivity|].
  eexists. split; [vm_compute; reflexivity|].
  split; [reflexivity|]. simpl. auto.
Qed.

(* ================================================================== *)
(** ** The log of a run: every write rests on an accepted trial *)

Section LogInvariant.

Variable args : Args.
Variable input : bytes.
Variable oracle : nat -> bytes -> trace.
Variable elapsed : nat -> Q.

Local Arguments bind : simpl never.

Lemma justified_later (e : event) (evs : list event) (w : bytes) :
  justified args evs w -> justified args (e :: evs) w.
Proof.
  intros [c [t [x [n [k [Hin H]]]]]].
  exists c, t, x, n, k. split; [now right | exact H].
Qed.

Lemma writes_justified_other (e : event) (evs : list event) :
  (forall w, e <> WriteOut w) ->
  writes_justified args evs -> writes_justified args (e :: evs).
Proof.
  intros He H later w earlier Heq.
  destruct later as [|e' later]; simpl in Heq; injection Heq as He' Hevs.
  - now destruct (He w).
  - eapply H. exact Hevs.
Qed.

Lemma writes_justified_write (w : bytes) (evs : list event) :
  justified args evs w ->
  writes_justified args evs -> writes_justified args (WriteOut w :: evs).
Proof.
  intros Hw H later w' earlier Heq.
  destruct later as [|e' later]; simpl in Heq; injection Heq as He' Hevs.
  - subst. exact Hw.
  - eapply H. exact Hevs.
Qed.

Lemma post_of_Inv (A : Type) (o : outcome A) (st : State) :
  Inv args st -> post args o st.
Proof.
  intros H. destruct o as [a|[|e]|]; simpl; auto; apply H.
Qed.

Lemma safe_ret (A : Type) (a : A) : safe args (ret a).
Proof. intros st H. exact H. Qed.

Lemma safe_gets (A : Type) (f : State -> A) : safe args (gets f).
Proof. intros st H. exact H. Qed.

Lemma safe_lift (A : Type) (x : res A) : safe args (lift x).
Proof. intros st H. destruct x; simpl; [exact H | apply H]. Qed.

Lemma safe_out_of_fuel (A : Type) : safe args (@out_of_fuel A).
Proof. intros st H. apply H. Qed.

Lemma safe_bind (A B : Type) (m : M A) (f : A -> M B) :
  safe args m -> (forall a, safe args (f a)) -> safe args (bind m f).
Proof.
  intros Hm Hf st H. unfold bind.
  specialize (Hm st H). destruct (m st) as [[a|e|] st1]; simpl in *.
  - now apply Hf.
  - exact Hm.
  - exact Hm.
Qed.

Lemma safe_try (m handler : M unit) :
  safe args m -> safe args handler -> safe args (try_except_timeout m handler).
Proof.
  intros Hm Hh st H. unfold try_except_timeout.
  specialize (Hm st H). destruct (m st) as [[a|[|e]|] st1]; simpl in *; auto.
Qed.

Lemma safe_percent : safe args percent.
Proof.
  intros st H. unfold percent, bind, gets.
  destruct (initialSize st =? 0); simpl; [apply H | exact H].
Qed.

Lemma safe_print (m : message) : safe args (print m).
Proof.
  intros st [Hw [Hc Hl]]. unfold print, modify. simpl.
  split; [|split].
  - apply writes_justified_other; [discriminate | exact Hw].
  - destruct Hc as [c [t [x [n [Hin H]]]]].
    exists c, t, x, n. split; [now right | exact H].
  - exact Hl.
Qed.

(** [updateCurrent] step by step. *)
Lemma updateCurrent_eq (newTest : bytes) (st : State) :
  updateCurrent args newTest st =
  match rangeConversions (r st) with
  | Raise e => (Exc (Error e), set_currentTest newTest st)
  | Ok convs =>
      match fixRangeConversions (noStructure args) newTest convs with
      | Raise e => (Exc (Error e), set_currentTest newTest st)
      | Ok fixed =>
          let st1 := add_event (WriteOut (fst fixed))
                       (set_output_test (fst fixed)
                          (set_currentTest (fst fixed)
                             (set_currentTest newTest st))) in
          match structure (noStructure args) (fst fixed) (r st) with
          | Raise e => (Exc (Error e), st1)
          | Ok sv =>
              if initialSize st =? 0
              then (Exc (Error ZeroDivisionError), set_s sv st1)
              else (Val tt, set_s sv st1)
          end
      end
  end.
Proof.
  unfold updateCurrent, percent, write_out, bind, modify, gets, raise, ret.
  simpl.
  destruct (rangeConversions (r st)) as [convs|e]; simpl; [|reflexivity].
  destruct (fixRangeConversions (noStructure args) newTest convs)
    as [fixed|e]; simpl; [|reflexivity].
  destruct (structure (noStructure args) (fst fixed) (r st)) as [sv|e];
    simpl; [|reflexivity].
  destruct (initialSize st =? 0); reflexivity.
Qed.

(** [attempt] step by step. *)
Lemma attempt_eq (newTest : bytes) (st : State) :
  attempt args input oracle elapsed newTest st =
  let n := S (candidateRuns st) in
  let st0 := set_candidateRuns n (set_candidate_file newTest st) in
  if expired args elapsed n then (Exc TimeoutException, st0)
  else
    let t := oracle n newTest in
    let st1 := set_r t (add_event (Trial newTest t) st0) in
    if checks args t then
      match updateCurrent args newTest st1 with
      | (Val _, st2) => (Val true, st2)
      | (Exc e, st2) => (Exc e, st2)
      | (Fuel, st2) => (Fuel, st2)
      end
    else (Val false, st1).
Proof.
  unfold attempt, writeAndRunCandidate, runCandidate, bind, modify. simpl.
  destruct (expired args elapsed (S (candidateRuns st))); [reflexivity|].
  destruct (checks args (oracle (S (candidateRuns st)) newTest));
    [|reflexivity].
  match goal with
  | |- context [updateCurrent args newTest ?x] =>
      destruct (updateCurrent args newTest x) as [[[]|e|] st2]
  end; reflexivity.
Qed.

(** [updateCurrent] on a candidate that was just run and accepted. *)
Lemma updateCurrent_post (newTest : bytes) (st : State) :
  writes_justified args (events st) ->
  In (Trial newTest (r st)) (events st) ->
  checks args (r st) = true ->
  post args (fst (updateCurrent args newTest st))
       (snd (updateCurrent args newTest st)).
Proof.
  intros Hw Hin Hchecks. rewrite updateCurrent_eq.
  destruct (rangeConversions (r st)) as [convs|e] eqn:Ec; simpl; [|exact Hw].
  destruct (fixRangeConversions (noStructure args) newTest convs)
    as [[fixed n]|e] eqn:Ef; simpl; [|exact Hw].
  assert (Hd : derived args newTest (r st) fixed)
    by (right; exists convs, n; auto).
  assert (Hj : justified args (events st) fixed).
  { exists newTest, (r st), fixed, (List.length fixed), 0%nat.
    repeat split; auto. simpl. now rewrite app_nil_r, firstn_all. }
  destruct (structure (noStructure args) fixed (r st)) as [sv|e] eqn:Es;
    simpl; [|now apply writes_justified_write].
  assert (HI : Inv args
                 (set_s sv
                    (add_event (WriteOut fixed)
                       (set_output_test fixed
                          (set_currentTest fixed (set_currentTest newTest st)))))).
  { split; [|split]; simpl.
    - now apply writes_justified_write.
    - exists newTest, (r st), fixed, (List.length fixed). simpl.
      repeat split; auto. now rewrite firstn_all.
    - intros Hns. simpl. unfold structure in Es. rewrite Hns in Es.
      injection Es as <-. reflexivity. }
  destruct (initialSize st =? 0); simpl; [apply HI | exact HI].
Qed.

Lemma safe_attempt (newTest : bytes) :
  safe args (attempt args input oracle elapsed newTest).
Proof.
  intros st [Hw [Hc Hl]]. rewrite attempt_eq. simpl.
  destruct (expired args elapsed (S (candidateRuns st))); simpl.
  - split; [|split]; auto.
  - set (t := oracle (S (candidateRuns st)) newTest).
    set (st1 := set_r t _).
    destruct (checks args t) eqn:Echecks.
    + pose proof (updateCurrent_post newTest st1) as Hu.
      destruct (updateCurrent args newTest st1) as [[[]|e|] st2];
        simpl in *; apply Hu; auto;
        apply writes_justified_other; auto; discriminate.
    + simpl. split; [|split]; simpl.
      * apply writes_justified_other; [discriminate | exact Hw].
      * destruct Hc as [c [t' [x [n [Hin H]]]]].
        exists c, t', x, n. split; [now right | exact H].
      * exact Hl.
Qed.

(** Every pass is built from [attempt] and from code that leaves the
    state alone, so each of them keeps the invariant. *)
Create HintDb safe_db.
#[local] Hint Resolve safe_ret safe_gets safe_lift safe_out_of_fuel
  safe_percent safe_print safe_attempt : safe_db.

Ltac safe_step :=
  match goal with
  | |- safe _ (bind _ _) => apply safe_bind; [|intros]
  | |- safe _ (if ?b then _ else _) => destruct b
  | |- safe _ (match ?x with _ => _ end) => destruct x
  | |- safe _ passInfo => apply safe_percent
  | |- safe _ (item _ _) => apply safe_lift
  | |- safe _ _ => solve [auto with safe_db]
  end.

Lemma safe_oneof_for (cuts : list (Z * Z)) :
  safe args (oneof_for args input oracle elapsed cuts).
Proof. induction cuts as [|c cuts IH]; simpl; repeat safe_step. Qed.
#[local] Hint Resolve safe_oneof_for : safe_db.

Lemma safe_oneof_while (fuel : nat) :
  safe args (oneof_while args input oracle elapsed fuel).
Proof. induction fuel as [|fuel IH]; simpl; repeat safe_step. Qed.
#[local] Hint Resolve safe_oneof_while : safe_db.

Lemma safe_chunk_for (k : Z) (bs : list Z) :
  safe args (chunk_for args input oracle elapsed k bs).
Proof. induction bs as [|b bs IH]; simpl; repeat safe_step. Qed.
#[local] Hint Resolve safe_chunk_for : safe_db.

Lemma safe_chunk_while (fuel : nat) : forall k startingPos : Z,
  safe args (chunk_while args input oracle elapsed fuel k startingPos).
Proof. induction fuel as [|fuel IH]; intros; simpl; repeat safe_step. Qed.
#[local] Hint Resolve safe_chunk_while : safe_db.

Lemma safe_reduce_delete_for (k : Z) (bs : list Z) :
  safe args (reduce_delete_for args input oracle elapsed k bs).
Proof. induction bs as [|b bs IH]; simpl; repeat safe_step. Qed.
#[local] Hint Resolve safe_reduce_delete_for : safe_db.

Lemma safe_reduce_delete_while (fuel : nat) (k : Z) :
  safe args (reduce_delete_while args input oracle elapsed fuel k).
Proof. induction fuel as [|fuel IH]; simpl; repeat safe_step. Qed.
#[local] Hint Resolve safe_reduce_delete_while : safe_db.

Lemma safe_allrange_inner (b : Z) (vs : list Z) :
  safe args (allrange_inner args input oracle elapsed b vs).
Proof. induction vs as [|v vs IH]; simpl; repeat safe_step. Qed.
#[local] Hint Resolve safe_allrange_inner : safe_db.

Lemma safe_allrange_for (mbr : Z) (bs : list Z) :
  safe args (allrange_for args input oracle elapsed mbr bs).
Proof. induction bs as [|b bs IH]; simpl; repeat safe_step. Qed.
#[local] Hint Resolve safe_allrange_for : safe_db.

Lemma safe_allrange_while (fuel : nat) : forall mbr startingPos : Z,
  safe args (allrange_while args input oracle elapsed fuel mbr startingPos).
Proof. induction fuel as [|fuel IH]; intros; simpl; repeat safe_step. Qed.
#[local] Hint Resolve safe_allrange_while : safe_db.

Lemma safe_swap_inner (cuts : list (Z * Z)) (cuti : Z * Z) (js : list Z) :
  safe args (swap_inner args input oracle elapsed cuts cuti js).
Proof. induction js as [|j js IH]; simpl; repeat safe_step. Qed.
#[local] Hint Resolve safe_swap_inner : safe_db.

Lemma safe_swap_for (cuts : list (Z * Z)) (idxs : list Z) :
  safe args (swap_for args input oracle elapsed cuts idxs).
Proof. induction idxs as [|i idxs IH]; simpl; repeat safe_step. Qed.
#[local] Hint Resolve safe_swap_for : safe_db.

Lemma safe_swap_while (fuel : nat) :
  safe args (swap_while args input oracle elapsed fuel).
Proof. induction fuel as [|fuel IH]; simpl; repeat safe_step. Qed.
#[local] Hint Resolve safe_swap_while : safe_db.

Lemma safe_bytereduce_inner (b : Z) (vs : list Z) :
  safe args (bytereduce_inner args input oracle elapsed b vs).
Proof. induction vs as [|v vs IH]; simpl; repeat safe_step. Qed.
#[local] Hint Resolve safe_bytereduce_inner : safe_db.

Lemma safe_bytereduce_for (bs : list Z) :
  safe args (bytereduce_for args input oracle elapsed bs).
Proof. induction bs as [|b bs IH]; simpl; repeat safe_step. Qed.
#[local] Hint Resolve safe_bytereduce_for : safe_db.

Lemma safe_bytereduce_while (fuel : nat) : forall startingPos : Z,
  safe args (bytereduce_while args input oracle elapsed fuel startingPos).
Proof. induction fuel as [|fuel IH]; intros; simpl; repeat safe_step. Qed.
#[local] Hint Resolve safe_bytereduce_while : safe_db.

Lemma safe_pattern_try (part1 part2 part3 : bytes) (news : list bytes) :
  safe args (pattern_try args input oracle elapsed part1 part2 part3 news).
Proof. induction news as [|banew news IH]; simpl; repeat safe_step. Qed.
#[local] Hint Resolve safe_pattern_try : safe_db.

Lemma safe_pattern_inner (b1 : Z) (b2s : list Z) :
  safe args (pattern_inner args input oracle elapsed b1 b2s).
Proof. induction b2s as [|b2 b2s IH]; simpl; repeat safe_step. Qed.
#[local] Hint Resolve safe_pattern_inner : safe_db.

Lemma safe_pattern_for (b1s : list Z) :
  safe args (pattern_for args input oracle elapsed b1s).
Proof. induction b1s as [|b1 b1s IH]; simpl; repeat safe_step. Qed.
#[local] Hint Resolve safe_pattern_for : safe_db.

Lemma safe_pattern_while (fuel : nat) :
  safe args (pattern_while args input oracle elapsed fuel).
Proof. induction fuel as [|fuel IH]; simpl; repeat safe_step. Qed.
#[local] Hint Resolve safe_pattern_while : safe_db.

Lemma safe_chunk_passes (fuel : nat) (ks : list Z) : forall sn : Snapshots,
  safe args (chunk_passes args input oracle elapsed fuel ks sn).
Proof. induction ks as [|k ks IH]; intros; simpl; repeat safe_step. Qed.
#[local] Hint Resolve safe_chunk_passes : safe_db.

Lemma safe_reduce_delete_passes (fuel : nat) (ks : list Z) :
  forall sn : Snapshots,
    safe args (reduce_delete_passes args input oracle elapsed fuel ks sn).
Proof. induction ks as [|k ks IH]; intros; simpl; repeat safe_step. Qed.
#[local] Hint Resolve safe_reduce_delete_passes : safe_db.

Lemma safe_iteration (fuel : nat) (mbr : Z) (oldTest : bytes) (sn : Snapshots) :
  safe args (iteration args input oracle elapsed fuel mbr oldTest sn).
Proof.
  unfold iteration, oneof_pass, allrange_pass, swap_pass, bytereduce_pass,
    pattern_pass.
  repeat safe_step.
Qed.
#[local] Hint Resolve safe_iteration : safe_db.

Lemma safe_reduce_loop (rounds fuel : nat) (mbr : Z) :
  forall (oldTest : snapshot) (sn : Snapshots),
    safe args (reduce_loop args input oracle elapsed rounds fuel mbr oldTest sn).
Proof. induction rounds as [|rounds IH]; intros; simpl; repeat safe_step. Qed.

Lemma safe_reduction (fuel : nat) (mbr : Z) :
  safe args (reduction args input oracle elapsed fuel mbr).
Proof.
  unfold reduction. apply safe_try; [apply safe_reduce_loop | apply safe_print].
Qed.


(** Lines 176-204 establish the invariant. *)
Lemma startup_post (st : State) :
  writes_justified args (events st) ->
  writes_justified args (events (snd (startup args input oracle elapsed st)))
  /\ (forall mbr,
         fst (startup args input oracle elapsed st) = Val (Some mbr) ->
         Inv args (snd (startup args input oracle elapsed st))).
Proof.
  intros Hw.
  unfold startup, writeAndRunCandidate, runCandidate, write_out, print,
    bind, modify, gets, lift, raise, ret.
  simpl.
  destruct (expired args elapsed (S (candidateRuns st))) eqn:E1; simpl.
  { split; [exact Hw | discriminate]. }
  set (initial := oracle (S (candidateRuns st)) input).
  destruct (negb (search args) && negb (checks args initial)) eqn:E2; simpl.
  { split; [|discriminate].
    repeat (apply writes_justified_other; [discriminate|]). exact Hw. }
  destruct (rangeConversions initial) as [convs|e] eqn:E3; simpl.
  2:{ split; [|discriminate].
      repeat (apply writes_justified_other; [discriminate|]). exact Hw. }
  destruct (fixRangeConversions (noStructure args) input convs)
    as [fixed|e] eqn:E4; simpl.
  2:{ split; [|discriminate].
      repeat (apply writes_justified_other; [discriminate|]). exact Hw. }
  destruct (expired args elapsed (S (S (candidateRuns st)))) eqn:E5; simpl.
  { split; [|discriminate].
    repeat (apply writes_justified_other; [discriminate|]). exact Hw. }
  set (result := oracle (S (S (candidateRuns st))) (fst fixed)).
  destruct (checks args result) eqn:E6; simpl.
  2:{ split; [|discriminate].
      repeat (apply writes_justified_other; [discriminate|]). exact Hw. }
  destruct (structure (noStructure args) (fst fixed) initial) as [sv|e] eqn:E7;
    simpl.
  2:{ split; [|discriminate].
      repeat (apply writes_justified_other; [discriminate|]). exact Hw. }
  set (evs := Trial (fst fixed) result :: ReadInput :: Trial input initial
              :: events st).
  assert (Hevs : writes_justified args evs).
  { unfold evs.
    repeat (apply writes_justified_other; [discriminate|]). exact Hw. }
  assert (Hj : forall n, justified args evs (firstn n (fst fixed))).
  { intros n. exists (fst fixed), result, (fst fixed), n, 0%nat.
    repeat split; auto.
    - now left.
    - now left.
    - simpl. now rewrite app_nil_r. }
  assert (Hc : forall e' n,
             exists c t x n',
               In (Trial c t) (e' ++ evs) /\ checks args t = true /\
               derived args c t x /\ firstn n (fst fixed) = firstn n' x).
  { intros e' n. exists (fst fixed), result, (fst fixed), n.
    repeat split; auto.
    - apply in_or_app. right. now left.
    - now left. }
  assert (Hj' : justified args evs (fst fixed)).
  { pose proof (Hj (List.length (fst fixed))) as H.
    now rewrite firstn_all in H. }
  assert (Hc' : forall e',
             exists c t x n',
               In (Trial c t) (e' ++ evs) /\ checks args t = true /\
               derived args c t x /\ fst fixed = firstn n' x).
  { intros e'. destruct (Hc e' (List.length (fst fixed))) as [c [t [x [n' H]]]].
    exists c, t, x, n'. now rewrite firstn_all in H. }
  destruct (snd sv + 1 <? len (fst fixed)) eqn:E8; simpl;
    match goal with
    | |- context [negb (bytes_eqb ?a ?b)] =>
        destruct (negb (bytes_eqb a b)) eqn:E9
    end; simpl; fold evs.
  - split.
    + apply writes_justified_write; [apply Hj | exact Hevs].
    + intros mbr _. split; [|split]; simpl; fold evs.
      * apply writes_justified_write; [apply Hj | exact Hevs].
      * apply (Hc [WriteOut _]).
      * intros Hns. simpl. unfold structure in E7. rewrite Hns in E7.
        injection E7 as <-. simpl in E8. apply Z.ltb_lt in E8. lia.
  - split; [exact Hevs|].
    intros mbr _. split; [|split]; simpl; fold evs.
    + exact Hevs.
    + apply (Hc []).
    + intros Hns. simpl. unfold structure in E7. rewrite Hns in E7.
      injection E7 as <-. simpl in E8. apply Z.ltb_lt in E8. lia.
  - split.
    + apply writes_justified_write; [exact Hj' | exact Hevs].
    + intros mbr _. split; [|split]; simpl; fold evs.
      * apply writes_justified_write; [exact Hj' | exact Hevs].
      * apply (Hc' [WriteOut _]).
      * intros Hns. simpl. unfold structure in E7. rewrite Hns in E7.
        injection E7 as <-. reflexivity.
  - split; [exact Hevs|].
    intros mbr _. split; [|split]; simpl; fold evs.
    + exact Hevs.
    + apply (Hc' []).
    + intros Hns. simpl. unfold structure in E7. rewrite Hns in E7.
      injection E7 as <-. reflexivity.
Qed.

End LogInvariant.

(** C1, as stated, fails: the reducer writes byte sequences that were
    never run.  With a binary that reads byte 0 only, the three-byte
    seed is cut to its first byte after the second trial and that byte
    is written to the output file, while no trial ever ran on it. *)
Lemma trimmed_candidate_written_without_trial :
  exists st,
    main (args_with 3 false) [1; 2; 3] reads_first_byte second_per_trial
         5 start_state = (Val 0, st)
    /\ In (WriteOut [1]) (events st)
    /\ forall t, ~ In (Trial [1] t) (events st).
Proof.
  eexists. split; [vm_compute; reflexivity|]. split.
  - simpl. tauto.
  - intros t H. simpl in H.
    repeat (destruct H as [H|H]; [discriminate H|]). exact H.
Qed.

(* ================================================================== *)
(** ** With [--noStructure] *)

Lemma percent_state (st : State) : snd (percent st) = st.
Proof.
  unfold percent, bind, gets, raise, ret.
  destruct (initialSize st =? 0); reflexivity.
Qed.

(** C10: with [--noStructure], [structure] returns no span and the
    length of [currentTest]; so a run with [--noStructure] and padding
    that reaches the end writes the candidate the passes produced
    followed by exactly one zero byte. *)
Theorem noStructure_pads_one_byte
        (args : Args) (input : bytes) (oracle : nat -> bytes -> trace)
        (elapsed : nat -> Q) (fuel : nat) (st' : State) :
  noStructure args = true ->
  noPad args = false ->
  main args input oracle elapsed fuel start_state = (Val 0, st') ->
  (forall (cur : bytes) (t : trace),
      structure (noStructure args) cur t = Ok ([], len cur))
  /\ exists mbr st0 st1,
       startup args input oracle elapsed start_state = (Val (Some mbr), st0)
       /\ reduction args input oracle elapsed fuel mbr st0 = (Val tt, st1)
       /\ currentTest st' = currentTest st1 ++ [0]
       /\ output_test st' = Some (currentTest st1 ++ [0]).
Proof.
  intros Hns Hpad Hmain. split.
  { intros cur t. rewrite Hns. reflexivity. }
  assert (Hw : writes_justified args (events start_state)).
  { intros later w earlier H. destruct later; discriminate H. }
  destruct (startup_post args input oracle elapsed start_state Hw) as [_ HI].
  unfold main in Hmain. unfold bind at 1 in Hmain.
  destruct (startup args input oracle elapsed start_state)
    as [[[mbr|]|e|] st0] eqn:Es; simpl in *; try discriminate Hmain.
  specialize (HI mbr eq_refl).
  pose proof (safe_reduction args input oracle elapsed fuel mbr st0 HI) as Hr.
  unfold bind at 1 in Hmain.
  destruct (reduction args input oracle elapsed fuel mbr st0)
    as [[[]|e|] st1] eqn:Er; simpl in *; try discriminate Hmain.
  exists mbr, st0, st1. split; [reflexivity|]. split; [exact Er|].
  unfold bind at 1 in Hmain.
  pose proof (percent_state st1) as Hp.
  destruct (percent st1) as [[[]|e|] st2]; simpl in *; try discriminate Hmain.
  subst st2.
  destruct Hr as [_ [_ Hlen]]. specialize (Hlen Hns).
  unfold finalize, write_out, bind, modify, gets, ret in Hmain.
  rewrite Hpad in Hmain. simpl in Hmain.
  replace (len (currentTest st1) <? snd (s st1) + 1) with true in Hmain
    by (symmetry; apply Z.ltb_lt; lia).
  simpl in Hmain. injection Hmain as <-. simpl.
  replace (snd (s st1) + 1 - len (currentTest st1)) with 1 by lia.
  split; reflexivity.
Qed.

Lemma noStructure_pads_one_byte_witness :
  exists st' mbr st0 st1,
    main (args_with 100 true) [1; 2; 3] needs_two_bytes second_per_trial
         50 start_state = (Val 0, st')
    /\ startup (args_with 100 true) [1; 2; 3] needs_two_bytes second_per_trial
               start_state = (Val (Some mbr), st0)
    /\ reduction (args_with 100 true) [1; 2; 3] needs_two_bytes
                 second_per_trial 50 mbr st0 = (Val tt, st1)
    /\ currentTest st1 = [0; 0]
    /\ currentTest st' = currentTest st1 ++ [0]
    /\ output_test st' = Some (currentTest st1 ++ [0]).
Proof.
  eexists.
  assert (Hmain : main (args_with 100 true) [1; 2; 3] needs_two_bytes
                       second_per_trial 50 start_state = (Val 0, _))
    by (vm_compute; reflexivity).
  destruct (noStructure_pads_one_byte
              (args_with 100 true) [1; 2; 3] needs_two_bytes second_per_trial
              50 _ eq_refl eq_refl Hmain)
    as [_ [mbr [st0 [st1 [Hs [Hr [Hc Ho]]]]]]].
  exists mbr, st0, st1.
  split; [exact Hmain|]. split; [exact Hs|]. split; [exact Hr|].
  split; [|split; [exact Hc | exact Ho]].
  apply (app_inv_tail [0]). rewrite <- Hc. reflexivity.
Defined.

(* ================================================================== *)
(** ** Removing a structural span *)

Lemma slice_to_firstn (A : Type) (l : list A) (i : Z) :
  0 <= i -> slice_to l i = firstn (Z.to_nat i) l.
Proof.
  intros Hi. unfold slice_to, slice_index.
  replace (i <? 0) with false by (symmetry; apply Z.ltb_ge; lia).
  destruct (Z.le_ge_cases i (len l)) as [H|H].
  - now rewrite Z.min_l by lia.
  - rewrite Z.min_r by lia. unfold len in *.
    rewrite !firstn_all2 by lia. reflexivity.
Qed.

Lemma slice_from_skipn (A : Type) (l : list A) (i : Z) :
  0 <= i -> slice_from l i = skipn (Z.to_nat i) l.
Proof.
  intros Hi. unfold slice_from, slice_index.
  replace (i <? 0) with false by (symmetry; apply Z.ltb_ge; lia).
  destruct (Z.le_ge_cases i (len l)) as [H|H].
  - now rewrite Z.min_l by lia.
  - rewrite Z.min_r by lia. unfold len in *.
    rewrite !skipn_all2 by lia. reflexivity.
Qed.

Lemma zero_range_length (bs : list Z) : forall t t' : bytes,
  zero_range t bs = Ok t' -> List.length t' = List.length t.
Proof.
  induction bs as [|b bs IH]; simpl; intros t t' H.
  - now injection H as <-.
  - destruct (setitem t b 0) as [t1|] eqn:E; simpl in H; [|discriminate].
    apply setitem_inv in E as [k [_ [_ ->]]].
    rewrite (IH _ _ H). apply update_nth_length.
Qed.

(** [fixRangeConversions] keeps the length, and changes nothing when it
    counts no conversion. *)
Lemma fix_loop_shape (convs : list conversion) :
  forall (t : bytes) (n : Z) (t' : bytes) (n' : Z),
    fix_loop t n convs = Ok (t', n') ->
    List.length t' = List.length t /\ n <= n' /\ (n' = n -> t' = t).
Proof.
  induction convs as [|[pos value] rest IH]; intros t n t' n' H.
  - simpl in H. injection H as <- <-. repeat split. lia.
  - apply fix_loop_cons in H
      as [[_ [-> ->]] | [[_ [H _]] | [_ [_ [x [first [t1 [t2 H]]]]]]]].
    + repeat split. lia.
    + now apply IH.
    + destruct H as [_ [_ [_ [Hz [Hs H]]]]].
      apply zero_range_length in Hz.
      apply setitem_inv in Hs as [k [_ [_ ->]]].
      destruct (IH _ _ _ _ H) as [Hl [Hn _]].
      rewrite update_nth_length in Hl.
      repeat split; [congruence | lia | intros ->; lia].
Qed.

Lemma fixRangeConversions_shape
      (noStructure : bool) (t : bytes) (convs : list conversion)
      (t' : bytes) (n : Z) :
  fixRangeConversions noStructure t convs = Ok (t', n) ->
  len t' = len t /\ (n = 0 -> t' = t).
Proof.
  unfold fixRangeConversions. destruct noStructure.
  - intros [= <- <-]. auto.
  - intros H. apply fix_loop_shape in H as [Hl [_ Hn]].
    unfold len. rewrite Hl. auto.
Qed.

Lemma oneof_for_cons (args : Args) (input : bytes)
      (oracle : nat -> bytes -> trace) (elapsed : nat -> Q)
      (c : Z * Z) (cuts : list (Z * Z)) (st : State) :
  oneof_for args input oracle elapsed (c :: cuts) st =
  let newTest := oneof_candidate (currentTest st) c in
  if len newTest =? len (currentTest st)
  then oneof_for args input oracle elapsed cuts st
  else
    match attempt args input oracle elapsed newTest st with
    | (Val true, st') => (Val true, st')
    | (Val false, st') => oneof_for args input oracle elapsed cuts st'
    | (Exc e, st') => (Exc e, st')
    | (Fuel, st') => (Fuel, st')
    end.
Proof.
  cbn [oneof_for]. unfold bind at 1. unfold gets at 1. cbv zeta.
  destruct (len (oneof_candidate (currentTest st) c) =? len (currentTest st));
    [reflexivity|].
  unfold bind.
  destruct (attempt args input oracle elapsed
              (oneof_candidate (currentTest st) c) st) as [[[|]|e|] st'];
    reflexivity.
Qed.

Lemma span_4_7_candidate (cur : bytes) :
  8 <= len cur ->
  oneof_candidate cur (4, 7) = firstn 4 cur ++ skipn 8 cur
  /\ len (oneof_candidate cur (4, 7)) = len cur - 4.
Proof.
  intros H.
  assert (E : oneof_candidate cur (4, 7) = firstn 4 cur ++ skipn 8 cur).
  { unfold oneof_candidate. simpl fst. simpl snd.
    rewrite slice_to_firstn, slice_from_skipn by lia. reflexivity. }
  split; [exact E|].
  rewrite E. unfold len in *.
  rewrite length_app, length_firstn, length_skipn. lia.
Qed.

(** C7, as stated, fails: [updateCurrent] normalises the accepted
    candidate against its trace, which can change bytes outside the
    removed span.  Here the span [4,7] is removed from a ten-byte
    candidate and accepted, and the binary reports a conversion for the
    field at bytes 0-1: the new candidate starts [0, 3] where the old
    one started [9, 9]. *)
Lemma span_removal_changes_outside_bytes :
  exists st',
    oneof_for (args_with 1200 false) [] clamps_first_field second_per_trial
              [(4, 7)] span_state = (Val true, st')
    /\ currentTest span_state = [9; 9; 9; 9; 1; 2; 3; 4; 9; 9]
    /\ currentTest st' = [0; 3; 9; 9; 9; 9]
    /\ firstn 4 (currentTest st') <> firstn 4 (currentTest span_state).
Proof.
  eexists. split; [vm_compute; reflexivity|].
  split; [reflexivity|]. split; [reflexivity|]. discriminate.
Qed.

(** C7, amended: when a candidate of at least eight bytes has the span
    [4,7] next in the list of cuts and the binary accepts the candidate
    without it, the new candidate is exactly four bytes shorter; it is
    the old candidate without bytes 4..7, normalised by
    [fixRangeConversions] against the accepted trace, so every byte
    outside [4,7] keeps its value whenever no range conversion is
    applied; it is also what the output file then holds. *)
Theorem span_removal_frame
        (args : Args) (input : bytes) (oracle : nat -> bytes -> trace)
        (elapsed : nat -> Q) (rest : list (Z * Z)) (st st' : State) :
  8 <= len (currentTest st) ->
  checks args (oracle (S (candidateRuns st))
                      (oneof_candidate (currentTest st) (4, 7))) = true ->
  oneof_for args input oracle elapsed ((4, 7) :: rest) st = (Val true, st') ->
  len (currentTest st') = len (currentTest st) - 4
  /\ output_test st' = Some (currentTest st')
  /\ exists convs n,
       rangeConversions (oracle (S (candidateRuns st))
                                (oneof_candidate (currentTest st) (4, 7)))
       = Ok convs
       /\ fixRangeConversions (noStructure args)
            (firstn 4 (currentTest st) ++ skipn 8 (currentTest st)) convs
          = Ok (currentTest st', n)
       /\ (n = 0 ->
           currentTest st'
           = firstn 4 (currentTest st) ++ skipn 8 (currentTest st)).
Proof.
  intros Hlen Hchecks Hrun.
  destruct (span_4_7_candidate (currentTest st) Hlen) as [Hcand Hclen].
  rewrite oneof_for_cons in Hrun. cbv zeta in Hrun.
  replace (len (oneof_candidate (currentTest st) (4, 7))
           =? len (currentTest st)) with false in Hrun
    by (symmetry; apply Z.eqb_neq; lia).
  rewrite attempt_eq in Hrun. cbv zeta in Hrun.
  destruct (expired args elapsed (S (candidateRuns st))); [discriminate Hrun|].
  rewrite Hchecks in Hrun. rewrite updateCurrent_eq in Hrun.
  cbn [r set_r] in Hrun.
  set (t := oracle (S (candidateRuns st))
                   (oneof_candidate (currentTest st) (4, 7))) in *.
  destruct (rangeConversions t) as [convs|e]; [|discriminate Hrun].
  destruct (fixRangeConversions (noStructure args)
              (oneof_candidate (currentTest st) (4, 7)) convs)
    as [[fixed n]|e] eqn:Ef; [|discriminate Hrun].
  cbv zeta in Hrun. cbn [fst] in Hrun.
  destruct (structure (noStructure args) fixed t) as [sv|e];
    [|discriminate Hrun].
  match type of Hrun with
  | context [if ?b then _ else _] => destruct b; [discriminate Hrun|]
  end.
  rewrite <- Hcand. injection Hrun as <-.
  cbn [currentTest output_test set_s add_event set_output_test set_currentTest].
  destruct (fixRangeConversions_shape _ _ _ _ _ Ef) as [Hl Hn].
  split; [lia|]. split; [reflexivity|].
  exists convs, n. auto.
Qed.

Lemma span_removal_frame_witness :
  exists st',
    oneof_for (args_with 1200 true) [] clamps_first_field second_per_trial
              [(4, 7)] span_state = (Val true, st')
    /\ len (currentTest st') = len (currentTest span_state) - 4
    /\ output_test st' = Some (currentTest st')
    /\ currentTest st' = [9; 9; 9; 9; 9; 9].
Proof.
  eexists.
  assert (Hrun : oneof_for (args_with 1200 true) [] clamps_first_field
                           second_per_trial [(4, 7)] span_state = (Val true, _))
    by (vm_compute; reflexivity).
  destruct (span_removal_frame
              (args_with 1200 true) [] clamps_first_field second_per_trial
              [] span_state _ ltac:(vm_compute; discriminate) eq_refl Hrun)
    as [Hl [Ho _]].
  split; [exact Hrun|]. split; [exact Hl|]. split; [exact Ho|]. reflexivity.
Defined.

(* ================================================================== *)
(** ** Lengths of the candidates the removal passes propose *)

Lemma removal_not_longer (cur : bytes) (a b : Z) :
  0 <= a <= b -> len (slice_to cur a ++ slice_from cur b) <= len cur.
Proof.
  intros H. rewrite slice_to_firstn, slice_from_skipn by lia.
  unfold len. rewrite length_app, length_firstn, length_skipn. lia.
Qed.

(** A span whose start was read, [0 <= start <= end + 1], is removed
    without lengthening the candidate; the span [(-1, end)] of a OneOf
    without reads is outside this case. *)
Lemma oneof_candidate_not_longer (cur : bytes) (c : Z * Z) :
  0 <= fst c <= snd c + 1 -> len (oneof_candidate cur c) <= len cur.
Proof. intros H. unfold oneof_candidate. now apply removal_not_longer. Qed.

Lemma chunk_candidate_not_longer (cur : bytes) (k b : Z) :
  0 <= b -> 0 <= k -> len (chunk_candidate cur k b) <= len cur.
Proof. intros Hb Hk. unfold chunk_candidate. apply removal_not_longer. lia. Qed.

(* ================================================================== *)
(** ** More on [structure] *)

Lemma structure_loop_app (a b : trace) : forall v : structure_vars,
  structure_loop v (a ++ b)
  = rbind (structure_loop v a) (fun v1 => structure_loop v1 b).
Proof.
  induction a as [|line a IH]; intros v; simpl; [reflexivity|].
  destruct (structure_line v line) as [v1|e]; simpl; [apply IH | reflexivity].
Qed.

Lemma structure_line_unmarked (v : structure_vars) (line : string) :
  structure_marked line = false -> structure_line v line = Ok v.
Proof.
  unfold structure_marked. intros H.
  destruct (structure_line_branch v line)
    as [[Es _] | [[_ [Er _]] | [[_ [_ [Ee _]]] | [_ [_ [_ Hv]]]]]];
    [rewrite Es in H | rewrite Er in H | rewrite Ee in H | exact Hv];
    simpl in H; try discriminate H.
  - rewrite orb_true_r in H. discriminate H.
  - rewrite orb_true_r in H. discriminate H.
Qed.

Lemma structure_loop_filter (t : trace) : forall v : structure_vars,
  structure_loop v (filter structure_marked t) = structure_loop v t.
Proof.
  induction t as [|line t IH]; intros v; simpl; [reflexivity|].
  destruct (structure_marked line) eqn:E; simpl.
  - destruct (structure_line v line); simpl; [apply IH | reflexivity].
  - rewrite (structure_line_unmarked v line E). simpl. apply IH.
Qed.

(** X1: [structure] only looks at the lines with one of its three markers:
    dropping every other line from the trace changes neither its result
    nor the exception it raises. *)
Theorem structure_ignores_unmarked_lines
        (noStructure : bool) (cur : bytes) (t : trace) :
  structure noStructure cur (filter structure_marked t)
  = structure noStructure cur t.
Proof.
  unfold structure. destruct noStructure; [reflexivity|].
  now rewrite structure_loop_filter.
Qed.

Lemma structure_loop_spans (t : trace) : forall v v' : structure_vars,
  structure_loop v t = Ok v' ->
  len (OneOfs v') = len (OneOfs v) + count is_oneof_end t.
Proof.
  induction t as [|line t IH]; intros v v' H.
  - injection H as <-. unfold count. simpl. unfold len. simpl. lia.
  - simpl in H.
    assert (Hc : count is_oneof_end (line :: t)
                 = (if is_oneof_end line then 1 else 0) + count is_oneof_end t).
    { unfold count. simpl. destruct (is_oneof_end line); [|reflexivity].
      unfold len. simpl List.length. lia. }
    rewrite Hc.
    destruct (structure_line_branch v line)
      as [[Es [Er [Ee Hv]]] | [[Es [Er [Ee Hv]]] | [[Es [Er [Ee Hv]]]
          | [Es [Er [Ee Hv]]]]]];
      rewrite Hv in H; rewrite Ee.
    + simpl in H. apply IH in H. simpl in H. lia.
    + destruct (last_int line) as [n|]; simpl in H; [|discriminate H].
      apply IH in H. simpl in H. lia.
    + destruct (last_item (currentOneOf v)) as [top|]; simpl in H;
        [|discriminate H].
      destruct (lastRead v) as [lr|]; simpl in H; [|discriminate H].
      apply IH in H. simpl in H. rewrite len_snoc in H. lia.
    + simpl in H. apply IH in H. lia.
Qed.

Lemma structure_loop_no_read (t : trace) : forall v v' : structure_vars,
  structure_loop v t = Ok v' ->
  existsb is_oneof_read t = false -> lastRead v' = lastRead v.
Proof.
  induction t as [|line t IH]; intros v v' H Hr.
  - now injection H as <-.
  - simpl in H, Hr. apply orb_false_iff in Hr as [Hl Ht].
    destruct (structure_line_branch v line)
      as [[Es [Er [Ee Hv]]] | [[Es [Er [Ee Hv]]] | [[Es [Er [Ee Hv]]]
          | [Es [Er [Ee Hv]]]]]];
      rewrite Hv in H; try (rewrite Er in Hl; discriminate Hl).
    + simpl in H. now rewrite (IH _ _ H Ht).
    + destruct (last_item (currentOneOf v)) as [top|]; simpl in H;
        [|discriminate H].
      destruct (lastRead v) as [lr|] eqn:El; simpl in H; [|discriminate H].
      rewrite (IH _ _ H Ht). reflexivity.
    + simpl in H. now rewrite (IH _ _ H Ht).
Qed.

(** X2: When [structure] returns, it has recorded one span for each end
    marker of the trace, and its [lastRead] is the offset of the last
    byte-read line. *)
Theorem structure_counts_spans_and_keeps_last_read
        (cur : bytes) (pre post : trace) (line : string)
        (spans : list (Z * Z)) (lr : Z) :
  structure false cur (pre ++ line :: post) = Ok (spans, lr) ->
  is_oneof_read line = true ->
  existsb is_oneof_read post = false ->
  len spans = count is_oneof_end (pre ++ line :: post)
  /\ last_int line = Ok lr.
Proof.
  unfold structure. intros H Hline Hpost.
  destruct (structure_loop _ (pre ++ line :: post)) as [v|e] eqn:E;
    simpl in H; [|discriminate H].
  destruct (lastRead v) as [lr'|] eqn:El; simpl in H; [|discriminate H].
  injection H as <- <-. split.
  - apply structure_loop_spans in E. cbn [OneOfs] in E.
    change (len (@nil (Z * Z))) with 0 in E. lia.
  - rewrite structure_loop_app in E.
    destruct (structure_loop _ pre) as [v1|e]; simpl in E; [|discriminate E].
    destruct (structure_line_branch v1 line)
      as [[_ [Er _]] | [[_ [_ [_ Hv]]] | [[_ [Er _]] | [_ [Er _]]]]];
      try (rewrite Er in Hline; discriminate Hline).
    rewrite Hv in E.
    destruct (last_int line) as [n|]; simpl in E; [|discriminate E].
    apply structure_loop_no_read in E; [|exact Hpost].
    simpl in E. congruence.
Qed.

Lemma structure_counts_spans_and_keeps_last_read_witness :
  len [(4, 7)] = count is_oneof_end
                   (["STARTING OneOf CALL"; "Reading byte at 4";
                     "Reading byte at 7"; "FINISHED OneOf CALL"]
                    ++ "Reading byte at 8" :: ["ERROR: Failed: boom"])
  /\ last_int "Reading byte at 8" = Ok 8.
Proof.
  apply (structure_counts_spans_and_keeps_last_read
           [] ["STARTING OneOf CALL"; "Reading byte at 4";
               "Reading byte at 7"; "FINISHED OneOf CALL"]
           ["ERROR: Failed: boom"] "Reading byte at 8" [(4, 7)] 8);
    reflexivity.
Defined.

Lemma Forall_set_last (A : Type) (P : A -> Prop) (l : list A) (v : A) :
  Forall P l -> P v -> Forall P (set_last l v).
Proof.
  intros H Hv. induction H as [|x l Hx Hl IH]; [constructor|].
  destruct l as [|y l]; [now constructor|].
  change (Forall P (x :: set_last (y :: l) v)). now constructor.
Qed.

Lemma Forall_removelast (A : Type) (P : A -> Prop) (l : list A) :
  Forall P l -> Forall P (removelast l).
Proof.
  intros H. induction H as [|x l Hx Hl IH]; [constructor|].
  destruct l as [|y l]; [constructor|].
  change (Forall P (x :: removelast (y :: l))). now constructor.
Qed.

Lemma Forall_last_item (A : Type) (P : A -> Prop) (l : list A) (x : A) :
  Forall P l -> last_item l = Some x -> P x.
Proof.
  intros H. induction H as [|y l Hy Hl IH]; [discriminate|].
  destruct l as [|z l]; [now intros [= <-] | exact IH].
Qed.

Lemma structure_loop_ordered (t : trace) : forall v v' : structure_vars,
  structure_loop v t = Ok v' ->
  nondecreasing_from (last_or_zero (lastRead v)) (read_offsets t) = true ->
  0 <= last_or_zero (lastRead v) ->
  Forall (fun a => a = -1 \/ 0 <= a <= last_or_zero (lastRead v))
         (currentOneOf v) ->
  forallb span_ordered (OneOfs v) = true ->
  forallb span_ordered (OneOfs v') = true /\ 0 <= last_or_zero (lastRead v').
Proof.
  induction t as [|line t IH]; intros v v' H Hmono Hlo Hstack Hspans.
  - injection H as <-. auto.
  - simpl in H, Hmono.
    destruct (structure_line_branch v line)
      as [[Es [Er [Ee Hv]]] | [[Es [Er [Ee Hv]]] | [[Es [Er [Ee Hv]]]
          | [Es [Er [Ee Hv]]]]]];
      rewrite Hv in H; rewrite Er in Hmono.
    + simpl in H. apply (IH _ _ H); simpl; auto.
      apply Forall_app. split; [exact Hstack|]. constructor; auto.
    + destruct (last_int line) as [n|]; simpl in H; [|discriminate H].
      simpl in Hmono. apply andb_true_iff in Hmono as [Hn Hmono].
      apply Z.leb_le in Hn.
      assert (Hstack' : Forall (fun a => a = -1 \/ 0 <= a <= n)
                               (currentOneOf v)).
      { eapply Forall_impl; [|exact Hstack]. simpl. intros a [Ha|Ha]; lia. }
      apply (IH _ _ H); simpl; auto; [lia|].
      destruct (last_item (currentOneOf v)) as [top|]; [|exact Hstack'].
      destruct (top =? -1); [|exact Hstack'].
      apply Forall_set_last; [exact Hstack' | lia].
    + destruct (last_item (currentOneOf v)) as [top|] eqn:Et; simpl in H;
        [|discriminate H].
      destruct (lastRead v) as [lr|] eqn:El; simpl in H; [|discriminate H].
      simpl in *.
      pose proof (Forall_last_item _ _ _ _ Hstack Et) as Htop. simpl in Htop.
      apply (IH _ _ H); simpl; auto.
      * now apply Forall_removelast.
      * rewrite forallb_app, Hspans. simpl. rewrite andb_true_r.
        unfold span_ordered. simpl.
        apply andb_true_iff. split; [|apply Z.leb_le; lia].
        destruct Htop as [-> | Htop]; [reflexivity|].
        apply orb_true_iff. right. apply andb_true_iff.
        split; apply Z.leb_le; lia.
    + simpl in H. apply (IH _ _ H); auto.
Qed.

(** X3: On a trace whose byte-read offsets are not negative and never go
    down, every span [structure] returns has the sentinel start -1 or
    satisfies [0 <= start <= end]; removing a span of the second kind
    never lengthens the candidate. *)
Theorem structure_spans_ordered
        (cur : bytes) (t : trace) (spans : list (Z * Z)) (lr : Z) :
  structure false cur t = Ok (spans, lr) ->
  nondecreasing_from 0 (read_offsets t) = true ->
  forallb span_ordered spans = true
  /\ 0 <= lr
  /\ forall (test : bytes) (c : Z * Z),
       In c spans -> fst c <> -1 -> len (oneof_candidate test c) <= len test.
Proof.
  unfold structure. intros H Hmono.
  destruct (structure_loop _ t) as [v|e] eqn:E; simpl in H; [|discriminate H].
  destruct (lastRead v) as [lr'|] eqn:El; simpl in H; [|discriminate H].
  injection H as <- <-.
  destruct (structure_loop_ordered t _ _ E) as [Hs Hl]; simpl; auto; [lia|].
  rewrite El in Hl. simpl in Hl.
  split; [exact Hs|]. split; [exact Hl|].
  intros test c Hin Hc.
  rewrite forallb_forall in Hs. specialize (Hs c Hin).
  unfold span_ordered in Hs. apply andb_true_iff in Hs as [Hs _].
  apply orb_true_iff in Hs as [Hs|Hs].
  - apply Z.eqb_eq in Hs. contradiction.
  - apply andb_true_iff in Hs as [H1 H2].
    apply Z.leb_le in H1, H2. apply oneof_candidate_not_longer. lia.
Qed.

Lemma structure_spans_ordered_witness :
  forallb span_ordered [(-1, 2); (4, 7)] = true
  /\ 0 <= 8
  /\ forall (test : bytes) (c : Z * Z),
       In c [(-1, 2); (4, 7)] -> fst c <> -1 ->
       len (oneof_candidate test c) <= len test.
Proof.
  apply (structure_spans_ordered
           []
           ["Reading byte at 2"; "STARTING OneOf CALL"; "FINISHED OneOf CALL";
            "STARTING OneOf CALL"; "Reading byte at 4"; "Reading byte at 7";
            "FINISHED OneOf CALL"; "Reading byte at 8"]
           [(-1, 2); (4, 7)] 8); reflexivity.
Defined.

(* ================================================================== *)
(** ** More on [rangeConversions] *)

Lemma conv_line_conversions (v v' : conv_vars) (line : string) :
  conv_line v line = Ok v' ->
  if is_conversion line then
    exists g value,
      last_int line = Ok value /\ conversions v' = conversions v ++ [(g, value)]
  else conversions v' = conversions v.
Proof.
  unfold conv_line.
  change (contains "Converting out-of-range value" line)
    with (is_conversion line).
  destruct (last_int line) as [value|e] eqn:El;
    destruct (contains "Reading byte at" line); simpl; try discriminate;
    destruct (contains "FINISHED MULTI-BYTE READ" line); simpl;
    try (destruct (rc_lastRead v); simpl; try discriminate);
    destruct (is_conversion line); simpl;
    try (destruct (currentMulti v); simpl; try discriminate);
    try discriminate;
    intros [= <-]; simpl;
    try reflexivity;
    (eexists; eexists; split; reflexivity).
Qed.

Lemma conv_loop_values (t : trace) : forall v v' : conv_vars,
  conv_loop v t = Ok v' ->
  map (fun c => Ok (snd c)) (conversions v')
  = map (fun c => Ok (snd c)) (conversions v)
    ++ map last_int (filter is_conversion t).
Proof.
  induction t as [|line t IH]; intros v v' H.
  - injection H as <-. simpl. now rewrite app_nil_r.
  - simpl in H.
    destruct (conv_line v line) as [v1|e] eqn:E; simpl in H; [|discriminate H].
    apply conv_line_conversions in E. rewrite (IH _ _ H). simpl.
    destruct (is_conversion line).
    + destruct E as [g [value [Hv ->]]].
      rewrite map_app, <- app_assoc. simpl. now rewrite Hv.
    + now rewrite E.
Qed.

(** X4: When [rangeConversions] returns, it has recorded one conversion for
    each conversion line of the trace, in the order of the lines, with
    the integer that ends the line as its value. *)
Theorem rangeConversions_values (t : trace) (convs : list conversion) :
  rangeConversions t = Ok convs ->
  map (fun c => Ok (snd c)) convs = map last_int (filter is_conversion t).
Proof.
  unfold rangeConversions. intros H.
  destruct (conv_loop _ t) as [v|e] eqn:E; simpl in H; [|discriminate H].
  injection H as <-. apply conv_loop_values in E. exact E.
Qed.

Lemma rangeConversions_values_witness :
  map (fun c : conversion => Ok (snd c)) [((Some 0, 1), 3); ((Some 0, 1), 9)]
  = map last_int
        (filter is_conversion
                ["STARTING MULTI-BYTE READ"; "Reading byte at 0";
                 "Reading byte at 1"; "FINISHED MULTI-BYTE READ";
                 "Converting out-of-range value to 3";
                 "Converting out-of-range value to 9"]).
Proof.
  apply (rangeConversions_values
           ["STARTING MULTI-BYTE READ"; "Reading byte at 0";
            "Reading byte at 1"; "FINISHED MULTI-BYTE READ";
            "Converting out-of-range value to 3";
            "Converting out-of-range value to 9"]
           [((Some 0, 1), 3); ((Some 0, 1), 9)]).
  reflexivity.
Defined.

Lemma conv_line_unmarked_same (v : conv_vars) (line : string) :
  unmarked line = true -> conv_line v line = Ok v.
Proof.
  unfold unmarked. intros H.
  apply andb_true_iff in H as [H Hc]. apply andb_true_iff in H as [H Hm].
  apply andb_true_iff in H as [Hr Hs].
  apply negb_true_iff in Hr, Hs, Hm, Hc.
  unfold is_read in Hr. unfold is_multi_end in Hm. unfold is_conversion in Hc.
  unfold conv_line. rewrite Hr, Hs, Hm, Hc. simpl.
  destruct v as [c s' m l cm]. simpl. rewrite andb_false_r.
  now destruct s'.
Qed.

(** X5: [rangeConversions] only looks at the lines with one of its four
    markers: dropping every other line from the trace changes neither
    its result nor the exception it raises. *)
Theorem rangeConversions_ignores_unmarked_lines (t : trace) :
  rangeConversions (filter (fun line => negb (unmarked line)) t)
  = rangeConversions t.
Proof.
  unfold rangeConversions. f_equal.
  generalize {| conversions := []; startedMulti := false; multiFirst := None;
                rc_lastRead := None; currentMulti := None |}.
  induction t as [|line t IH]; intros v; simpl; [reflexivity|].
  destruct (unmarked line) eqn:E; simpl.
  - rewrite (conv_line_unmarked_same v line E). simpl. apply IH.
  - destruct (conv_line v line); simpl; [apply IH | reflexivity].
Qed.

(* ================================================================== *)
(** ** More on [fixRangeConversions] *)

Lemma len_cons (A : Type) (x : A) (l : list A) : len (x :: l) = len l + 1.
Proof. change (x :: l) with ([x] ++ l). rewrite len_app. apply Z.add_comm. Qed.

Lemma fix_loop_count (convs : list conversion) :
  forall (t : bytes) (n : Z) (t' : bytes) (n' : Z),
    fix_loop t n convs = Ok (t', n') -> n' <= n + len convs.
Proof.
  induction convs as [|[pos value] rest IH]; intros t n t' n' H.
  - simpl in H. injection H as <- <-. unfold len. simpl. lia.
  - rewrite len_cons. pose proof (len_nonneg _ rest) as Hr.
    apply fix_loop_cons in H
      as [[_ [-> ->]] | [[_ [H _]] | [_ [_ [x [first [t1 [t2 H]]]]]]]].
    + lia.
    + apply IH in H. lia.
    + destruct H as [_ [_ [_ [_ [_ H]]]]]. apply IH in H. lia.
Qed.

Lemma fix_loop_changed (convs : list conversion) :
  forall (t : bytes) (n : Z) (t' : bytes) (n' : Z),
    bytes_ok t -> fix_loop t n convs = Ok (t', n') -> n < n' -> t' <> t.
Proof.
  induction convs as [|[pos value] rest IH]; intros t n t' n' Hok H Hn.
  - simpl in H. injection H as <- <-. lia.
  - apply fix_loop_cons in H
      as [[_ [-> ->]] | [[_ [H _]] | [_ [_ [x [first [t1 [t2 H]]]]]]]].
    + lia.
    + now apply (IH _ _ _ _ Hok H).
    + destruct H as [Hg [Hx [_ [Hz [Hs H]]]]].
      destruct (fix_round_below _ _ _ _ _ _ _ Hok Hg Hx Hz Hs)
        as [Hok2 [Hb2 Hg2]].
      destruct (fix_loop_below _ _ _ _ _ Hok2 H) as [_ [Hb _]].
      destruct (getitem_below _ _ _ _ Hb Hg2) as [y [Hy Hyv]].
      intros ->. rewrite Hg in Hy. injection Hy as ->. lia.
Qed.

(** X6: On a bytearray, [fixRangeConversions] keeps the length, only lowers
    bytes and leaves them in [0,255]; the count it reports is between 0
    and the number of conversions, and is 0 exactly when nothing
    changed. *)
Theorem fixRangeConversions_only_lowers_bytes
        (noStructure : bool) (test : bytes) (convs : list conversion)
        (fixed : bytes) (n : Z) :
  bytes_ok test ->
  fixRangeConversions noStructure test convs = Ok (fixed, n) ->
  len fixed = len test /\ bytes_ok fixed /\ below fixed test
  /\ 0 <= n <= len convs /\ (n = 0 <-> fixed = test).
Proof.
  intros Hok H. unfold fixRangeConversions in H. destruct noStructure.
  - injection H as <- <-. pose proof (len_nonneg _ convs).
    repeat split; auto using below_refl; lia.
  - destruct (fix_loop_below _ _ _ _ _ Hok H) as [Hok' [Hb [Hn Heq]]].
    pose proof (fix_loop_count _ _ _ _ _ H) as Hc.
    repeat split; auto; try lia.
    + now apply below_len.
    + intros E. destruct (Z.eq_dec n 0) as [|Hne]; [assumption|].
      exfalso. apply (fix_loop_changed _ _ _ _ _ Hok H); [lia | exact E].
Qed.

Lemma fixRangeConversions_only_lowers_bytes_witness :
  len [0; 0; 4] = len [7; 9; 8] /\ bytes_ok [0; 0; 4]
  /\ below [0; 0; 4] [7; 9; 8]
  /\ 0 <= 2 <= len [((Some 0, 1), 3); ((Some 1, 2), 4); ((Some 0, 9), 1)]
  /\ (2 = 0 <-> [0; 0; 4] = [7; 9; 8]).
Proof.
  apply (fixRangeConversions_only_lowers_bytes
           false [7; 9; 8]
           [((Some 0, 1), 3); ((Some 1, 2), 4); ((Some 0, 9), 1)]
           [0; 0; 4] 2); reflexivity.
Defined.

(** X7: Two ways in which a conversion that applies makes
    [fixRangeConversions] raise: a negative value cannot be stored in
    the bytearray ([ValueError]), and a group whose first byte was never
    seen has [None] as its start ([TypeError] in [range]). *)
Theorem fixRangeConversions_raises
        (test : bytes) (first last value : Z) (rest : list conversion) :
  bytes_ok test -> 0 <= last < len test ->
  (value < 0 -> 0 <= first ->
   fixRangeConversions false test (((Some first, last), value) :: rest)
   = Raise ValueError)
  /\ (value < 255 -> value < nth (Z.to_nat last) test 0 ->
      fixRangeConversions false test (((None, last), value) :: rest)
      = Raise TypeError).
Proof.
  intros Hok Hl.
  pose proof (bytes_ok_nth test (Z.to_nat last) Hok) as Hbyte.
  unfold fixRangeConversions. simpl.
  replace (len test <=? last) with false by (symmetry; apply Z.leb_gt; lia).
  rewrite getitem_inside by lia. simpl. split.
  - intros Hv Hf.
    replace (value <? 255) with true by (symmetry; apply Z.ltb_lt; lia).
    simpl.
    replace (value <? nth (Z.to_nat last) test 0) with true
      by (symmetry; apply Z.ltb_lt; lia).
    simpl.
    destruct (zero_range_inside (range first last) test) as [t1 [Hz [Hlen _]]].
    { intros b Hb. apply In_range in Hb. lia. }
    rewrite Hz. simpl. unfold setitem.
    rewrite subscript_inside by (unfold len in *; rewrite Hlen; lia).
    replace ((0 <=? value) && (value <? 256)) with false; [reflexivity|].
    symmetry. apply andb_false_iff. left. apply Z.leb_gt. lia.
  - intros Hv Hx.
    replace (value <? 255) with true by (symmetry; apply Z.ltb_lt; lia).
    simpl.
    replace (value <? nth (Z.to_nat last) test 0) with true
      by (symmetry; apply Z.ltb_lt; lia).
    reflexivity.
Qed.

Lemma fixRangeConversions_raises_witness :
  fixRangeConversions false [7; 9; 8] [((Some 0, 1), -3)] = Raise ValueError
  /\ fixRangeConversions false [7; 9; 8] [((None, 1), 3)] = Raise TypeError.
Proof.
  assert (Hok : bytes_ok [7; 9; 8]) by reflexivity.
  assert (Hl : 0 <= 1 < len [7; 9; 8]) by (unfold len; simpl; lia).
  destruct (fixRangeConversions_raises [7; 9; 8] 0 1 (-3) [] Hok Hl)
    as [Hv _].
  destruct (fixRangeConversions_raises [7; 9; 8] 0 1 3 [] Hok Hl)
    as [_ Ht].
  split.
  - apply Hv; lia.
  - apply Ht; [lia | vm_compute; reflexivity].
Defined.

(* ================================================================== *)
(** ** What one trial does to the state *)

(** An accepted trial makes the candidate as long as the proposal,
    writes it to the output file and, with [--noStructure], records no
    span; a rejected trial and a timeout leave candidate, structure and
    output file alone.  No trial runs out of fuel. *)
Lemma attempt_spec (args : Args) (input : bytes)
      (oracle : nat -> bytes -> trace) (elapsed : nat -> Q)
      (newTest : bytes) (st : State) :
  match fst (attempt args input oracle elapsed newTest st) with
  | Val true =>
      len (currentTest (snd (attempt args input oracle elapsed newTest st)))
      = len newTest
      /\ output_test (snd (attempt args input oracle elapsed newTest st))
         = Some (currentTest (snd (attempt args input oracle elapsed newTest st)))
      /\ (noStructure args = true ->
          fst (s (snd (attempt args input oracle elapsed newTest st))) = [])
  | Val false | Exc TimeoutException =>
      currentTest (snd (attempt args input oracle elapsed newTest st))
      = currentTest st
      /\ s (snd (attempt args input oracle elapsed newTest st)) = s st
      /\ output_test (snd (attempt args input oracle elapsed newTest st))
         = output_test st
  | Exc (Error _) =>
      len (currentTest (snd (attempt args input oracle elapsed newTest st)))
      = len newTest
  | Fuel => False
  end.
Proof.
  rewrite attempt_eq. cbv zeta.
  destruct (expired args elapsed (S (candidateRuns st))); [simpl; auto|].
  destruct (checks args (oracle (S (candidateRuns st)) newTest));
    [|simpl; auto].
  rewrite updateCurrent_eq. cbn [r set_r initialSize set_r add_event
                                 set_candidateRuns set_candidate_file].
  destruct (rangeConversions _) as [convs|e]; [|reflexivity].
  destruct (fixRangeConversions (noStructure args) newTest convs)
    as [[fixed n]|e] eqn:Ef; [|reflexivity].
  destruct (fixRangeConversions_shape _ _ _ _ _ Ef) as [Hl _].
  cbv zeta. cbn [fst].
  destruct (structure (noStructure args) fixed _) as [sv|e] eqn:Es;
    [|exact Hl].
  destruct (initialSize st =? 0); [exact Hl|].
  cbn. split; [exact Hl|]. split; [reflexivity|].
  intros Hns. unfold structure in Es. rewrite Hns in Es.
  now injection Es as <-.
Qed.

(* ================================================================== *)
(** ** Invariants that every pass keeps *)

Section PassInvariant.

Variable args : Args.
Variable input : bytes.
Variable oracle : nat -> bytes -> trace.
Variable elapsed : nat -> Q.

(** An invariant [I] of the states the loop goes through, what is left
    of it after an exception ([E]), and a property [P] of the length of
    the candidate that [I] implies, that proposals no longer than the
    candidate keep, and that an accepted trial restores. *)
Variable I E : State -> Prop.
Variable P : Z -> Prop.

Hypothesis I_E : forall st, I st -> E st.
Hypothesis I_len : forall st, I st -> P (len (currentTest st)).
Hypothesis P_down : forall n m, P n -> 0 <= m <= n -> P m.
Hypothesis I_attempt :
  forall newTest, P (len newTest) ->
    ensures I E (attempt args input oracle elapsed newTest) (fun _ => True).
Hypothesis I_print : forall m, ensures I E (print m) (fun _ => True).

Local Arguments bind : simpl never.

Lemma ensures_ret (A : Type) (a : A) (Q : A -> Prop) :
  Q a -> ensures I E (ret a) Q.
Proof. intros Hq st H. simpl. auto. Qed.

Lemma ensures_gets (A : Type) (f : State -> A) (Q : A -> Prop) :
  (forall st, I st -> Q (f st)) -> ensures I E (gets f) Q.
Proof. intros Hq st H. simpl. auto. Qed.

Lemma ensures_cur :
  ensures I E (gets currentTest) (fun cur => P (len cur)).
Proof. apply ensures_gets. exact I_len. Qed.

Lemma ensures_lift (A : Type) (x : res A) (Q : A -> Prop) :
  (forall a, x = Ok a -> Q a) -> ensures I E (lift x) Q.
Proof. intros Hq st H. destruct x as [a|e]; simpl; auto. Qed.

Lemma ensures_item (l : bytes) (i : Z) :
  ensures I E (item l i) (fun _ => True).
Proof. apply ensures_lift. auto. Qed.

Lemma ensures_out_of_fuel (A : Type) (Q : A -> Prop) :
  ensures I E (@out_of_fuel A) Q.
Proof. intros st H. simpl. auto. Qed.

Lemma ensures_percent : ensures I E percent (fun _ => True).
Proof.
  intros st H. unfold percent, bind, gets, raise, ret.
  destruct (initialSize st =? 0); simpl; auto.
Qed.

Lemma ensures_bind (A B : Type) (m : M A) (f : A -> M B)
      (R : A -> Prop) (Q : B -> Prop) :
  ensures I E m R -> (forall a, R a -> ensures I E (f a) Q) ->
  ensures I E (bind m f) Q.
Proof.
  intros Hm Hf st H. unfold bind. specialize (Hm st H).
  destruct (m st) as [[a|[|e]|] st1]; simpl in *; auto.
  destruct Hm as [H1 Hr]. now apply Hf.
Qed.

Lemma ensures_weaken (A : Type) (m : M A) (Q Q' : A -> Prop) :
  ensures I E m Q -> (forall a, Q a -> Q' a) -> ensures I E m Q'.
Proof.
  intros Hm Hq st H. specialize (Hm st H).
  destruct (fst (m st)) as [a|[|e]|]; auto. destruct Hm. auto.
Qed.

Lemma ensures_try (m handler : M unit) (Q : unit -> Prop) :
  ensures I E m Q -> ensures I E handler Q ->
  ensures I E (try_except_timeout m handler) Q.
Proof.
  intros Hm Hh st H. unfold try_except_timeout. specialize (Hm st H).
  destruct (m st) as [[a|[|e]|] st1]; simpl in *; auto.
  now apply Hh.
Qed.

(** One trial on a proposal that is no longer than the candidate. *)
Lemma ensures_shorter (cur newTest : bytes) :
  P (len cur) -> len newTest <= len cur ->
  ensures I E (attempt args input oracle elapsed newTest) (fun _ => True).
Proof.
  intros Hc Hl. apply I_attempt. apply (P_down (len cur)); [exact Hc|].
  split; [apply len_nonneg | exact Hl].
Qed.

(** *** The removal passes *)

Lemma ensures_chunk_for (k : Z) (bs : list Z) :
  0 <= k -> Forall (fun b => 0 <= b) bs ->
  ensures I E (chunk_for args input oracle elapsed k bs)
          (fun found => forall b, found = Some b -> 0 <= b).
Proof.
  intros Hk Hbs. induction Hbs as [|b bs Hb Hbs IH]; simpl.
  - apply ensures_ret. discriminate.
  - eapply ensures_bind; [apply ensures_cur|]. intros cur Hcur.
    eapply ensures_bind.
    + apply (ensures_shorter cur); [exact Hcur|].
      now apply chunk_candidate_not_longer.
    + intros [|] _; [|exact IH].
      apply ensures_ret. now intros b' [= <-].
Qed.

Lemma Forall_range_nonneg (a b : Z) :
  0 <= a -> Forall (fun x => 0 <= x) (range a b).
Proof.
  intros Ha. apply Forall_forall. intros x Hx. apply In_range in Hx. lia.
Qed.

Lemma ensures_chunk_while (fuel : nat) : forall k startingPos : Z,
  0 <= k -> 0 <= startingPos ->
  ensures I E (chunk_while args input oracle elapsed fuel k startingPos)
          (fun _ => True).
Proof.
  induction fuel as [|fuel IH]; intros k sp Hk Hsp; simpl.
  - apply ensures_out_of_fuel.
  - eapply ensures_bind; [apply ensures_cur|]. intros cur _.
    eapply ensures_bind;
      [apply ensures_chunk_for; [assumption | apply Forall_range_nonneg; lia]|].
    intros [b|] Hb.
    + apply IH; auto.
    + eapply ensures_bind;
        [apply ensures_chunk_for; [assumption | apply Forall_range_nonneg; lia]|].
      intros [b|] Hb'; [apply IH; auto | now apply ensures_ret].
Qed.

Lemma setitem_len (l l' : bytes) (i v : Z) :
  setitem l i v = Ok l' -> len l' = len l.
Proof.
  intros H. apply setitem_inv in H as [k [_ [_ ->]]].
  unfold len. now rewrite update_nth_length.
Qed.

Lemma ensures_reduce_delete_for (k : Z) (bs : list Z) :
  0 <= k -> Forall (fun b => 0 <= b) bs ->
  ensures I E (reduce_delete_for args input oracle elapsed k bs)
          (fun _ => True).
Proof.
  intros Hk Hbs. induction Hbs as [|b bs Hb Hbs IH]; simpl.
  - now apply ensures_ret.
  - eapply ensures_bind; [apply ensures_cur|]. intros cur Hcur.
    eapply ensures_bind; [apply ensures_item|]. intros x _.
    destruct (x =? 0); [exact IH|].
    eapply ensures_bind.
    + apply ensures_lift with (Q := fun nt => len nt = len cur).
      intros nt Hnt. now apply setitem_len in Hnt.
    + intros nt Hnt. simpl in Hnt.
      eapply ensures_bind.
      * apply (ensures_shorter cur); [exact Hcur|].
        rewrite <- Hnt. apply removal_not_longer. lia.
      * intros [|] _; [now apply ensures_ret | exact IH].
Qed.

Lemma ensures_reduce_delete_while (fuel : nat) (k : Z) :
  0 <= k ->
  ensures I E (reduce_delete_while args input oracle elapsed fuel k)
          (fun _ => True).
Proof.
  intros Hk. induction fuel as [|fuel IH]; simpl.
  - apply ensures_out_of_fuel.
  - eapply ensures_bind; [apply ensures_cur|]. intros cur _.
    eapply ensures_bind;
      [apply ensures_reduce_delete_for; [assumption | apply Forall_range_nonneg; lia]|].
    intros [|] _; [exact IH | now apply ensures_ret].
Qed.

Lemma ensures_allrange_inner (b : Z) (vs : list Z) :
  0 <= b -> Forall (fun v => b <= v) vs ->
  ensures I E (allrange_inner args input oracle elapsed b vs) (fun _ => True).
Proof.
  intros Hb Hvs. induction Hvs as [|v vs Hv Hvs IH]; simpl.
  - now apply ensures_ret.
  - destruct ((v - b =? 4) || (v - b =? 8)); [exact IH|].
    eapply ensures_bind; [apply ensures_cur|]. intros cur Hcur.
    eapply ensures_bind.
    + apply (ensures_shorter cur); [exact Hcur|].
      apply removal_not_longer. lia.
    + intros [|] _; [now apply ensures_ret | exact IH].
Qed.

Lemma ensures_allrange_for (mbr : Z) (bs : list Z) :
  Forall (fun b => 0 <= b) bs ->
  ensures I E (allrange_for args input oracle elapsed mbr bs)
          (fun found => forall b, found = Some b -> 0 <= b).
Proof.
  intros Hbs. induction Hbs as [|b bs Hb Hbs IH]; simpl.
  - apply ensures_ret. discriminate.
  - eapply ensures_bind; [apply ensures_cur|]. intros cur _.
    eapply ensures_bind.
    + apply ensures_allrange_inner; [exact Hb|].
      apply Forall_forall. intros v Hv. apply In_range in Hv. lia.
    + intros [|] _; [|exact IH].
      apply ensures_ret. now intros b' [= <-].
Qed.

Lemma ensures_allrange_while (fuel : nat) : forall mbr startingPos : Z,
  0 <= startingPos ->
  ensures I E (allrange_while args input oracle elapsed fuel mbr startingPos)
          (fun _ => True).
Proof.
  induction fuel as [|fuel IH]; intros mbr sp Hsp; simpl.
  - apply ensures_out_of_fuel.
  - eapply ensures_bind; [apply ensures_cur|]. intros cur _.
    eapply ensures_bind;
      [apply ensures_allrange_for; apply Forall_range_nonneg; lia|].
    intros [b|] Hb.
    + apply IH; auto.
    + eapply ensures_bind;
        [apply ensures_allrange_for; apply Forall_range_nonneg; lia|].
      intros [b|] Hb'; [apply IH; auto | now apply ensures_ret].
Qed.

(** *** Byte reductions *)

Lemma ensures_bytereduce_inner (b : Z) (vs : list Z) :
  ensures I E (bytereduce_inner args input oracle elapsed b vs)
          (fun _ => True).
Proof.
  induction vs as [|v vs IH]; simpl.
  - now apply ensures_ret.
  - eapply ensures_bind; [apply ensures_cur|]. intros cur Hcur.
    eapply ensures_bind.
    + apply ensures_lift with (Q := fun nt => len nt = len cur).
      intros nt Hnt. now apply setitem_len in Hnt.
    + intros nt Hnt. simpl in Hnt.
      eapply ensures_bind.
      * apply (ensures_shorter cur); [exact Hcur | lia].
      * intros [|] _; [now apply ensures_ret | exact IH].
Qed.

Lemma ensures_bytereduce_for (bs : list Z) :
  ensures I E (bytereduce_for args input oracle elapsed bs) (fun _ => True).
Proof.
  induction bs as [|b bs IH]; simpl.
  - now apply ensures_ret.
  - eapply ensures_bind; [apply ensures_cur|]. intros cur _.
    eapply ensures_bind; [apply ensures_item|]. intros x _.
    eapply ensures_bind; [apply ensures_bytereduce_inner|].
    intros [|] _; [now apply ensures_ret | exact IH].
Qed.

Lemma ensures_bytereduce_while (fuel : nat) : forall startingPos : Z,
  ensures I E (bytereduce_while args input oracle elapsed fuel startingPos)
          (fun _ => True).
Proof.
  induction fuel as [|fuel IH]; intros sp; simpl.
  - apply ensures_out_of_fuel.
  - eapply ensures_bind; [apply ensures_cur|]. intros cur _.
    eapply ensures_bind; [apply ensures_bytereduce_for|].
    intros [b|] _; [apply IH|].
    eapply ensures_bind; [apply ensures_bytereduce_for|].
    intros [b|] _; [apply IH | now apply ensures_ret].
Qed.

(** *** Byte pattern search *)

Lemma slice_len (A : Type) (l : list A) (lo hi : Z) :
  0 <= lo <= hi -> hi <= len l -> len (slice l lo hi) = hi - lo.
Proof.
  intros H1 H2. unfold slice, slice_index.
  replace (lo <? 0) with false by (symmetry; apply Z.ltb_ge; lia).
  replace (hi <? 0) with false by (symmetry; apply Z.ltb_ge; lia).
  rewrite !Z.min_l by lia. unfold len in *.
  rewrite length_firstn, length_skipn. lia.
Qed.

Lemma getitem_bound (l : bytes) (i x : Z) :
  getitem l i = Some x -> 0 <= i -> i < len l.
Proof.
  unfold getitem, subscript. intros H Hi.
  destruct ((0 <=? i) && (i <? len l)) eqn:E1.
  - apply andb_true_iff in E1 as [_ E1]. now apply Z.ltb_lt in E1.
  - replace (i <? 0) with false in H by (symmetry; apply Z.ltb_ge; lia).
    discriminate H.
Qed.

Lemma banews_short (b0 b1 : Z) :
  Forall (fun banew => len banew <= 2) (banews b0 b1).
Proof.
  unfold banews. apply Forall_app. split; [|apply Forall_app; split].
  - repeat constructor; unfold len; simpl; lia.
  - destruct (0 <? b0); [|constructor].
    apply Forall_app. split; [|repeat constructor; unfold len; simpl; lia].
    apply Forall_forall. intros x Hx. apply in_map_iff in Hx as [v [<- _]].
    unfold len. simpl. lia.
  - destruct (0 <? b1); [|constructor].
    apply Forall_forall. intros x Hx. apply in_map_iff in Hx as [v [<- _]].
    unfold len. simpl. lia.
Qed.

Lemma pattern_candidate_not_longer (cur banew : bytes) (b1 b2 : Z) :
  0 <= b1 -> b1 + 2 <= b2 -> b2 + 2 <= len cur -> len banew <= 2 ->
  len (slice_to cur b1 ++ banew ++ slice cur (b1 + 2) b2 ++ banew
       ++ slice_from cur (b2 + 2)) <= len cur.
Proof.
  intros H1 H2 H3 H4.
  rewrite !len_app, slice_len by lia.
  rewrite slice_to_firstn, slice_from_skipn by lia.
  unfold len in *. rewrite length_firstn, length_skipn. lia.
Qed.

Lemma ensures_pattern_try (cur part1 part2 part3 : bytes) (news : list bytes) :
  P (len cur) ->
  Forall (fun banew =>
            len (part1 ++ banew ++ part2 ++ banew ++ part3) <= len cur) news ->
  ensures I E (pattern_try args input oracle elapsed part1 part2 part3 news)
          (fun _ => True).
Proof.
  intros Hcur Hnews. induction Hnews as [|banew news Hb Hnews IH]; simpl.
  - now apply ensures_ret.
  - eapply ensures_bind; [apply (ensures_shorter cur); assumption|].
    intros [|] _; [now apply ensures_ret | exact IH].
Qed.

Lemma ensures_pattern_inner (b1 : Z) (b2s : list Z) :
  0 <= b1 -> Forall (fun b2 => b1 + 2 <= b2) b2s ->
  ensures I E (pattern_inner args input oracle elapsed b1 b2s) (fun _ => True).
Proof.
  intros Hb1 Hb2s.
  induction Hb2s as [|b2 b2s Hb2 Hb2s IH]; cbn [pattern_inner].
  - now apply ensures_ret.
  - eapply ensures_bind; [apply ensures_cur|]. intros cur Hcur.
    eapply ensures_bind; [apply ensures_item|]. intros v10 _.
    eapply ensures_bind; [apply ensures_item|]. intros v11 _.
    eapply ensures_bind; [apply ensures_item|]. intros v20 _.
    eapply ensures_bind.
    + unfold item. apply ensures_lift with (Q := fun _ => b2 + 1 < len cur).
      intros a Ha. destruct (getitem cur (b2 + 1)) as [x|] eqn:Eg;
        [|discriminate Ha].
      apply (getitem_bound _ _ _ Eg). lia.
    + intros v21 Hlen. simpl in Hlen.
      destruct ((v10 =? v20) && (v11 =? v21)); [|exact IH].
      eapply ensures_bind.
      * apply (ensures_pattern_try cur); [exact Hcur|].
        eapply Forall_impl; [|apply banews_short].
        intros banew Hbanew. cbv beta in Hbanew |- *.
        apply pattern_candidate_not_longer; lia.
      * intros [|] _; [now apply ensures_ret | exact IH].
Qed.

Lemma ensures_pattern_for (b1s : list Z) :
  Forall (fun b1 => 0 <= b1) b1s ->
  ensures I E (pattern_for args input oracle elapsed b1s) (fun _ => True).
Proof.
  intros Hb1s. induction Hb1s as [|b1 b1s Hb1 Hb1s IH]; simpl.
  - now apply ensures_ret.
  - eapply ensures_bind; [apply ensures_cur|]. intros cur _.
    eapply ensures_bind.
    + apply ensures_pattern_inner; [exact Hb1|].
      apply Forall_forall. intros b2 Hb2. apply In_range in Hb2. lia.
    + intros [|] _; [now apply ensures_ret | exact IH].
Qed.

Lemma ensures_pattern_while (fuel : nat) :
  ensures I E (pattern_while args input oracle elapsed fuel) (fun _ => True).
Proof.
  induction fuel as [|fuel IH]; simpl.
  - apply ensures_out_of_fuel.
  - eapply ensures_bind; [apply ensures_cur|]. intros cur _.
    eapply ensures_bind;
      [apply ensures_pattern_for; apply Forall_range_nonneg; lia|].
    intros [|] _; [exact IH | now apply ensures_ret].
Qed.

(** *** The passes over the spans, and the whole loop *)

(** The spans cannot lengthen the candidate: there are none, or [P]
    does not restrict the length. *)
Hypothesis I_cuts : forall st, I st -> fst (s st) = [] \/ forall n, P n.

Lemma ensures_oneof_for (cuts : list (Z * Z)) :
  cuts = [] \/ (forall n, P n) ->
  ensures I E (oneof_for args input oracle elapsed cuts) (fun _ => True).
Proof.
  intros [-> | HP]; [now apply ensures_ret|].
  induction cuts as [|c cuts IH]; simpl.
  - now apply ensures_ret.
  - eapply ensures_bind; [apply ensures_cur|]. intros cur _.
    destruct (len (oneof_candidate cur c) =? len cur); [exact IH|].
    eapply ensures_bind; [apply I_attempt; apply HP|].
    intros [|] _; [now apply ensures_ret | exact IH].
Qed.

Lemma ensures_oneof_while (fuel : nat) :
  ensures I E (oneof_while args input oracle elapsed fuel) (fun _ => True).
Proof.
  induction fuel as [|fuel IH]; simpl.
  - apply ensures_out_of_fuel.
  - eapply ensures_bind;
      [apply ensures_gets
         with (Q := fun sv : list (Z * Z) * Z => fst sv = [] \/ forall n, P n);
       exact I_cuts|].
    intros sv Hsv. simpl in Hsv.
    eapply ensures_bind; [apply ensures_oneof_for; exact Hsv|].
    intros [|] _; [exact IH | now apply ensures_ret].
Qed.

Lemma ensures_swap_inner (cuts : list (Z * Z)) (cuti : Z * Z) (js : list Z) :
  (forall n, P n) ->
  ensures I E (swap_inner args input oracle elapsed cuts cuti js)
          (fun _ => True).
Proof.
  intros HP. induction js as [|j js IH]; simpl.
  - now apply ensures_ret.
  - eapply ensures_bind; [apply ensures_cur|]. intros cur _.
    eapply ensures_bind; [apply ensures_lift with (Q := fun _ => True); auto|].
    intros cutj _.
    match goal with |- ensures _ _ (if ?b then _ else _) _ => destruct b end;
      [|exact IH].
    eapply ensures_bind; [apply I_attempt; apply HP|].
    intros [|] _; [now apply ensures_ret | exact IH].
Qed.

Lemma ensures_swap_for (cuts : list (Z * Z)) (idxs : list Z) :
  idxs = [] \/ (forall n, P n) ->
  ensures I E (swap_for args input oracle elapsed cuts idxs) (fun _ => True).
Proof.
  intros [-> | HP]; [now apply ensures_ret|].
  induction idxs as [|i idxs IH]; simpl.
  - now apply ensures_ret.
  - eapply ensures_bind; [apply ensures_lift with (Q := fun _ => True); auto|].
    intros cuti _.
    eapply ensures_bind; [now apply ensures_swap_inner|].
    intros [|] _; [now apply ensures_ret | exact IH].
Qed.

Lemma ensures_swap_while (fuel : nat) :
  ensures I E (swap_while args input oracle elapsed fuel) (fun _ => True).
Proof.
  induction fuel as [|fuel IH]; simpl.
  - apply ensures_out_of_fuel.
  - eapply ensures_bind;
      [apply ensures_gets
         with (Q := fun sv : list (Z * Z) * Z => fst sv = [] \/ forall n, P n);
       exact I_cuts|].
    intros sv Hsv. simpl in Hsv.
    eapply ensures_bind.
    + apply ensures_swap_for. destruct Hsv as [-> | HP]; [left|right]; auto.
    + intros [|] _; [exact IH | now apply ensures_ret].
Qed.

Create HintDb ens_db.
#[local] Hint Resolve ensures_percent ensures_out_of_fuel ensures_oneof_while
  ensures_swap_while ensures_bytereduce_while ensures_pattern_while : ens_db.

Ltac ens_step :=
  match goal with
  | |- ensures _ _ (bind _ _) _ =>
      apply ensures_bind with (R := fun _ => True); [|intros ? _]
  | |- ensures _ _ (ret _) _ => apply ensures_ret; exact Logic.I
  | |- ensures _ _ (gets _) _ => apply ensures_gets; intros; exact Logic.I
  | |- ensures _ _ passInfo _ => apply ensures_percent
  | |- ensures _ _ (print _) _ => apply I_print
  | |- ensures _ _ (if ?b then _ else _) _ => destruct b
  | |- ensures _ _ _ _ => solve [auto with ens_db]
  end.

Lemma ensures_chunk_passes (fuel : nat) (ks : list Z) :
  Forall (fun k => 0 <= k) ks ->
  forall sn : Snapshots,
    ensures I E (chunk_passes args input oracle elapsed fuel ks sn)
            (fun _ => True).
Proof.
  intros Hks. induction Hks as [|k ks Hk Hks IH]; intros sn; simpl.
  - now apply ensures_ret.
  - repeat ens_step; try apply IH.
    apply ensures_chunk_while; [exact Hk | lia].
Qed.

Lemma ensures_reduce_delete_passes (fuel : nat) (ks : list Z) :
  Forall (fun k => 0 <= k) ks ->
  forall sn : Snapshots,
    ensures I E (reduce_delete_passes args input oracle elapsed fuel ks sn)
            (fun _ => True).
Proof.
  intros Hks. induction Hks as [|k ks Hk Hks IH]; intros sn; simpl.
  - now apply ensures_ret.
  - repeat ens_step; try apply IH.
    now apply ensures_reduce_delete_while.
Qed.

Lemma ensures_iteration (fuel : nat) (mbr : Z) (oldTest : bytes)
      (sn : Snapshots) :
  ensures I E (iteration args input oracle elapsed fuel mbr oldTest sn)
          (fun _ => True).
Proof.
  unfold iteration, oneof_pass, allrange_pass, swap_pass, bytereduce_pass,
    pattern_pass.
  repeat ens_step;
    try (apply ensures_chunk_passes; repeat constructor; lia);
    try (apply ensures_reduce_delete_passes; repeat constructor; lia);
    try (apply ensures_allrange_while; lia).
Qed.

Lemma ensures_reduce_loop (rounds fuel : nat) (mbr : Z) :
  forall (oldTest : snapshot) (sn : Snapshots),
    ensures I E
            (reduce_loop args input oracle elapsed rounds fuel mbr oldTest sn)
            (fun _ => True).
Proof.
  induction rounds as [|rounds IH]; intros oldTest sn; simpl.
  - apply ensures_out_of_fuel.
  - repeat ens_step; try apply ensures_iteration; try apply IH.
Qed.

Lemma ensures_reduction (fuel : nat) (mbr : Z) :
  ensures I E (reduction args input oracle elapsed fuel mbr) (fun _ => True).
Proof.
  unfold reduction. apply ensures_try; [apply ensures_reduce_loop|].
  apply I_print.
Qed.

End PassInvariant.

(* ================================================================== *)
(** ** Startup, case by case *)

(** How lines 176-204 can end, from the state and clock they start in. *)
Lemma startup_cases (args : Args) (input : bytes)
      (oracle : nat -> bytes -> trace) (elapsed : nat -> Q) (st : State) :
  let n1 := S (candidateRuns st) in
  let initial := oracle n1 input in
  match startup args input oracle elapsed st with
  | (Val None, st') =>
      expired args elapsed n1 = false /\ search args = false
      /\ checks args initial = false
      /\ output_test st' = output_test st /\ currentTest st' = currentTest st
  | (Val (Some mbr), st') =>
      exists convs fixed n,
        expired args elapsed n1 = false
        /\ expired args elapsed (S n1) = false
        /\ (search args = true \/ checks args initial = true)
        /\ rangeConversions initial = Ok convs
        /\ fixRangeConversions (noStructure args) input convs = Ok (fixed, n)
        /\ checks args (oracle (S n1) fixed) = true
        /\ structure (noStructure args) fixed initial = Ok (s st')
        /\ currentTest st'
           = (if snd (s st') + 1 <? len fixed
              then slice_to fixed (snd (s st') + 1) else fixed)
        /\ initialSize st' = len (currentTest st')
        /\ output_test st'
           = (if bytes_eqb (currentTest st') input then output_test st
              else Some (currentTest st'))
        /\ mbr = (if slowest args then len input else maxByteRange args)
        /\ candidateRuns st' = S n1
  | (Exc TimeoutException, st') =>
      (expired args elapsed n1 = true
       \/ (expired args elapsed n1 = false
           /\ expired args elapsed (S n1) = true))
      /\ output_test st' = output_test st
  | (Exc (Error e), st') =>
      expired args elapsed n1 = false /\ output_test st' = output_test st
  | (Fuel, _) => False
  end.
Proof.
  cbv zeta.
  unfold startup, writeAndRunCandidate, runCandidate, write_out, print,
    bind, modify, gets, lift, raise, ret.
  simpl.
  destruct (expired args elapsed (S (candidateRuns st))) eqn:E1; simpl.
  { auto. }
  set (initial := oracle (S (candidateRuns st)) input).
  destruct (negb (search args) && negb (checks args initial)) eqn:E2; simpl.
  { apply andb_true_iff in E2 as [Ha Hb].
    apply negb_true_iff in Ha, Hb. auto. }
  assert (Hs : search args = true \/ checks args initial = true).
  { apply andb_false_iff in E2 as [Ha | Ha]; apply negb_false_iff in Ha; auto. }
  destruct (rangeConversions initial) as [convs|e] eqn:E3; simpl; [|auto].
  destruct (fixRangeConversions (noStructure args) input convs)
    as [[fixed n]|e] eqn:E4; simpl; [|auto].
  destruct (expired args elapsed (S (S (candidateRuns st)))) eqn:E5; simpl.
  { auto. }
  set (result := oracle (S (S (candidateRuns st))) fixed).
  destruct (checks args result) eqn:E6; simpl; [|auto].
  destruct (structure (noStructure args) fixed initial) as [sv|e] eqn:E7;
    simpl; [|auto].
  destruct (snd sv + 1 <? len fixed) eqn:E8; simpl;
    match goal with
    | |- context [negb (bytes_eqb ?a ?b)] =>
        destruct (bytes_eqb a b) eqn:E9
    end; simpl;
    exists convs, fixed, n; rewrite ?E8, ?E9; repeat split; auto.
Qed.

(** X8: After a startup that goes on to the loop, the candidate is a prefix
    of the normalised seed, no longer than the seed and, when
    [lastRead + 1] is not negative, no longer than [lastRead + 1];
    [initialSize] is its length; and it was written to the output file
    exactly when it differs from the seed. *)
Theorem startup_trims_unread_bytes
        (args : Args) (input : bytes) (oracle : nat -> bytes -> trace)
        (elapsed : nat -> Q) (st st' : State) (mbr : Z) :
  startup args input oracle elapsed st = (Val (Some mbr), st') ->
  exists convs fixed n k,
    rangeConversions (oracle (S (candidateRuns st)) input) = Ok convs
    /\ fixRangeConversions (noStructure args) input convs = Ok (fixed, n)
    /\ currentTest st' = firstn k fixed
    /\ len (currentTest st') <= len input
    /\ (0 <= snd (s st') + 1 -> len (currentTest st') <= snd (s st') + 1)
    /\ initialSize st' = len (currentTest st')
    /\ (currentTest st' = input -> output_test st' = output_test st)
    /\ (currentTest st' <> input -> output_test st' = Some (currentTest st')).
Proof.
  intros H. pose proof (startup_cases args input oracle elapsed st) as Hc.
  cbv zeta in Hc. rewrite H in Hc.
  destruct Hc as [convs [fixed [n [_ [_ [_ [Hr [Hf [_ [_ [Hcur [Hi [Ho _]]]]]]]]]]]]].
  destruct (fixRangeConversions_shape _ _ _ _ _ Hf) as [Hlen _].
  exists convs, fixed, n.
  exists (if snd (s st') + 1 <? len fixed
          then Z.to_nat (slice_index (len fixed) (snd (s st') + 1))
          else List.length fixed).
  split; [exact Hr|]. split; [exact Hf|].
  assert (Hle : len (currentTest st') <= len fixed
                /\ (0 <= snd (s st') + 1 ->
                    len (currentTest st') <= snd (s st') + 1)).
  { rewrite Hcur. destruct (snd (s st') + 1 <? len fixed) eqn:E.
    - apply Z.ltb_lt in E. split.
      + unfold slice_to, len. rewrite length_firstn. lia.
      + intros H0. rewrite slice_to_firstn by lia.
        unfold len. rewrite length_firstn. lia.
    - apply Z.ltb_ge in E. split; lia. }
  split.
  { rewrite Hcur. destruct (snd (s st') + 1 <? len fixed);
      [reflexivity | now rewrite firstn_all]. }
  split; [lia|]. split; [apply Hle|]. split; [exact Hi|].
  split.
  - intros Heq. rewrite Ho. apply bytes_eqb_eq in Heq. now rewrite Heq.
  - intros Hne. rewrite Ho.
    destruct (bytes_eqb (currentTest st') input) eqn:Eb; [|reflexivity].
    apply bytes_eqb_eq in Eb. contradiction.
Qed.

Lemma startup_trims_unread_bytes_witness :
  exists st' convs fixed n k,
    startup (args_with 3 false) [1; 2; 3] reads_first_byte second_per_trial
            start_state = (Val (Some 16), st')
    /\ rangeConversions (reads_first_byte 1%nat [1; 2; 3]) = Ok convs
    /\ fixRangeConversions false [1; 2; 3] convs = Ok (fixed, n)
    /\ currentTest st' = firstn k fixed
    /\ currentTest st' = [1]
    /\ output_test st' = Some [1].
Proof.
  eexists.
  assert (H : startup (args_with 3 false) [1; 2; 3] reads_first_byte
                      second_per_trial start_state = (Val (Some 16), _))
    by (vm_compute; reflexivity).
  destruct (startup_trims_unread_bytes _ _ _ _ _ _ _ H)
    as [convs [fixed [n [k [Hr [Hf [Hc _]]]]]]].
  exists convs, fixed, n, k.
  split; [exact H|]. split; [exact Hr|]. split; [exact Hf|].
  split; [exact Hc|]. split; reflexivity.
Defined.

(* ================================================================== *)
(** ** How [main] can end *)

Lemma reduction_catches_timeout
      (args : Args) (input : bytes) (oracle : nat -> bytes -> trace)
      (elapsed : nat -> Q) (fuel : nat) (mbr : Z) (st : State) :
  fst (reduction args input oracle elapsed fuel mbr st) <> Exc TimeoutException.
Proof.
  unfold reduction, try_except_timeout.
  destruct (reduce_loop _ _ _ _ _ _ _ _ _ st) as [[a|[|e]|] st1]; simpl;
    discriminate.
Qed.

(** X9: [main] ends with an uncaught [TimeoutException] only when the
    deadline had passed at one of the two trials before the loop, and
    then the output file was not touched; a deadline that passes later
    never escapes. *)
Theorem timeout_escapes_only_at_startup
        (args : Args) (input : bytes) (oracle : nat -> bytes -> trace)
        (elapsed : nat -> Q) (fuel : nat) (st st' : State) :
  main args input oracle elapsed fuel st = (Exc TimeoutException, st') ->
  (expired args elapsed (S (candidateRuns st)) = true
   \/ expired args elapsed (S (S (candidateRuns st))) = true)
  /\ output_test st' = output_test st.
Proof.
  intros H. pose proof (startup_cases args input oracle elapsed st) as Hc.
  cbv zeta in Hc. unfold main in H. unfold bind at 1 in H.
  destruct (startup args input oracle elapsed st) as [[[mbr|]|[|e]|] st0];
    try discriminate H.
  - exfalso. unfold bind at 1 in H.
    pose proof (reduction_catches_timeout args input oracle elapsed fuel mbr st0)
      as Hr.
    destruct (reduction args input oracle elapsed fuel mbr st0)
      as [[[]|[|e]|] st1]; simpl in Hr; try discriminate H;
      [|now apply Hr].
    unfold bind at 1 in H. unfold percent, bind, gets, raise, ret in H.
    destruct (initialSize st1 =? 0); simpl in H; [discriminate H|].
    unfold finalize, write_out, bind, modify, gets, ret in H.
    destruct (noPad args); simpl in H; [discriminate H|].
    destruct (len (currentTest st1) <? snd (s st1) + 1); discriminate H.
  - injection H as <-. destruct Hc as [[Hc | [_ Hc]] Ho]; auto.
Qed.

Lemma timeout_escapes_only_at_startup_witness :
  (expired (args_with 0 false) millisecond_per_trial 1 = true
   \/ expired (args_with 0 false) millisecond_per_trial 2 = true)
  /\ output_test (set_candidateRuns 1 start_state) = output_test start_state.
Proof.
  apply (timeout_escapes_only_at_startup
           (args_with 0 false) [1; 2; 3] reads_first_byte
           millisecond_per_trial 5 start_state
           (set_candidateRuns 1 start_state)).
  reflexivity.
Defined.

(** X10: [main] returns 1 only when, without [--search], the trace of the
    seed did not satisfy the criteria, and then it has not touched the
    output file; it returns 0 only after writing the final candidate to
    the output file; it returns nothing else. *)
Theorem main_return_values
        (args : Args) (input : bytes) (oracle : nat -> bytes -> trace)
        (elapsed : nat -> Q) (fuel : nat) (st st' : State) (v : Z) :
  main args input oracle elapsed fuel st = (Val v, st') ->
  (v = 1 /\ search args = false
   /\ checks args (oracle (S (candidateRuns st)) input) = false
   /\ output_test st' = output_test st)
  \/ (v = 0 /\ output_test st' = Some (currentTest st')
      /\ initialSize st' <> 0).
Proof.
  intros H. pose proof (startup_cases args input oracle elapsed st) as Hc.
  cbv zeta in Hc. unfold main in H. unfold bind at 1 in H.
  destruct (startup args input oracle elapsed st) as [[[mbr|]|[|e]|] st0];
    try discriminate H.
  - right. unfold bind at 1 in H.
    destruct (reduction args input oracle elapsed fuel mbr st0)
      as [[[]|[|e]|] st1]; try discriminate H.
    unfold bind at 1 in H. unfold percent, bind, gets, raise, ret in H.
    destruct (initialSize st1 =? 0) eqn:Ei; simpl in H; [discriminate H|].
    apply Z.eqb_neq in Ei.
    unfold finalize, write_out, bind, modify, gets, ret in H.
    destruct (noPad args); simpl in H.
    + injection H as <- <-. auto.
    + destruct (len (currentTest st1) <? snd (s st1) + 1); simpl in H;
        injection H as <- <-; auto.
  - left. simpl in H. injection H as <- <-.
    destruct Hc as [_ [Hs [Hk [Ho _]]]]. auto.
Qed.

Lemma main_return_values_witness :
  exists st',
    main (args_with 3 false) [1; 2; 3] reads_first_byte second_per_trial
         5 start_state = (Val 0, st')
    /\ ((0 = 1 /\ search (args_with 3 false) = false
         /\ checks (args_with 3 false) (reads_first_byte 1%nat [1; 2; 3]) = false
         /\ output_test st' = output_test start_state)
        \/ (0 = 0 /\ output_test st' = Some (currentTest st')
            /\ initialSize st' <> 0)).
Proof.
  eexists.
  assert (H : main (args_with 3 false) [1; 2; 3] reads_first_byte
                   second_per_trial 5 start_state = (Val 0, _))
    by (vm_compute; reflexivity).
  split; [exact H|].
  exact (main_return_values _ _ _ _ _ _ _ _ H).
Defined.

(** X11: The assertion of line 191: when the (normalised) seed is run a
    second time and its trace does not satisfy the criteria, [main]
    ends with [AssertionError] and writes nothing.  With [--search]
    this is what happens to a seed that the binary deterministically
    passes: the search never starts. *)
Theorem second_trial_must_satisfy_criteria
        (args : Args) (input : bytes) (oracle : nat -> bytes -> trace)
        (elapsed : nat -> Q) (fuel : nat) (st : State)
        (convs : list conversion) (fixed : bytes) (n : Z) :
  expired args elapsed (S (candidateRuns st)) = false ->
  expired args elapsed (S (S (candidateRuns st))) = false ->
  search args = true
  \/ checks args (oracle (S (candidateRuns st)) input) = true ->
  rangeConversions (oracle (S (candidateRuns st)) input) = Ok convs ->
  fixRangeConversions (noStructure args) input convs = Ok (fixed, n) ->
  checks args (oracle (S (S (candidateRuns st))) fixed) = false ->
  fst (main args input oracle elapsed fuel st) = Exc (Error AssertionError)
  /\ output_test (snd (main args input oracle elapsed fuel st))
     = output_test st.
Proof.
  intros E1 E2 Hs Hr Hf Hc.
  unfold main, startup, writeAndRunCandidate, runCandidate, write_out, print,
    bind, modify, gets, lift, raise, ret.
  simpl. rewrite E1. simpl.
  replace (negb (search args)
           && negb (checks args (oracle (S (candidateRuns st)) input)))
    with false
    by (symmetry; apply andb_false_iff;
        destruct Hs as [Hs|Hs]; rewrite Hs; auto).
  simpl. rewrite Hr. simpl. rewrite Hf. simpl. rewrite E2. simpl.
  rewrite Hc. simpl. auto.
Qed.

Lemma second_trial_must_satisfy_criteria_witness :
  fst (main {| criteria := None; search := true; timeout := 1200;
               maxByteRange := 16; fast := false; slow := false;
               slowest := false; noStructure := false; noPad := false |}
            [1; 2; 3] (fun _ _ => ["Reading byte at 0"; "OK: Passed"])
            second_per_trial 5 start_state)
  = Exc (Error AssertionError)
  /\ output_test
       (snd (main {| criteria := None; search := true; timeout := 1200;
                     maxByteRange := 16; fast := false; slow := false;
                     slowest := false; noStructure := false; noPad := false |}
                  [1; 2; 3] (fun _ _ => ["Reading byte at 0"; "OK: Passed"])
                  second_per_trial 5 start_state))
     = output_test start_state.
Proof.
  apply (second_trial_must_satisfy_criteria
           {| criteria := None; search := true; timeout := 1200;
              maxByteRange := 16; fast := false; slow := false;
              slowest := false; noStructure := false; noPad := false |}
           [1; 2; 3] (fun _ _ => ["Reading byte at 0"; "OK: Passed"])
           second_per_trial 5 start_state [] [1; 2; 3] 0);
    try reflexivity.
  left. reflexivity.
Defined.

(** X12: An empty candidate stops the reducer: when the candidate is empty
    after startup (an empty seed, or a trace whose last read offset is
    -1), [initialSize] is 0 and the first round of the loop raises
    [ZeroDivisionError] at line 249; the exception is not caught and
    the final write does not happen. *)
Theorem empty_candidate_divides_by_zero
        (args : Args) (input : bytes) (oracle : nat -> bytes -> trace)
        (elapsed : nat -> Q) (fuel : nat) (st st0 : State) (mbr : Z) :
  startup args input oracle elapsed st = (Val (Some mbr), st0) ->
  currentTest st0 = [] ->
  main args input oracle elapsed (S fuel) st
  = (Exc (Error ZeroDivisionError), st0).
Proof.
  intros H Hcur.
  pose proof (startup_cases args input oracle elapsed st) as Hc.
  cbv zeta in Hc. rewrite H in Hc.
  destruct Hc as [convs [fixed [n [_ [_ [_ [_ [_ [_ [_ [_ [Hi _]]]]]]]]]]]].
  rewrite Hcur in Hi. change (len (@nil Z)) with 0 in Hi.
  unfold main. unfold bind at 1. rewrite H.
  unfold bind at 1. unfold reduction, try_except_timeout.
  cbn [reduce_loop]. unfold bind at 1. unfold gets at 1.
  rewrite Hcur. cbn [differs].
  unfold bind at 1. unfold iteration. unfold bind at 1.
  unfold percent at 1. unfold bind at 1. unfold gets at 1.
  rewrite Hi. reflexivity.
Qed.

Lemma empty_candidate_divides_by_zero_witness :
  exists st0,
    startup (args_with 1200 false) [] reads_first_byte second_per_trial
            start_state = (Val (Some 16), st0)
    /\ currentTest st0 = []
    /\ main (args_with 1200 false) [] reads_first_byte second_per_trial
            5 start_state = (Exc (Error ZeroDivisionError), st0).
Proof.
  eexists.
  assert (H : startup (args_with 1200 false) [] reads_first_byte
                      second_per_trial start_state = (Val (Some 16), _))
    by (vm_compute; reflexivity).
  split; [exact H|]. split; [reflexivity|].
  apply (empty_candidate_divides_by_zero
           (args_with 1200 false) [] reads_first_byte second_per_trial
           4 start_state _ 16 H).
  reflexivity.
Defined.

(* ================================================================== *)
(** ** Lengths and the output file through the passes *)

Lemma ensures_everywhere (A : Type) (I E : State -> Prop) (m : M A)
      (Q : A -> Prop) :
  (forall st, I st -> E st) -> ensures I E m Q ->
  forall st, I st -> E (snd (m st)).
Proof.
  intros HIE Hm st H. specialize (Hm st H).
  destruct (fst (m st)) as [a|[|e]|]; auto. apply HIE. apply Hm.
Qed.

Lemma bounded_attempt (args : Args) (input : bytes)
      (oracle : nat -> bytes -> trace) (elapsed : nat -> Q)
      (L : Z) (newTest : bytes) :
  len newTest <= L ->
  ensures (fun st => len (currentTest st) <= L)
          (fun st => len (currentTest st) <= L)
          (attempt args input oracle elapsed newTest) (fun _ => True).
Proof.
  intros Hl st H.
  pose proof (attempt_spec args input oracle elapsed newTest st) as Hs.
  destruct (fst (attempt args input oracle elapsed newTest st))
    as [[|]|[|e]|].
  - destruct Hs as [Hs _]. split; [lia | exact Logic.I].
  - destruct Hs as [Hs _]. rewrite Hs. auto.
  - destruct Hs as [Hs _]. now rewrite Hs.
  - lia.
  - contradiction.
Qed.

(** X13: The chunk removal, reduce-and-delete, byte range removal, byte
    reduction and byte pattern passes never lengthen the candidate,
    however they end (completion, timeout, exception, exhausted
    rounds). *)
Theorem byte_passes_never_lengthen
        (args : Args) (input : bytes) (oracle : nat -> bytes -> trace)
        (elapsed : nat -> Q) (fuel : nat) (k mbr startingPos : Z)
        (st : State) :
  0 <= k -> 0 <= startingPos ->
  len (currentTest
         (snd (chunk_while args input oracle elapsed fuel k startingPos st)))
  <= len (currentTest st)
  /\ len (currentTest
            (snd (reduce_delete_while args input oracle elapsed fuel k st)))
     <= len (currentTest st)
  /\ len (currentTest
            (snd (allrange_while args input oracle elapsed fuel mbr
                                 startingPos st)))
     <= len (currentTest st)
  /\ len (currentTest
            (snd (bytereduce_while args input oracle elapsed fuel
                                   startingPos st)))
     <= len (currentTest st)
  /\ len (currentTest (snd (pattern_while args input oracle elapsed fuel st)))
     <= len (currentTest st).
Proof.
  intros Hk Hsp.
  set (L := len (currentTest st)).
  set (I := fun st0 : State => len (currentTest st0) <= L).
  assert (HII : forall st0, I st0 -> I st0) by auto.
  assert (Hlen : forall st0, I st0 -> (fun n => n <= L) (len (currentTest st0)))
    by auto.
  assert (Hdown : forall n m, (fun n => n <= L) n -> 0 <= m <= n ->
                              (fun n => n <= L) m) by (simpl; intros; lia).
  assert (Hatt : forall newTest, (fun n => n <= L) (len newTest) ->
                   ensures I I (attempt args input oracle elapsed newTest)
                           (fun _ => True))
    by (intros newTest Hn; now apply bounded_attempt).
  assert (Hst : I st) by (unfold I, L; lia).
  repeat split.
  - apply (ensures_everywhere _ I I _ _ HII
             (ensures_chunk_while args input oracle elapsed I I _
                HII Hlen Hdown Hatt fuel k startingPos Hk Hsp) st Hst).
  - apply (ensures_everywhere _ I I _ _ HII
             (ensures_reduce_delete_while args input oracle elapsed I I _
                HII Hlen Hdown Hatt fuel k Hk) st Hst).
  - apply (ensures_everywhere _ I I _ _ HII
             (ensures_allrange_while args input oracle elapsed I I _
                HII Hlen Hdown Hatt fuel mbr startingPos Hsp) st Hst).
  - apply (ensures_everywhere _ I I _ _ HII
             (ensures_bytereduce_while args input oracle elapsed I I _
                HII Hlen Hdown Hatt fuel startingPos) st Hst).
  - apply (ensures_everywhere _ I I _ _ HII
             (ensures_pattern_while args input oracle elapsed I I _
                HII Hlen Hdown Hatt fuel) st Hst).
Qed.

Lemma byte_passes_never_lengthen_witness :
  len (currentTest
         (snd (chunk_while (args_with 1200 false) [] clamps_first_field
                           second_per_trial 20 4 0 span_state)))
  <= len (currentTest span_state).
Proof.
  apply (byte_passes_never_lengthen
           (args_with 1200 false) [] clamps_first_field second_per_trial
           20 4 16 0 span_state); lia.
Defined.

Lemma startup_length (args : Args) (input : bytes)
      (oracle : nat -> bytes -> trace) (elapsed : nat -> Q)
      (st st' : State) (mbr : Z) :
  startup args input oracle elapsed st = (Val (Some mbr), st') ->
  len (currentTest st') <= len input
  /\ (noStructure args = true -> fst (s st') = [])
  /\ output_test st'
     = (if bytes_eqb (currentTest st') input then output_test st
        else Some (currentTest st')).
Proof.
  intros H. pose proof (startup_cases args input oracle elapsed st) as Hc.
  cbv zeta in Hc. rewrite H in Hc.
  destruct Hc as [convs [fixed [n [_ [_ [_ [_ [Hf [_ [Hs [Hcur [_ [Ho _]]]]]]]]]]]]].
  destruct (fixRangeConversions_shape _ _ _ _ _ Hf) as [Hlen _].
  split; [|split; [|exact Ho]].
  - rewrite Hcur. destruct (snd (s st') + 1 <? len fixed); [|lia].
    unfold slice_to, len in *. rewrite length_firstn. lia.
  - intros Hns. unfold structure in Hs. rewrite Hns in Hs.
    now injection Hs as <-.
Qed.

(** X14: With [--noStructure] the loop never holds a candidate that is
    longer than the seed, however it ends. *)
Theorem noStructure_never_lengthens
        (args : Args) (input : bytes) (oracle : nat -> bytes -> trace)
        (elapsed : nat -> Q) (fuel : nat) (st st0 : State) (mbr : Z) :
  noStructure args = true ->
  startup args input oracle elapsed st = (Val (Some mbr), st0) ->
  len (currentTest (snd (reduction args input oracle elapsed fuel mbr st0)))
  <= len input.
Proof.
  intros Hns Hstart.
  destruct (startup_length _ _ _ _ _ _ _ Hstart) as [Hl [Hs _]].
  set (L := len input).
  set (I := fun st1 : State => len (currentTest st1) <= L /\ fst (s st1) = []).
  set (E := fun st1 : State => len (currentTest st1) <= L).
  assert (HIE : forall st1, I st1 -> E st1) by (intros st1 [H _]; exact H).
  assert (Hlen : forall st1, I st1 -> (fun n => n <= L) (len (currentTest st1)))
    by (intros st1 [H _]; exact H).
  assert (Hdown : forall n m, (fun n => n <= L) n -> 0 <= m <= n ->
                              (fun n => n <= L) m) by (simpl; intros; lia).
  assert (Hatt : forall newTest, (fun n => n <= L) (len newTest) ->
                   ensures I E (attempt args input oracle elapsed newTest)
                           (fun _ => True)).
  { intros newTest Hn st1 [H1 H2].
    pose proof (attempt_spec args input oracle elapsed newTest st1) as Hsp.
    destruct (fst (attempt args input oracle elapsed newTest st1))
      as [[|]|[|e]|].
    - destruct Hsp as [Ha [_ Hb]]. repeat split; [lia | now apply Hb].
    - destruct Hsp as [Ha [Hb _]]. unfold I. rewrite Ha, Hb. auto.
    - destruct Hsp as [Ha [Hb _]]. unfold I. rewrite Ha, Hb. auto.
    - unfold E. lia.
    - contradiction. }
  assert (Hprint : forall m, ensures I E (print m) (fun _ => True)).
  { intros m st1 H1. simpl. auto. }
  assert (Hcuts : forall st1, I st1 ->
                    fst (s st1) = [] \/ forall n, (fun n => n <= L) n)
    by (intros st1 [_ H]; now left).
  apply (ensures_everywhere _ I E _ _ HIE
           (ensures_reduction args input oracle elapsed I E _
              HIE Hlen Hdown Hatt Hprint Hcuts fuel mbr) st0).
  split; [exact Hl | now apply Hs].
Qed.

Lemma noStructure_never_lengthens_witness :
  exists st0,
    startup (args_with 100 true) [1; 2; 3] needs_two_bytes second_per_trial
            start_state = (Val (Some 16), st0)
    /\ len (currentTest
              (snd (reduction (args_with 100 true) [1; 2; 3] needs_two_bytes
                              second_per_trial 50 16 st0)))
       <= len [1; 2; 3].
Proof.
  eexists.
  assert (H : startup (args_with 100 true) [1; 2; 3] needs_two_bytes
                      second_per_trial start_state = (Val (Some 16), _))
    by (vm_compute; reflexivity).
  split; [exact H|].
  exact (noStructure_never_lengthens
           (args_with 100 true) [1; 2; 3] needs_two_bytes second_per_trial
           50 start_state _ 16 eq_refl H).
Defined.

(** X15: Checkpointing: when the loop ends, by convergence or by timeout,
    the output file already holds the current candidate, unless no
    mutation was ever accepted and the candidate is still the seed, in
    which case the file has not been written yet. *)
Theorem loop_end_is_checkpointed
        (args : Args) (input : bytes) (oracle : nat -> bytes -> trace)
        (elapsed : nat -> Q) (fuel : nat) (st st0 st1 : State) (mbr : Z) :
  output_test st = None ->
  startup args input oracle elapsed st = (Val (Some mbr), st0) ->
  reduction args input oracle elapsed fuel mbr st0 = (Val tt, st1) ->
  output_test st1 = Some (currentTest st1)
  \/ (output_test st1 = None /\ currentTest st1 = input).
Proof.
  intros Hnone Hstart Hred.
  destruct (startup_length _ _ _ _ _ _ _ Hstart) as [_ [_ Ho]].
  set (I := checkpointed input).
  set (E := fun _ : State => True).
  assert (HIE : forall st2, I st2 -> E st2) by (intros; exact Logic.I).
  assert (Hlen : forall st2, I st2 -> (fun _ => True) (len (currentTest st2)))
    by (intros; exact Logic.I).
  assert (Hdown : forall n m : Z, (fun _ : Z => True) n -> 0 <= m <= n ->
                                  (fun _ : Z => True) m)
    by (intros; exact Logic.I).
  assert (Hatt : forall newTest, (fun _ : Z => True) (len newTest) ->
                   ensures I E (attempt args input oracle elapsed newTest)
                           (fun _ => True)).
  { intros newTest _ st2 H2.
    pose proof (attempt_spec args input oracle elapsed newTest st2) as Hsp.
    destruct (fst (attempt args input oracle elapsed newTest st2))
      as [[|]|[|e]|]; try exact Logic.I.
    - destruct Hsp as [_ [Hb _]]. split; [now left | exact Logic.I].
    - destruct Hsp as [Ha [_ Hb]]. split; [|exact Logic.I].
      unfold I, checkpointed in *. rewrite Ha, Hb. exact H2.
    - destruct Hsp as [Ha [_ Hb]].
      unfold I, checkpointed in *. rewrite Ha, Hb. exact H2. }
  assert (Hprint : forall m, ensures I E (print m) (fun _ => True)).
  { intros m st2 H2. simpl. auto. }
  assert (Hcuts : forall st2, I st2 ->
                    fst (s st2) = [] \/ forall n : Z, (fun _ : Z => True) n)
    by (intros; right; intros; exact Logic.I).
  pose proof (ensures_reduction args input oracle elapsed I E _
                HIE Hlen Hdown Hatt Hprint Hcuts fuel mbr st0) as Hens.
  rewrite Hred in Hens. simpl in Hens. apply Hens.
  unfold I, checkpointed. rewrite Ho, Hnone.
  destruct (bytes_eqb (currentTest st0) input) eqn:Eb; [right|left; auto].
  apply bytes_eqb_eq in Eb. auto.
Qed.

Lemma loop_end_is_checkpointed_witness :
  exists st0 st1,
    startup (args_with 100 true) [1; 2; 3] needs_two_bytes second_per_trial
            start_state = (Val (Some 16), st0)
    /\ reduction (args_with 100 true) [1; 2; 3] needs_two_bytes
                 second_per_trial 50 16 st0 = (Val tt, st1)
    /\ (output_test st1 = Some (currentTest st1)
        \/ (output_test st1 = None /\ currentTest st1 = [1; 2; 3])).
Proof.
  eexists. eexists.
  assert (H : startup (args_with 100 true) [1; 2; 3] needs_two_bytes
                      second_per_trial start_state = (Val (Some 16), _))
    by (vm_compute; reflexivity).
  match type of H with
  | _ = (_, ?s0) =>
      assert (Hr : reduction (args_with 100 true) [1; 2; 3] needs_two_bytes
                             second_per_trial 50 16 s0 = (Val tt, _))
        by (vm_compute; reflexivity)
  end.
  split; [exact H|]. split; [exact Hr|].
  exact (loop_end_is_checkpointed _ _ _ _ _ start_state _ _ _ eq_refl H Hr).
Defined.

(* ================================================================== *)
(** ** Termination of the removal passes *)

Section Termination.

Variable args : Args.
Variable input : bytes.
Variable oracle : nat -> bytes -> trace.
Variable elapsed : nat -> Q.

Lemma chunk_candidate_len (cur : bytes) (k b : Z) :
  0 <= b -> 0 <= k ->
  len (chunk_candidate cur k b)
  = Z.min b (len cur) + Z.max 0 (len cur - (b + k)).
Proof.
  intros Hb Hk. unfold chunk_candidate.
  rewrite slice_to_firstn, slice_from_skipn by lia.
  unfold len. rewrite length_app, length_firstn, length_skipn. lia.
Qed.

Lemma chunk_for_cons (k b : Z) (bs : list Z) (st : State) :
  chunk_for args input oracle elapsed k (b :: bs) st =
  match attempt args input oracle elapsed
                (chunk_candidate (currentTest st) k b) st with
  | (Val true, st') => (Val (Some b), st')
  | (Val false, st') => chunk_for args input oracle elapsed k bs st'
  | (Exc e, st') => (Exc e, st')
  | (Fuel, st') => (Fuel, st')
  end.
Proof.
  cbn [chunk_for]. unfold bind at 1. unfold gets at 1. unfold bind.
  destruct (attempt args input oracle elapsed
              (chunk_candidate (currentTest st) k b) st) as [[[|]|e|] st'];
    reflexivity.
Qed.

(** One sweep of the chunk removal pass: where it stops, the candidate
    has the length of the proposal; where it finds nothing, the
    candidate is unchanged. *)
Lemma chunk_for_spec (k : Z) (bs : list Z) : forall st : State,
  match chunk_for args input oracle elapsed k bs st with
  | (Val (Some b), st') =>
      In b bs
      /\ len (currentTest st') = len (chunk_candidate (currentTest st) k b)
  | (Val None, st') => currentTest st' = currentTest st
  | (Exc _, _) => True
  | (Fuel, _) => False
  end.
Proof.
  induction bs as [|b bs IH]; intros st.
  - reflexivity.
  - rewrite chunk_for_cons.
    pose proof (attempt_spec args input oracle elapsed
                  (chunk_candidate (currentTest st) k b) st) as Hs.
    destruct (attempt args input oracle elapsed
                (chunk_candidate (currentTest st) k b) st)
      as [[[|]|[|e]|] st1]; simpl in Hs; auto.
    + split; [now left | apply Hs].
    + destruct Hs as [Hs _]. specialize (IH st1).
      destruct (chunk_for args input oracle elapsed k bs st1)
        as [[[b'|]|e|] st2]; auto.
      * rewrite <- Hs. destruct IH. split; [now right | assumption].
      * congruence.
Qed.

Lemma chunk_while_fuel (k : Z) (fuel : nat) : forall (st : State) (sp : Z),
  1 <= k -> 0 <= sp ->
  k * len (currentTest st) + Z.max 0 (sp - len (currentTest st))
  < Z.of_nat fuel ->
  fst (chunk_while args input oracle elapsed fuel k sp st) <> Fuel.
Proof.
  induction fuel as [|fuel IH]; intros st sp Hk Hsp Hfuel.
  - pose proof (len_nonneg _ (currentTest st)). nia.
  - cbn [chunk_while]. unfold bind at 1. unfold gets at 1. unfold bind at 1.
    pose proof (len_nonneg _ (currentTest st)) as Hn.
    pose proof (chunk_for_spec k (range sp (len (currentTest st))) st) as H1.
    destruct (chunk_for args input oracle elapsed k
                (range sp (len (currentTest st))) st)
      as [[[b|]|e|] st1]; try discriminate; [| |contradiction].
    + destruct H1 as [Hin Hl]. apply In_range in Hin.
      rewrite chunk_candidate_len in Hl by lia.
      apply IH; [lia | lia |].
      pose proof (len_nonneg _ (currentTest st1)). nia.
    + unfold bind at 1.
      pose proof (chunk_for_spec k (range 0 sp) st1) as H2.
      rewrite H1 in H2.
      destruct (chunk_for args input oracle elapsed k (range 0 sp) st1)
        as [[[b|]|e|] st2]; try discriminate; [|contradiction].
      destruct H2 as [Hin Hl]. apply In_range in Hin.
      rewrite chunk_candidate_len in Hl by lia.
      apply IH; [lia | lia |].
      pose proof (len_nonneg _ (currentTest st2)). nia.
Qed.

Lemma reduce_delete_for_cons (k b : Z) (bs : list Z) (st : State) :
  reduce_delete_for args input oracle elapsed k (b :: bs) st =
  match getitem (currentTest st) b with
  | None => (Exc (Error IndexError), st)
  | Some x =>
      if x =? 0 then reduce_delete_for args input oracle elapsed k bs st
      else
        match setitem (currentTest st) b (x - 1) with
        | Raise e => (Exc (Error e), st)
        | Ok newTest =>
            match attempt args input oracle elapsed
                          (slice_to newTest (b + 1)
                           ++ slice_from newTest (b + k + 1)) st with
            | (Val true, st') => (Val true, st')
            | (Val false, st') =>
                reduce_delete_for args input oracle elapsed k bs st'
            | (Exc e, st') => (Exc e, st')
            | (Fuel, st') => (Fuel, st')
            end
        end
  end.
Proof.
  cbn [reduce_delete_for]. unfold bind at 1. unfold gets at 1.
  unfold bind at 1. unfold item, lift.
  destruct (getitem (currentTest st) b) as [x|]; [|reflexivity].
  cbn [of_option ret]. destruct (x =? 0); [reflexivity|].
  unfold bind at 1.
  destruct (setitem (currentTest st) b (x - 1)) as [newTest|e];
    [|reflexivity].
  cbn [ret]. unfold bind.
  destruct (attempt _ _ _ _ _ st) as [[[|]|e|] st']; reflexivity.
Qed.

Lemma reduce_delete_for_spec (k : Z) (bs : list Z) : forall st : State,
  1 <= k ->
  Forall (fun b => 0 <= b /\ b + k < len (currentTest st)) bs ->
  match reduce_delete_for args input oracle elapsed k bs st with
  | (Val true, st') => len (currentTest st') < len (currentTest st)
  | (Val false, st') => currentTest st' = currentTest st
  | (Exc _, _) => True
  | (Fuel, _) => False
  end.
Proof.
  induction bs as [|b bs IH]; intros st Hk Hbs.
  - reflexivity.
  - inversion Hbs as [|b' bs' [Hb0 Hb1] Hbs']; subst.
    rewrite reduce_delete_for_cons.
    destruct (getitem (currentTest st) b) as [x|]; [|exact Logic.I].
    destruct (x =? 0); [now apply IH|].
    destruct (setitem (currentTest st) b (x - 1)) as [newTest|e] eqn:Es;
      [|exact Logic.I].
    apply setitem_len in Es.
    pose proof (attempt_spec args input oracle elapsed
                  (slice_to newTest (b + 1) ++ slice_from newTest (b + k + 1))
                  st) as Hs.
    destruct (attempt _ _ _ _ _ st) as [[[|]|[|e']|] st1]; simpl in Hs; auto.
    + destruct Hs as [Hs _]. rewrite Hs.
      rewrite slice_to_firstn, slice_from_skipn by lia.
      unfold len in *. rewrite length_app, length_firstn, length_skipn. lia.
    + destruct Hs as [Hs _]. rewrite <- Hs in Hbs'.
      specialize (IH st1 Hk Hbs').
      destruct (reduce_delete_for args input oracle elapsed k bs st1)
        as [[[|]|e'|] st2]; auto; congruence.
Qed.

Lemma reduce_delete_while_fuel (k : Z) (fuel : nat) : forall st : State,
  1 <= k ->
  len (currentTest st) < Z.of_nat fuel ->
  fst (reduce_delete_while args input oracle elapsed fuel k st) <> Fuel.
Proof.
  induction fuel as [|fuel IH]; intros st Hk Hfuel.
  - pose proof (len_nonneg _ (currentTest st)). lia.
  - cbn [reduce_delete_while]. unfold bind at 1. unfold gets at 1.
    unfold bind at 1.
    pose proof (reduce_delete_for_spec k
                  (range 0 (len (currentTest st) - k)) st Hk) as H1.
    destruct (reduce_delete_for args input oracle elapsed k
                (range 0 (len (currentTest st) - k)) st)
      as [[[|]|e|] st1]; try discriminate.
    + apply IH; [exact Hk|].
      assert (len (currentTest st1) < len (currentTest st)); [|lia].
      apply H1. apply Forall_forall. intros b Hb. apply In_range in Hb. lia.
    + exfalso. apply H1.
      apply Forall_forall. intros b Hb. apply In_range in Hb. lia.
Qed.

Lemma allrange_inner_cons (b v : Z) (vs : list Z) (st : State) :
  allrange_inner args input oracle elapsed b (v :: vs) st =
  if (v - b =? 4) || (v - b =? 8)
  then allrange_inner args input oracle elapsed b vs st
  else
    match attempt args input oracle elapsed
                  (slice_to (currentTest st) b ++ slice_from (currentTest st) v)
                  st with
    | (Val true, st') => (Val true, st')
    | (Val false, st') => allrange_inner args input oracle elapsed b vs st'
    | (Exc e, st') => (Exc e, st')
    | (Fuel, st') => (Fuel, st')
    end.
Proof.
  cbn [allrange_inner]. destruct ((v - b =? 4) || (v - b =? 8)); [reflexivity|].
  unfold bind at 1. unfold gets at 1. unfold bind.
  destruct (attempt _ _ _ _ _ st) as [[[|]|e|] st']; reflexivity.
Qed.

Lemma allrange_inner_spec (b : Z) (vs : list Z) : forall st : State,
  0 <= b ->
  Forall (fun v => b + 2 <= v <= len (currentTest st)) vs ->
  match allrange_inner args input oracle elapsed b vs st with
  | (Val true, st') => len (currentTest st') < len (currentTest st)
  | (Val false, st') => currentTest st' = currentTest st
  | (Exc _, _) => True
  | (Fuel, _) => False
  end.
Proof.
  induction vs as [|v vs IH]; intros st Hb Hvs.
  - reflexivity.
  - inversion Hvs as [|v' vs' Hv Hvs']; subst.
    rewrite allrange_inner_cons.
    destruct ((v - b =? 4) || (v - b =? 8)); [now apply IH|].
    pose proof (attempt_spec args input oracle elapsed
                  (slice_to (currentTest st) b ++ slice_from (currentTest st) v)
                  st) as Hs.
    destruct (attempt _ _ _ _ _ st) as [[[|]|[|e']|] st1]; simpl in Hs; auto.
    + destruct Hs as [Hs _]. rewrite Hs.
      rewrite slice_to_firstn, slice_from_skipn by lia.
      unfold len in *. rewrite length_app, length_firstn, length_skipn. lia.
    + destruct Hs as [Hs _]. rewrite <- Hs in Hvs'.
      specialize (IH st1 Hb Hvs').
      destruct (allrange_inner args input oracle elapsed b vs st1)
        as [[[|]|e'|] st2]; auto; congruence.
Qed.

Lemma allrange_for_cons (mbr b : Z) (bs : list Z) (st : State) :
  allrange_for args input oracle elapsed mbr (b :: bs) st =
  match allrange_inner args input oracle elapsed b
          (range (b + 2) (Z.min (len (currentTest st)) (b + mbr))) st with
  | (Val true, st') => (Val (Some b), st')
  | (Val false, st') => allrange_for args input oracle elapsed mbr bs st'
  | (Exc e, st') => (Exc e, st')
  | (Fuel, st') => (Fuel, st')
  end.
Proof.
  cbn [allrange_for]. unfold bind at 1. unfold gets at 1. unfold bind.
  destruct (allrange_inner _ _ _ _ _ _ st) as [[[|]|e|] st']; reflexivity.
Qed.

Lemma allrange_for_spec (mbr : Z) (bs : list Z) : forall st : State,
  Forall (fun b => 0 <= b) bs ->
  match allrange_for args input oracle elapsed mbr bs st with
  | (Val (Some b), st') =>
      0 <= b /\ len (currentTest st') < len (currentTest st)
  | (Val None, st') => currentTest st' = currentTest st
  | (Exc _, _) => True
  | (Fuel, _) => False
  end.
Proof.
  induction bs as [|b bs IH]; intros st Hbs.
  - reflexivity.
  - inversion Hbs as [|b' bs' Hb Hbs']; subst.
    rewrite allrange_for_cons.
    pose proof (allrange_inner_spec b
                  (range (b + 2) (Z.min (len (currentTest st)) (b + mbr)))
                  st Hb) as Hs.
    destruct (allrange_inner _ _ _ _ _ _ st) as [[[|]|e|] st1].
    + split; [exact Hb|]. apply Hs.
      apply Forall_forall. intros v Hv. apply In_range in Hv. lia.
    + assert (Hc : currentTest st1 = currentTest st).
      { apply Hs. apply Forall_forall. intros v Hv. apply In_range in Hv. lia. }
      specialize (IH st1 Hbs').
      destruct (allrange_for args input oracle elapsed mbr bs st1)
        as [[[b'|]|e'|] st2]; auto; congruence.
    + exact Logic.I.
    + apply Hs. apply Forall_forall. intros v Hv. apply In_range in Hv. lia.
Qed.

Lemma allrange_while_fuel (mbr : Z) (fuel : nat) : forall (st : State) (sp : Z),
  0 <= sp ->
  len (currentTest st) < Z.of_nat fuel ->
  fst (allrange_while args input oracle elapsed fuel mbr sp st) <> Fuel.
Proof.
  induction fuel as [|fuel IH]; intros st sp Hsp Hfuel.
  - pose proof (len_nonneg _ (currentTest st)). lia.
  - cbn [allrange_while]. unfold bind at 1. unfold gets at 1.
    unfold bind at 1.
    pose proof (allrange_for_spec mbr (range sp (len (currentTest st))) st)
      as H1.
    destruct (allrange_for args input oracle elapsed mbr
                (range sp (len (currentTest st))) st)
      as [[[b|]|e|] st1]; try discriminate.
    + destruct H1 as [Hb Hl]; [apply Forall_range_nonneg; lia|].
      apply IH; lia.
    + assert (Hc : currentTest st1 = currentTest st)
        by (apply H1; apply Forall_range_nonneg; lia).
      unfold bind at 1.
      pose proof (allrange_for_spec mbr (range 0 sp) st1) as H2.
      destruct (allrange_for args input oracle elapsed mbr (range 0 sp) st1)
        as [[[b|]|e|] st2]; try discriminate.
      * destruct H2 as [Hb Hl]; [apply Forall_range_nonneg; lia|].
        apply IH; [lia|]. rewrite Hc in Hl. lia.
      * exfalso. apply H2. apply Forall_range_nonneg. lia.
    + exfalso. apply H1. apply Forall_range_nonneg. lia.
Qed.

End Termination.

(** X16: The three removal passes terminate: the chunk removal pass needs at
    most [k * len(currentTest) + 1] rounds of its [while changed], the
    reduce-and-delete and byte range removal passes at most
    [len(currentTest) + 1].  So with that many rounds allowed they
    complete, time out or raise: they never exhaust their rounds. *)
Theorem removal_passes_terminate
        (args : Args) (input : bytes) (oracle : nat -> bytes -> trace)
        (elapsed : nat -> Q) (fuel : nat) (k mbr : Z) (st : State) :
  1 <= k ->
  k * len (currentTest st) < Z.of_nat fuel ->
  fst (chunk_while args input oracle elapsed fuel k 0 st) <> Fuel
  /\ fst (reduce_delete_while args input oracle elapsed fuel k st) <> Fuel
  /\ fst (allrange_while args input oracle elapsed fuel mbr 0 st) <> Fuel.
Proof.
  intros Hk Hfuel. pose proof (len_nonneg _ (currentTest st)) as Hn.
  split; [|split].
  - apply chunk_while_fuel; [exact Hk | lia | lia].
  - apply reduce_delete_while_fuel; [exact Hk | nia].
  - apply allrange_while_fuel; [lia | nia].
Qed.

Lemma removal_passes_terminate_witness :
  fst (chunk_while (args_with 1200 false) [] clamps_first_field
                   second_per_trial 41 4 0 span_state) <> Fuel
  /\ fst (reduce_delete_while (args_with 1200 false) [] clamps_first_field
                              second_per_trial 41 4 span_state) <> Fuel
  /\ fst (allrange_while (args_with 1200 false) [] clamps_first_field
                         second_per_trial 41 16 0 span_state) <> Fuel.
Proof.
  apply (removal_passes_terminate
           (args_with 1200 false) [] clamps_first_field second_per_trial
           41 4 16 span_state); [lia | reflexivity].
Defined.

(* ================================================================== *)
(** ** Every write of the output file *)

Section WritesAccounted.

Variable args : Args.
Variable input : bytes.
Variable oracle : nat -> bytes -> trace.
Variable elapsed : nat -> Q.

Lemma writes_accounted_cons (e : event) (evs : list event) :
  is_write e = false ->
  writes_accounted args input evs -> writes_accounted args input (e :: evs).
Proof.
  intros He Hw later w earlier H.
  destruct later as [|e' later]; simpl in H.
  - injection H as H _. subst e. discriminate He.
  - injection H as _ H. exact (Hw _ _ _ H).
Qed.

Lemma writes_accounted_write (w : bytes) (evs : list event) :
  accepted_mutation args w evs \/ startup_trim args input w evs ->
  writes_accounted args input evs ->
  writes_accounted args input (WriteOut w :: evs).
Proof.
  intros Hk Hw later w' earlier H.
  destruct later as [|e' later]; simpl in H.
  - injection H as H1 H2. subst w' earlier. exact Hk.
  - injection H as _ H. exact (Hw _ _ _ H).
Qed.

Lemma no_write_accounted (evs : list event) :
  no_write evs -> writes_accounted args input evs.
Proof.
  intros Hn later w earlier H. exfalso. unfold no_write in Hn.
  rewrite H, existsb_app in Hn. simpl in Hn.
  rewrite orb_true_r in Hn. discriminate Hn.
Qed.

Lemma no_write_cons (e : event) (later : list event) :
  is_write e = false -> no_write later -> no_write (e :: later).
Proof. unfold no_write. simpl. intros -> H. exact H. Qed.

Lemma loop_result_cons (e : event) (evs : list event) (cur : bytes)
      (sv : list (Z * Z) * Z) :
  is_write e = false ->
  loop_result args input evs cur sv ->
  loop_result args input (e :: evs) cur sv.
Proof.
  intros He [H | [H | H]].
  - destruct H as [later [c [t [before [-> [Hn H]]]]]].
    left. exists (e :: later), c, t, before.
    split; [reflexivity|]. split; [now apply no_write_cons | exact H].
  - destruct H as [later [t1 [t2 [fixed [-> [Hn H]]]]]].
    right. left. exists (e :: later), t1, t2, fixed.
    split; [reflexivity|]. split; [now apply no_write_cons | exact H].
  - destruct H as [later [t1 [t2 [-> [Hn H]]]]].
    right. right. exists (e :: later), t1, t2.
    split; [reflexivity|]. split; [now apply no_write_cons | exact H].
Qed.

Lemma past_startup_trial (c : bytes) (t : trace) (evs : list event) :
  past_startup (Trial c t :: evs).
Proof. unfold past_startup. simpl. discriminate. Qed.

Lemma past_startup_write (w : bytes) (evs : list event) :
  past_startup (WriteOut w :: evs).
Proof. unfold past_startup. simpl. discriminate. Qed.

(** A trial of the loop keeps the invariant, whatever its outcome. *)
Lemma accounted_attempt (newTest : bytes) :
  ensures (accounted args input)
          (fun st => writes_accounted args input (events st))
          (attempt args input oracle elapsed newTest) (fun _ => True).
Proof.
  intros st [Hw [Hp Hl]]. rewrite attempt_eq. cbv zeta.
  destruct (expired args elapsed (S (candidateRuns st))).
  { simpl. split; [exact Hw | split; [exact Hp | exact Hl]]. }
  set (t := oracle (S (candidateRuns st)) newTest).
  assert (Hw1 : writes_accounted args input (Trial newTest t :: events st))
    by (apply writes_accounted_cons; [reflexivity | exact Hw]).
  destruct (checks args t) eqn:Ec.
  2:{ simpl. split; [|exact Logic.I]. split; [exact Hw1|].
      split; [apply past_startup_trial|].
      apply loop_result_cons; [reflexivity | exact Hl]. }
  rewrite updateCurrent_eq.
  cbn [r set_r initialSize add_event set_candidateRuns set_candidate_file].
  destruct (rangeConversions t) as [convs|e] eqn:Er; [|exact Hw1].
  destruct (fixRangeConversions (noStructure args) newTest convs)
    as [[fixed n]|e] eqn:Ef; [|exact Hw1].
  cbv zeta. cbn [fst].
  assert (Hw2 : writes_accounted args input
                  (WriteOut fixed :: Trial newTest t :: events st)).
  { apply writes_accounted_write; [|exact Hw1].
    left. exists newTest, t, (events st).
    split; [reflexivity|]. split; [exact Hp|]. split; [exact Ec|].
    unfold fix_against. rewrite Er, Ef. reflexivity. }
  destruct (structure (noStructure args) fixed t) as [sv|e] eqn:Es;
    [|exact Hw2].
  destruct (initialSize st =? 0); [exact Hw2|].
  cbn. split; [|exact Logic.I]. split; [exact Hw2|].
  split; [apply past_startup_write|].
  left. exists [], newTest, t, (events st).
  split; [reflexivity|]. split; [reflexivity|]. split; [exact Hp | exact Es].
Qed.

Lemma accounted_reduction (fuel : nat) (mbr : Z) :
  ensures (accounted args input)
          (fun st => writes_accounted args input (events st))
          (reduction args input oracle elapsed fuel mbr) (fun _ => True).
Proof.
  apply (ensures_reduction args input oracle elapsed
           (accounted args input)
           (fun st => writes_accounted args input (events st))
           (fun _ : Z => True)).
  - intros st H. apply H.
  - intros; exact Logic.I.
  - intros; exact Logic.I.
  - intros newTest _. apply accounted_attempt.
  - intros m st [Hw [Hp Hl]]. simpl. split; [|exact Logic.I]. split; [|split].
    + apply writes_accounted_cons; [reflexivity | exact Hw].
    + unfold past_startup. simpl. discriminate.
    + apply loop_result_cons; [reflexivity | exact Hl].
  - intros; right; intros; exact Logic.I.
Qed.

Lemma slice_to_whole (A : Type) (l : list A) (i : Z) :
  len (slice_to l i) = len l -> slice_to l i = l.
Proof.
  unfold slice_to, len. rewrite length_firstn. intros H.
  apply firstn_all2. lia.
Qed.

(** The startup ends in the invariant when it goes on to the loop, and
    has written nothing otherwise. *)
Lemma startup_accounted (st : State) :
  events st = [] ->
  match startup args input oracle elapsed st with
  | (Val (Some _), st') => accounted args input st'
  | (_, st') => no_write (events st')
  end.
Proof.
  intros Hev.
  unfold startup, writeAndRunCandidate, runCandidate, write_out, print,
    bind, modify, gets, lift, raise, ret.
  simpl.
  destruct (expired args elapsed (S (candidateRuns st))) eqn:E1; simpl.
  { now rewrite Hev. }
  set (initial := oracle (S (candidateRuns st)) input).
  destruct (negb (search args) && negb (checks args initial)) eqn:E2; simpl.
  { now rewrite Hev. }
  destruct (rangeConversions initial) as [convs|e] eqn:E3; simpl;
    [|now rewrite Hev].
  destruct (fixRangeConversions (noStructure args) input convs)
    as [[fixed n]|e] eqn:E4; simpl; [|now rewrite Hev].
  destruct (expired args elapsed (S (S (candidateRuns st)))) eqn:E5; simpl.
  { now rewrite Hev. }
  set (result := oracle (S (S (candidateRuns st))) fixed).
  destruct (checks args result) eqn:E6; simpl; [|now rewrite Hev].
  destruct (structure (noStructure args) fixed initial) as [sv|e] eqn:E7;
    simpl; [|now rewrite Hev].
  assert (Hfix : fix_against args input initial = Ok fixed)
    by (unfold fix_against; rewrite E3, E4; reflexivity).
  assert (Hlen : len fixed = len input)
    by (apply (fixRangeConversions_shape _ _ _ _ _ E4)).
  assert (Hbase : writes_accounted args input
                    [Trial fixed result; ReadInput; Trial input initial])
    by (apply no_write_accounted; reflexivity).
  assert (Hgoal :
    forall (cur : bytes) (st' : State),
      cur = (if snd sv + 1 <? len fixed
             then slice_to fixed (snd sv + 1) else fixed) ->
      events st'
      = (if bytes_eqb cur input then [] else [WriteOut cur])
        ++ [Trial fixed result; ReadInput; Trial input initial] ->
      currentTest st' = cur -> s st' = sv ->
      accounted args input st').
  { intros cur st' Hcur H1 H2 H3. unfold accounted. rewrite H1, H2, H3.
    destruct (bytes_eqb cur input) eqn:E9; simpl.
    - apply bytes_eqb_eq in E9.
      assert (Hf : fixed = input).
      { rewrite E9 in Hcur.
        destruct (snd sv + 1 <? len fixed); [|now symmetry].
        rewrite Hcur. symmetry. apply slice_to_whole.
        rewrite <- Hcur. symmetry. exact Hlen. }
      split; [exact Hbase|]. split; [apply past_startup_trial|].
      right. right. exists [], initial, result.
      rewrite Hf in E7. rewrite Hf.
      split; [reflexivity|]. split; [reflexivity|].
      split; [exact E9 | exact E7].
    - assert (Hne : cur <> input).
      { intros Hc. apply bytes_eqb_eq in Hc. congruence. }
      split; [|split].
      + apply writes_accounted_write; [|exact Hbase].
        right. exists initial, result, fixed, sv.
        split; [reflexivity|]. split; [exact Hfix|]. split; [exact E6|].
        split; [exact E7|]. split; [exact Hcur | exact Hne].
      + apply past_startup_write.
      + right. left. exists [], initial, result, fixed.
        split; [reflexivity|]. split; [reflexivity | exact E7]. }
  destruct (snd sv + 1 <? len fixed) eqn:E8; simpl;
    match goal with
    | |- context [negb (bytes_eqb ?a ?b)] =>
        destruct (bytes_eqb a b) eqn:E9; simpl;
        (apply (Hgoal a);
         [ reflexivity
         | simpl; rewrite Hev, E9; reflexivity
         | reflexivity
         | reflexivity ])
    end.
Qed.

Lemma finalize_write (st : State) :
  fst (finalize args st) = Val tt
  /\ events (snd (finalize args st))
     = WriteOut (currentTest st
                 ++ repeat 0 (padding args (currentTest st) (s st)))
       :: events st.
Proof.
  unfold finalize, padding, write_out, bind, modify, gets, ret.
  destruct (noPad args); simpl.
  - split; [reflexivity|]. now rewrite app_nil_r.
  - destruct (len (currentTest st) <? snd (s st) + 1) eqn:E; simpl;
      (split; [reflexivity|]); [reflexivity|].
    apply Z.ltb_ge in E.
    replace (Z.to_nat (snd (s st) + 1 - len (currentTest st))) with 0%nat
      by lia.
    simpl. now rewrite app_nil_r.
Qed.

(** The writes of a whole run: those of the startup and of the loop,
    and, when [main] returns 0, the final one on top of them. *)
Lemma main_writes (fuel : nat) (st st' : State) (o : outcome Z) :
  events st = [] ->
  main args input oracle elapsed fuel st = (o, st') ->
  writes_accounted args input (events st')
  \/ (o = Val 0
      /\ exists w evs,
           events st' = WriteOut w :: evs
           /\ writes_accounted args input evs
           /\ final_write args input w evs).
Proof.
  intros Hev Hm. pose proof (startup_accounted st Hev) as Hs.
  unfold main in Hm. unfold bind at 1 in Hm.
  destruct (startup args input oracle elapsed st) as [[[mbr|]|e|] st0];
    try (injection Hm as <- <-; left; apply no_write_accounted; exact Hs).
  pose proof (accounted_reduction fuel mbr st0 Hs) as Hr.
  unfold bind at 1 in Hm.
  destruct (reduction args input oracle elapsed fuel mbr st0)
    as [[[]|[|e]|] st1]; simpl in Hr;
    try (injection Hm as <- <-; left; first [exact Hr | apply Hr]).
  destruct Hr as [[Hw [Hp Hl]] _].
  unfold bind at 1 in Hm. unfold percent at 1, bind at 1, gets at 1 in Hm.
  destruct (initialSize st1 =? 0); simpl in Hm;
    [injection Hm as <- <-; left; exact Hw|].
  destruct (finalize_write st1) as [Hf1 Hf2].
  unfold bind in Hm.
  destruct (finalize args st1) as [[[]|e|] st2]; simpl in Hf1, Hf2;
    try discriminate Hf1.
  injection Hm as <- <-.
  right. split; [reflexivity|].
  exists (currentTest st1
          ++ repeat 0 (padding args (currentTest st1) (s st1))), (events st1).
  split; [exact Hf2|]. split; [exact Hw|].
  exists (currentTest st1), (s st1). split; [exact Hl | reflexivity].
Qed.

End WritesAccounted.

(** C1, amended: in every run of [main], whatever its outcome, each
    write of the output file is one of three.  The write of
    [updateCurrent]: the event just before it is the trial of the
    proposed candidate, [checks] accepted the trace of that very trial,
    and the bytes written are that candidate normalised by
    [fixRangeConversions] against that trace.  The write before the
    loop: the normalised input, which was run and accepted, cut to
    [lastRead + 1] bytes when that is shorter.  The final write, the
    last event of a run that returns 0: the candidate the loop ended
    with (the last bytes written, or the input) followed by
    [max(0, s[1] + 1 - len)] zero bytes, or none with [--noPad].  The
    bytes of the last two were not run themselves. *)
Theorem writes_rest_on_accepted_trials
        (args : Args) (input : bytes) (oracle : nat -> bytes -> trace)
        (elapsed : nat -> Q) (fuel : nat) :
  forall later w earlier,
    events (snd (main args input oracle elapsed fuel start_state))
    = later ++ WriteOut w :: earlier ->
    accepted_mutation args w earlier
    \/ startup_trim args input w earlier
    \/ (later = []
        /\ fst (main args input oracle elapsed fuel start_state) = Val 0
        /\ final_write args input w earlier).
Proof.
  intros later w earlier H.
  destruct (main_writes args input oracle elapsed fuel start_state _ _
              eq_refl (surjective_pairing _))
    as [Hw | [Hv [wf [evs [He [Hw Hf]]]]]].
  - destruct (Hw _ _ _ H) as [Ha | Ha]; auto.
  - rewrite He in H. destruct later as [|e later]; simpl in H.
    + injection H as H1 H2. subst wf evs. auto.
    + injection H as _ H. destruct (Hw _ _ _ H) as [Ha | Ha]; auto.
Qed.

Lemma writes_rest_on_accepted_trials_witness :
  events (snd (main (args_with 3 false) [1; 2; 3] reads_first_byte
                    second_per_trial 5 start_state))
  = [WriteOut [0]; WriteOut []; Trial [] (reads_first_byte 3%nat []);
     WriteOut [1]; Trial [1; 2; 3] (reads_first_byte 2%nat [1; 2; 3]);
     ReadInput; Trial [1; 2; 3] (reads_first_byte 1%nat [1; 2; 3])]
  /\ (accepted_mutation (args_with 3 false) []
        [Trial [] (reads_first_byte 3%nat []);
         WriteOut [1]; Trial [1; 2; 3] (reads_first_byte 2%nat [1; 2; 3]);
         ReadInput; Trial [1; 2; 3] (reads_first_byte 1%nat [1; 2; 3])]
      \/ startup_trim (args_with 3 false) [1; 2; 3] []
           [Trial [] (reads_first_byte 3%nat []);
            WriteOut [1]; Trial [1; 2; 3] (reads_first_byte 2%nat [1; 2; 3]);
            ReadInput; Trial [1; 2; 3] (reads_first_byte 1%nat [1; 2; 3])]
      \/ ([WriteOut [0]] = []
          /\ fst (main (args_with 3 false) [1; 2; 3] reads_first_byte
                       second_per_trial 5 start_state) = Val 0
          /\ final_write (args_with 3 false) [1; 2; 3] []
               [Trial [] (reads_first_byte 3%nat []);
                WriteOut [1];
                Trial [1; 2; 3] (reads_first_byte 2%nat [1; 2; 3]);
                ReadInput;
                Trial [1; 2; 3] (reads_first_byte 1%nat [1; 2; 3])])).
Proof.
  assert (H : events (snd (main (args_with 3 false) [1; 2; 3] reads_first_byte
                                second_per_trial 5 start_state))
              = [WriteOut [0]; WriteOut [];
                 Trial [] (reads_first_byte 3%nat []);
                 WriteOut [1];
                 Trial [1; 2; 3] (reads_first_byte 2%nat [1; 2; 3]);
                 ReadInput;
                 Trial [1; 2; 3] (reads_first_byte 1%nat [1; 2; 3])])
    by (vm_compute; reflexivity).
  split; [exact H|].
  exact (writes_rest_on_accepted_trials
           (args_with 3 false) [1; 2; 3] reads_first_byte second_per_trial 5
           [WriteOut [0]] [] _ H).
Defined.
